(** * Smart Context Engine: a shallow embedding and its verified properties

    The development follows the TypeScript module that implements the
    Smart Context selector (classes [TFIDFScorer], [EmbeddingProvider],
    [EmbeddingCache], [HeuristicScorer] and [SmartContextEngine]), and the
    deep-link handler and account origin of the main process.

    Modelling conventions.
    - A JavaScript [number] that holds a count, a length, a token estimate
      or a millisecond timestamp (file mtime, clock) is a [Z]; a [number]
      that holds a score or any other fractional quantity is an IEEE-754
      binary64 [float] with the kernel's primitive operations, so that [<],
      [+], [*] and [/] behave as in the engine (NaN included).
    - Strings are sequences of 8-bit characters; [toLowerCase] acts on the
      letters A-Z and the regular-expression classes [\w] and [\s] are the
      ASCII ones.
    - Objects that the code mutates in place (the candidates, the on-disk
      cache) are threaded through the functions explicitly.
    - Node and platform built-ins whose exact result is not fixed by the
      source ([Math.log], [toFixed], SHA-256, [path.basename] ...) and the
      collaborators of the engine (scanner, token estimator, embedder,
      file-system [stat], clock) are the fields of an environment record. *)

From Stdlib Require Import ZArith Floats SpecFloat FloatAxioms Uint63 Lia Ascii String
  DecimalString.
From stdpp Require Import gmap strings list fin_maps sorting.

Set Warnings "-inexact-float".
#[local] Open Scope Z_scope.

(** ** JavaScript numbers *)

Module JS.

(** An integer-valued [number] seen as a double (exact below 2^53). *)
Definition Z2F (z : Z) : float :=
  if z <? 0 then PrimFloat.opp (PrimFloat.of_uint63 (Uint63.of_Z (- z)))
  else PrimFloat.of_uint63 (Uint63.of_Z z).

(** [Math.floor] of a finite double, as an integer.  The engine only floors
    the product of an array length with a constant, which is finite; the
    value chosen for NaN and the infinities is never used. *)
Definition Math_floor (x : float) : Z :=
  match Prim2SF x with
  | S754_finite s m e =>
      let q := if 0 <=? e then Z.pos m * 2 ^ e else Z.pos m / 2 ^ (- e) in
      let r := if 0 <=? e then 0 else Z.pos m mod 2 ^ (- e) in
      if s then (if r =? 0 then - q else - q - 1) else q
  | _ => 0
  end.

(** [Math.max] on two doubles: NaN is contagious. *)
Definition Math_max (a b : float) : float :=
  if PrimFloat.is_nan a || PrimFloat.is_nan b then nan
  else if PrimFloat.ltb a b then b
  else if PrimFloat.ltb b a then a
  else if PrimFloat.get_sign a then b else a.

(** [x || d] for a number [x]: zero and NaN are falsy. *)
Definition or_default (x d : float) : float :=
  if PrimFloat.eqb x 0 || PrimFloat.is_nan x then d else x.

(** [a.sort(cmp)] for a comparator that returns a number: the sort is stable
    and an element moves behind another one only when the comparator is
    positive (a NaN comparator result counts as [+0]).  For a consistent
    comparator every stable sort returns this array; the comparators of the
    engine are differences of scores and are consistent when no score is
    NaN.  With a NaN among the scores ECMAScript leaves the order to the
    implementation, and the order chosen here need not be the one of a given
    engine (for the scores 4, 3, NaN, 3 it is 3, 4, NaN, 3, where V8 gives
    3, 3, 4, NaN); what is proved about the order of a sorted array is
    stated for scores that are numbers, or uses only that sorting
    rearranges the array. *)
Section Sort.
Context {A : Type} (cmp : A → A → float).

Definition goes_after (x y : A) : bool := PrimFloat.ltb 0 (cmp x y).

Fixpoint insert_sorted (x : A) (l : list A) : list A :=
  match l with
  | [] => [x]
  | y :: l' => if goes_after x y then y :: insert_sorted x l' else x :: l
  end.

Fixpoint sort (l : list A) : list A :=
  match l with
  | [] => []
  | x :: l' => insert_sorted x (sort l')
  end.
End Sort.

End JS.

(** ** Data model *)

Inductive Mode := Off | Conservative | Balanced.

#[global] Instance Mode_eq_dec : EqDecision Mode.
Proof. solve_decision. Defined.

Record CodebaseFile := {
  path : string;
  content : string;
  force : bool
}.

(** [FileCandidate extends CodebaseFile]. *)
Record FileCandidate := {
  file : CodebaseFile;
  score : float;
  reasons : list string;
  isAutoInclude : bool;
  tokens : Z
}.

Definition set_score (c : FileCandidate) (s : float) : FileCandidate :=
  {| file := file c; score := s; reasons := reasons c;
     isAutoInclude := isAutoInclude c; tokens := tokens c |}.

(** [c.reasons.push(...rs)] *)
Definition push_reasons (c : FileCandidate) (rs : list string) : FileCandidate :=
  {| file := file c; score := score c; reasons := reasons c ++ rs;
     isAutoInclude := isAutoInclude c; tokens := tokens c |}.

(** [c.score += d; c.reasons.push(r)] *)
Definition bump (c : FileCandidate) (d : float) (r : string) : FileCandidate :=
  push_reasons (set_score c (score c + d)%float) [r].

(** What scoring never touches. *)
Definition identity (c : FileCandidate) : CodebaseFile * bool * Z :=
  (file c, isAutoInclude c, tokens c).

(** ** The budgeted selector ([SmartContextEngine.selectWithinBudget]) *)

Module Selector.

Definition maxFiles (mode : Mode) : nat :=
  match mode with Conservative => 8%nat | _ => 20%nat end.

Definition pct (mode : Mode) : float :=
  match mode with Conservative => 0.85%float | _ => 0.7%float end.

(** [remaining.map(r => r.score).sort((a, b) => a - b)] *)
Definition sortedScores (remaining : list FileCandidate) : list float :=
  JS.sort (λ a b, (a - b)%float) (score <$> remaining).

(** [Math.max(0, Math.min(scores.length - 1, Math.floor(scores.length * pct)))] *)
Definition cutIndex (mode : Mode) (len : nat) : Z :=
  Z.max 0 (Z.min (Z.of_nat len - 1)
                 (JS.Math_floor (JS.Z2F (Z.of_nat len) * pct mode)%float)).

(** [scores[idx] ?? 0] *)
Definition percentileCut (mode : Mode) (scores : list float) : float :=
  default 0%float (scores !! Z.to_nat (cutIndex mode (length scores))).

Definition minScore (mode : Mode) (remaining : list FileCandidate) : float :=
  JS.Math_max (percentileCut mode (sortedScores remaining)) 0.15%float.

Definition sumTokens (l : list FileCandidate) : Z :=
  foldl (λ sum f, sum + tokens f) 0 l.

(** The state of the selection loop: the [selected] array, [usedTokens], the
    candidates already visited (with the reasons pushed on them) and whether
    a [break] ended the loop. *)
Record LoopState := {
  selected : list FileCandidate;
  usedTokens : Z;
  visited : list FileCandidate;
  stopped : bool
}.

Section Loop.
Context (toFixed : float → nat → string).
Context (cap : nat) (tokenBudget : Z) (threshold : float).

Definition filtered (c : FileCandidate) : FileCandidate :=
  push_reasons c ["filtered: below threshold " +:+ toFixed threshold 2].

Fixpoint selectLoop (remaining : list FileCandidate) (st : LoopState) : LoopState :=
  match remaining with
  | [] => st
  | candidate :: rest =>
      if PrimFloat.ltb (score candidate) threshold then
        selectLoop rest
          {| selected := selected st; usedTokens := usedTokens st;
             visited := visited st ++ [filtered candidate]; stopped := false |}
      else if (cap <=? length (selected st))%nat then
        {| selected := selected st; usedTokens := usedTokens st;
           visited := visited st ++ remaining; stopped := true |}
      else if tokenBudget <? usedTokens st + tokens candidate then
        {| selected := selected st; usedTokens := usedTokens st;
           visited := visited st ++ remaining; stopped := true |}
      else
        selectLoop rest
          {| selected := selected st ++ [candidate];
             usedTokens := usedTokens st + tokens candidate;
             visited := visited st ++ [candidate]; stopped := false |}
  end.
End Loop.

Definition autoIncludes (candidates : list FileCandidate) : list FileCandidate :=
  filter (λ c, isAutoInclude c = true) candidates.

Definition remainingOf (candidates : list FileCandidate) : list FileCandidate :=
  filter (λ c, isAutoInclude c ≠ true) candidates.

Definition selectRun (toFixed : float → nat → string)
    (candidates : list FileCandidate) (tokenBudget : Z) (mode : Mode) : LoopState :=
  let auto := autoIncludes candidates in
  let remaining := remainingOf candidates in
  selectLoop toFixed (maxFiles mode) tokenBudget (minScore mode remaining) remaining
    {| selected := auto; usedTokens := sumTokens auto; visited := []; stopped := false |}.

Definition selectWithinBudget (toFixed : float → nat → string)
    (candidates : list FileCandidate) (tokenBudget : Z) (mode : Mode)
    : list FileCandidate :=
  selected (selectRun toFixed candidates tokenBudget mode).

End Selector.

(** ** JavaScript strings *)

Module Str.

Definition code (c : ascii) : N := N_of_ascii c.

Definition is_upper (c : ascii) : bool := ((65 <=? code c) && (code c <=? 90))%N.
Definition is_lower (c : ascii) : bool := ((97 <=? code c) && (code c <=? 122))%N.
Definition is_digit (c : ascii) : bool := ((48 <=? code c) && (code c <=? 57))%N.
Definition is_alnum (c : ascii) : bool := is_upper c || is_lower c || is_digit c.

(** The class [\w]. *)
Definition is_word (c : ascii) : bool := is_alnum c || (code c =? 95)%N.

(** The class [\s]: tab, line feed, vertical tab, form feed, carriage return
    and space. *)
Definition is_space (c : ascii) : bool :=
  (((9 <=? code c) && (code c <=? 13)) || (code c =? 32))%N.

Definition lower_char (c : ascii) : ascii :=
  if is_upper c then ascii_of_N (code c + 32) else c.

Definition chars (s : string) : list ascii := list_ascii_of_string s.
Definition of_chars (l : list ascii) : string := string_of_list_ascii l.

(** [s.toLowerCase()] on the letters A-Z.  The method of the engine also
    maps letters outside ASCII (the Kelvin sign U+212A becomes [k], U+0130
    becomes [i] followed by U+0307); the texts of this development are
    sequences of 8-bit characters, where only A-Z have a lower case. *)
Definition toLowerCase (s : string) : string := of_chars (lower_char <$> chars s).

(** [s.replace(/[cls]/g, " ")]: every character of the class becomes a space. *)
Definition replace_each (cls : ascii → bool) (s : string) : string :=
  of_chars ((λ c, if cls c then " "%char else c) <$> chars s).

(** [s.replace(/[cls]+/g, " ")]: every maximal run of characters of the class
    becomes one space. *)
Fixpoint replace_runs_from (cls : ascii → bool) (in_run : bool) (l : list ascii)
    : list ascii :=
  match l with
  | [] => []
  | c :: l' =>
      if cls c then
        if in_run then replace_runs_from cls true l'
        else " "%char :: replace_runs_from cls true l'
      else c :: replace_runs_from cls false l'
  end.

Definition replace_runs (cls : ascii → bool) (s : string) : string :=
  of_chars (replace_runs_from cls false (chars s)).

(** [s.split(/\s+/)]: the pieces between the maximal runs of white space;
    a run at either end leaves an empty piece there. *)
Fixpoint split_from (cur : list ascii) (in_sep : bool) (l : list ascii)
    : list (list ascii) :=
  match l with
  | [] => [cur]
  | c :: l' =>
      if is_space c then
        if in_sep then split_from [] true l'
        else cur :: split_from [] true l'
      else split_from (cur ++ [c]) false l'
  end.

Definition split_ws (s : string) : list string :=
  of_chars <$> split_from [] false (chars s).

(** [hay.includes(needle)] *)
Fixpoint starts_with (needle hay : list ascii) : bool :=
  match needle, hay with
  | [], _ => true
  | _ :: _, [] => false
  | a :: n', b :: h' => bool_decide (a = b) && starts_with n' h'
  end.

Fixpoint includes_from (needle hay : list ascii) : bool :=
  starts_with needle hay ||
  match hay with
  | [] => false
  | _ :: h' => includes_from needle h'
  end.

Definition includes (hay needle : string) : bool :=
  includes_from (chars needle) (chars hay).

(** [arr.includes(x)] on an array of strings. *)
Definition mem (x : string) (arr : list string) : bool := bool_decide (x ∈ arr).

(** [arr.join(sep)] *)
Fixpoint join (sep : string) (arr : list string) : string :=
  match arr with
  | [] => EmptyString
  | [x] => x
  | x :: rest => x +:+ sep +:+ join sep rest
  end.

(** [arr.slice(-n)] *)
Definition last_n {A} (n : nat) (arr : list A) : list A :=
  drop (length arr - n) arr.

End Str.

(** ** The environment of a [selectFiles] call

    The built-ins and collaborators the module imports.  [estimateTokens],
    [getMaxTokens] and [extractCodebase] are functions of the application
    that live in other modules: they are parameters here (the scanner is
    applied to the glob paths of the chat context).  [stat_mtimeMs p] is
    [fs.stat(path.join(appPath, p)).mtimeMs], [None] when [stat] throws;
    [provider] is the embedding provider picked from the settings, [None]
    when no key is configured, and applying it is the [embed] call of the
    SDK, [None] when that call throws. *)

Record Env := {
  Math_log : float → float;
  toFixed : float → nat → string;
  sha256_hex : string → string;
  path_basename : string → string;
  path_dirname : string → string;
  path_extname : string → string;
  estimateTokens : string → Z;
  getMaxTokens : option Z;
  extractCodebase : list string → list CodebaseFile;
  stat_mtimeMs : string → option Z;
  Date_now : Z;
  provider : option (string → option (list float))
}.

Record Message := { role : string; msg_content : string }.

Record PromptContext := {
  userPrompt : string;
  recentMessages : list Message
}.

(** [SmartContextOptions]; [appPath], [model] and [settings] only reach the
    collaborators of [Env]. *)
Record SmartContextOptions := {
  smartContextAutoIncludes : list string;
  promptContext : PromptContext;
  mode : Mode;
  tokenBudget : option Z
}.

(** ** [class TFIDFScorer] *)

Module TFIDF.

Definition stopWords : list string :=
  ["the"; "a"; "an"; "and"; "or"; "but"; "in"; "on"; "at"; "to"; "for"; "of";
   "with"; "by"; "from"; "up"; "about"; "into"; "through"; "during"; "before";
   "after"; "above"; "below"; "between"; "among"; "this"; "that"; "these";
   "those"; "i"; "me"; "my"; "myself"; "we"; "our"; "ours"; "ourselves"; "you";
   "your"; "yours"; "yourself"; "yourselves"; "he"; "him"; "his"; "himself";
   "she"; "her"; "hers"; "herself"; "it"; "its"; "itself"; "they"; "them";
   "their"; "theirs"; "themselves"; "what"; "which"; "who"; "whom"; "this";
   "that"; "these"; "those"; "am"; "is"; "are"; "was"; "were"; "be"; "been";
   "being"; "have"; "has"; "had"; "having"; "do"; "does"; "did"; "doing";
   "will"; "would"; "should"; "could"; "can"; "may"; "might"; "must"; "shall"].

Definition isStopWord (word : string) : bool := Str.mem word stopWords.

Definition tokenize (text : string) : list string :=
  let spaced :=
    Str.replace_each (λ c, negb (Str.is_word c || Str.is_space c))
      (Str.toLowerCase text) in
  let sized :=
    filter (λ token, (2 < String.length token ∧ String.length token < 50)%nat)
      (Str.split_ws spaced) in
  filter (λ token, isStopWord token = false) sized.

Record Document := { doc_path : string; doc_tokens : list string }.

Record Scorer := {
  documents : list Document;
  vocabulary : gset string;
  idfCache : gmap string float
}.

Section Scorer.
Context (E : Env).

(** The loop of the constructor. *)
Definition addFile (st : list Document * gset string) (f : CodebaseFile)
    : list Document * gset string :=
  let tokens := tokenize (content f) in
  (st.1 ++ [{| doc_path := path f; doc_tokens := tokens |}],
   foldl (λ voc token, {[token]} ∪ voc) st.2 tokens).

Definition docsWithTerm (docs : list Document) (term : string) : nat :=
  length (filter (λ doc, term ∈ doc_tokens doc) docs).

Definition idfOf (docs : list Document) (term : string) : float :=
  Math_log E (JS.Z2F (Z.of_nat (length docs))
              / JS.Z2F (Z.of_nat (docsWithTerm docs term) + 1))%float.

Definition computeIDF (docs : list Document) (voc : gset string)
    : gmap string float :=
  set_to_map (λ term, (term, idfOf docs term)) voc.

Definition new (files : list CodebaseFile) : Scorer :=
  let '(docs, voc) := foldl addFile ([], ∅) files in
  {| documents := docs; vocabulary := voc; idfCache := computeIDF docs voc |}.

(** [tf.set(token, (tf.get(token) || 0) + 1)] over the tokens. *)
Definition countTokens (tokens : list string) : gmap string Z :=
  foldl (λ tf token, <[token := default 0 (tf !! token) + 1]> tf) ∅ tokens.

Definition computeTF (tokens : list string) : gmap string float :=
  (λ count, (JS.Z2F count / JS.Z2F (Z.of_nat (length tokens)))%float)
    <$> countTokens tokens.

(** [m.get(k) || 0] *)
Definition getOr0 (m : gmap string float) (k : string) : float :=
  match m !! k with
  | Some x => JS.or_default x 0
  | None => 0%float
  end.

Definition scoreDocument (s : Scorer) (filePath query : string) : float :=
  match List.find (λ d, bool_decide (doc_path d = filePath)) (documents s) with
  | None => 0%float
  | Some doc =>
      let queryTokens := tokenize query in
      let docTF := computeTF (doc_tokens doc) in
      foldl (λ score queryToken,
               (score + getOr0 docTF queryToken * getOr0 (idfCache s) queryToken)%float)
            0%float queryTokens
  end.
End Scorer.

End TFIDF.

(** ** [class EmbeddingCache]

    The cache directory is a finite map from cache keys (the stem of
    [<key>.json]) to files.  A file either parses to an
    [EmbeddingCacheData] or makes [JSON.parse] throw.  [writable] tells
    whether [fs.writeFile] and [fs.unlink] succeed; both failures are
    swallowed by the code. *)

Module Cache.

Record EmbeddingCacheData := {
  embedding : list float;
  hash : string;
  mtime : Z
}.

Inductive CacheFile :=
  | Json (cached : EmbeddingCacheData)
  | Unparsable.

Record Store := {
  files : gmap string CacheFile;
  writable : bool
}.

Definition writeFile (st : Store) (key : string) (f : CacheFile) : Store :=
  if writable st then {| files := <[key := f]> (files st); writable := true |}
  else st.

Definition unlink (st : Store) (key : string) : Store :=
  if writable st then {| files := delete key (files st); writable := true |}
  else st.

Section Cache.
Context (E : Env).

(** [hash.update(filePath); hash.update(content); hash.digest("hex")] *)
Definition getCacheKey (filePath content : string) : string :=
  sha256_hex E (filePath +:+ content).

Definition get (st : Store) (filePath content : string) (mtimeMs : Z)
    : option (list float) * Store :=
  let cacheKey := getCacheKey filePath content in
  match files st !! cacheKey with
  | Some (Json cached) =>
      if mtime cached =? mtimeMs then (Some (embedding cached), st)
      else (None, unlink st cacheKey)
  | Some Unparsable => (None, st)
  | None => (None, st)
  end.

Definition set (st : Store) (filePath content : string) (mtimeMs : Z)
    (v : list float) : Store :=
  let cacheKey := getCacheKey filePath content in
  let hash := getCacheKey filePath content in
  writeFile st cacheKey (Json {| embedding := v; hash := hash; mtime := mtimeMs |}).
End Cache.

(** Every parsable file carries its own key in the [hash] member. *)
Definition well_keyed (st : Store) : Prop :=
  ∀ key cached, files st !! key = Some (Json cached) → hash cached = key.

End Cache.

(** ** [class HeuristicScorer] and [cosineSimilarity] *)

Module Heuristic.

Definition dq : string := String "034"%char EmptyString.

(** An amount and the reasons recorded with it. *)
Definition Adjustment : Type := float * list string.

(** [if (b) { score += d; reasons.push(r) }] *)
Definition when (b : bool) (d : float) (r : string) (a : Adjustment) : Adjustment :=
  if b then ((a.1 + d)%float, a.2 ++ [r]) else a.

Section Heuristic.
Context (E : Env).

Definition queryKeywords (queryLower : string) : list string :=
  filter (λ word, (2 < String.length word)%nat)
    (Str.split_ws
       (Str.replace_each (λ c, negb (Str.is_word c || Str.is_space c)) queryLower)).

Definition scoreByPath (filePath query : string) : Adjustment :=
  let fileName := Str.toLowerCase (path_basename E filePath) in
  let dirName := Str.toLowerCase (path_dirname E filePath) in
  let queryLower := Str.toLowerCase query in
  let a0 : Adjustment := (0%float, []) in
  let a1 :=
    foldl (λ a keyword,
             when (Str.includes dirName keyword) 0.4
                  ("directory contains " +:+ dq +:+ keyword +:+ dq)
               (when (Str.includes fileName keyword) 0.8
                     ("filename contains " +:+ dq +:+ keyword +:+ dq) a))
          a0 (queryKeywords queryLower) in
  let ext := Str.toLowerCase (path_extname E filePath) in
  let a2 := when (Str.mem ext [".tsx"; ".jsx"] && Str.includes queryLower "component")
                 0.6 "React component file" a1 in
  let a3 := when (Str.mem ext [".ts"; ".js"] && Str.includes queryLower "function")
                 0.4 "JavaScript/TypeScript file" a2 in
  let a4 := when (bool_decide (ext = ".css") && Str.includes queryLower "style")
                 0.6 "CSS file" a3 in
  let a5 := when (Str.mem fileName ["package.json"; "tsconfig.json"; ".env"]
                  && (Str.includes queryLower "config" || Str.includes queryLower "setup"))
                 0.7 "configuration file" a4 in
  if Str.includes fileName "test" || Str.includes fileName "spec" then
    if Str.includes queryLower "test" then when true 0.5 "test file" a5
    else ((a5.1 - 0.3)%float, a5.2 ++ ["test file (deprioritized)"])
  else a5.

Definition scoreByRecency (mtimeMs : Z) : Adjustment :=
  let ageMs := Date_now E - mtimeMs in
  let ageDays := (JS.Z2F ageMs / JS.Z2F (1000 * 60 * 60 * 24))%float in
  if PrimFloat.ltb ageDays 1 then (0.5%float, ["modified today"])
  else if PrimFloat.ltb ageDays 7 then (0.3%float, ["modified this week"])
  else if PrimFloat.ltb ageDays 30 then (0.1%float, ["modified this month"])
  else (0%float, []).
End Heuristic.

Definition cosineSimilarity (a b : list float) : float :=
  if bool_decide (length a ≠ length b) then 0%float
  else
    let '(dotProduct, normA, normB) :=
      foldl (λ '(d, na, nb) '(x, y), (d + x * y, na + x * x, nb + y * y)%float)
            (0, 0, 0)%float (zip a b) in
    let magnitude := (PrimFloat.sqrt normA * PrimFloat.sqrt normB)%float in
    if PrimFloat.eqb magnitude 0 then 0%float else (dotProduct / magnitude)%float.

End Heuristic.

(** ** [class SmartContextEngine] *)

Module Result.

Record TopScore := {
  path : string;
  score : float;
  reason : string
}.

Record Debug := {
  totalCandidates : nat;
  selectedCount : nat;
  tokenUsage : Z;
  tokenBudget : Z;
  scoringMethod : string;
  topScores : list TopScore;
  autoIncludesCount : nat;
  excludedCount : Z
}.

Record SmartContextResult := {
  selectedFiles : list CodebaseFile;
  debug : Debug
}.

End Result.

Module Engine.

Definition keywordStop : list string :=
  ["the"; "and"; "you"; "your"; "with"; "that"; "this"; "from"; "into"; "for";
   "not"; "but"; "are"; "was"; "were"; "have"; "has"; "had"; "will"; "would";
   "could"; "should"; "about"; "page"; "component"; "file"; "files"; "please";
   "make"; "add"; "remove"; "change"; "update"; "toggle"; "dark"; "light";
   "mode"; "new"; "old"; "like"; "just"; "need"; "want"; "can"; "able"].

(** The tokens the keyword extractor starts from. *)
Definition rawKeywords (text : string) : list string :=
  filter (λ t, (3 ≤ String.length t ∧ String.length t ≤ 40)%nat)
    (Str.split_ws
       (Str.replace_runs (λ c, negb (Str.is_alnum c)) (Str.toLowerCase text))).

(** [for (const t of raw) if (!stop.has(t) && !out.includes(t)) out.push(t)] *)
Definition collectKeywords (raw : list string) : list string :=
  foldl (λ out t,
           if negb (Str.mem t keywordStop) && negb (Str.mem t out)
           then out ++ [t] else out)
        [] raw.

Definition extractKeywords (text : string) : list string :=
  take 15 (collectKeywords (rawKeywords text)).

Definition buildQuery (pc : PromptContext) : string :=
  let recentUserMessages :=
    Str.join " "
      (msg_content <$>
         Str.last_n 3 (filter (λ m, role m = "user") (recentMessages pc))) in
  if bool_decide (recentUserMessages = EmptyString) then userPrompt pc
  else userPrompt pc +:+ " " +:+ recentUserMessages.

Definition themePaths : list string :=
  ["theme"; "toggle"; "globals.css"; "tailwind.config"; "index.html"; "app.css";
   "layout"; "ThemeToggle"; "toggle-group"].

Definition negativeDirs : list string :=
  ["chart"; "charts"; "graph"; "analytics"; "test"; "stories"; "storybook"].

Definition some {A} (p : A → bool) (l : list A) : bool := existsb p l.

Section Engine.
Context (E : Env).

Definition calculateTokenBudget : Z :=
  let maxTokens :=
    match getMaxTokens E with
    | Some n => if n =? 0 then 32000 else n
    | None => 32000
    end in
  let reservedTokens := 8000 in
  Z.max (maxTokens - reservedTokens) 10000.

Definition prepareCandidates (files : list CodebaseFile)
    (options : SmartContextOptions) : list FileCandidate :=
  let autoIncludePaths := smartContextAutoIncludes options in
  (λ f,
     {| file := f; score := 0%float; reasons := [];
        isAutoInclude := Str.mem (path f) autoIncludePaths || force f || false;
        tokens := estimateTokens E (content f) |}) <$> files.

Definition addHeuristicScores (candidate : FileCandidate) (query : string)
    : FileCandidate :=
  let pathScore := Heuristic.scoreByPath E (path (file candidate)) query in
  let c1 :=
    push_reasons (set_score candidate (score candidate + pathScore.1)%float)
                 pathScore.2 in
  let c2 :=
    match stat_mtimeMs E (path (file candidate)) with
    | Some mtimeMs =>
        let recencyScore := Heuristic.scoreByRecency E mtimeMs in
        push_reasons (set_score c1 (score c1 + recencyScore.1)%float)
                     recencyScore.2
    | None => c1
    end in
  if isAutoInclude c2 then bump c2 10 "auto-include" else c2.

Definition byScoreDesc (l : list FileCandidate) : list FileCandidate :=
  JS.sort (λ a b, (score b - score a)%float) l.

Definition tfidfOne (scorer : TFIDF.Scorer) (query : string)
    (candidate : FileCandidate) : FileCandidate :=
  let tfidfScore := TFIDF.scoreDocument scorer (path (file candidate)) query in
  addHeuristicScores
    (push_reasons (set_score candidate tfidfScore)
                  ["tf-idf score: " +:+ toFixed E tfidfScore 3])
    query.

Definition scoreWithTFIDF (candidates : list FileCandidate) (query : string)
    : list FileCandidate :=
  let scorer := TFIDF.new E (file <$> candidates) in
  byScoreDesc (tfidfOne scorer query <$> candidates).

(** [embeddingProvider.embed(text)]: throws without a provider. *)
Definition embed (text : string) : option (list float) :=
  match provider E with
  | None => None
  | Some call => call text
  end.

Definition isAvailable : bool :=
  match provider E with None => false | Some _ => true end.

Definition similarityOne (queryEmbedding embedding : list float) (query : string)
    (candidate : FileCandidate) : FileCandidate :=
  let similarity := Heuristic.cosineSimilarity queryEmbedding embedding in
  addHeuristicScores
    (push_reasons (set_score candidate similarity)
                  ["embedding similarity: " +:+ toFixed E similarity 3])
    query.

(** One iteration of the loop of [scoreWithEmbeddings]: the candidates
    already handled and the cache are the state. *)
Definition embeddingStep (queryEmbedding : list float) (query : string)
    (st : list FileCandidate * Cache.Store) (candidate : FileCandidate)
    : list FileCandidate * Cache.Store :=
  let p := path (file candidate) in
  let text := content (file candidate) in
  let '(cached, store1) :=
    match stat_mtimeMs E p with
    | Some mtimeMs => Cache.get E st.2 p text mtimeMs
    | None => (None, st.2)
    end in
  match cached with
  | Some embedding =>
      (st.1 ++ [similarityOne queryEmbedding embedding query candidate], store1)
  | None =>
      match embed text with
      | Some embedding =>
          let store2 :=
            match stat_mtimeMs E p with
            | Some mtimeMs => Cache.set E store1 p text mtimeMs embedding
            | None => store1
            end in
          (st.1 ++ [similarityOne queryEmbedding embedding query candidate], store2)
      | None => (st.1 ++ [candidate], store1)
      end
  end.

(** The cache has nothing usable for the candidate: [stat] throws or
    [embeddingCache.get] returns [null]. *)
Definition cacheMiss (store : Cache.Store) (candidate : FileCandidate) : Prop :=
  match stat_mtimeMs E (path (file candidate)) with
  | Some mtimeMs =>
      (Cache.get E store (path (file candidate)) (content (file candidate))
                 mtimeMs).1 = None
  | None => True
  end.

(** The cache after that lookup (a stale entry is gone). *)
Definition afterLookup (store : Cache.Store) (candidate : FileCandidate)
    : Cache.Store :=
  match stat_mtimeMs E (path (file candidate)) with
  | Some mtimeMs =>
      (Cache.get E store (path (file candidate)) (content (file candidate))
                 mtimeMs).2
  | None => store
  end.

Definition scoreWithEmbeddings (candidates : list FileCandidate) (query : string)
    (store : Cache.Store) : list FileCandidate * Cache.Store :=
  match embed query with
  | Some queryEmbedding =>
      let '(scored, store') :=
        foldl (embeddingStep queryEmbedding query) ([], store) candidates in
      (byScoreDesc scored, store')
  | None => (scoreWithTFIDF candidates query, store)
  end.

(** The body of the post-scoring loop of [scoreCandidates]. *)
Definition keywordAdjust (keywords : list string) (c : FileCandidate)
    : FileCandidate :=
  let baseName := Str.toLowerCase (path_basename E (path (file c))) in
  let dir := Str.toLowerCase (path_dirname E (path (file c))) in
  let text := Str.toLowerCase (content (file c)) in
  let hasKeywordInPath :=
    some (λ k, Str.includes baseName k || Str.includes dir k) keywords in
  let hasKeywordInContent := some (λ k, Str.includes text k) keywords in
  let wantsWatermark :=
    some (λ k, Str.mem k ["watermark"; "ternary"; "made"]) keywords in
  let c1 :=
    if wantsWatermark
       && (Str.includes baseName "made-with-ternary"
           || Str.includes baseName "watermark"
           || Str.includes text "made with ternary")
    then bump c 2 "bonus: watermark-related file" else c in
  let wantsThemeToggle :=
    some (λ k, Str.mem k ["theme"; "toggle"; "dark"; "light"]) keywords in
  let c2 :=
    if wantsThemeToggle
       && some (λ p, Str.includes baseName (Str.toLowerCase p)
                     || Str.includes dir (Str.toLowerCase p)) themePaths
    then bump c1 1.5 "bonus: theme-toggle related path" else c1 in
  let isNegativeDir :=
    some (λ d, Str.includes dir d || Str.includes baseName d) negativeDirs in
  let mentionedNegative := some (λ k, Str.mem k negativeDirs) keywords in
  let c3 :=
    if isNegativeDir && negb mentionedNegative
       && negb hasKeywordInPath && negb hasKeywordInContent
    then bump c2 (-5) "penalty: negative-dir without mention" else c2 in
  if negb hasKeywordInPath && negb hasKeywordInContent
  then bump c3 (-0.5) "penalty: no keyword hint"
  else bump c3 0.5 "bonus: keyword match".

Definition scoreCandidates (candidates : list FileCandidate)
    (options : SmartContextOptions) (store : Cache.Store)
    : list FileCandidate * Cache.Store :=
  let query := buildQuery (promptContext options) in
  let keywords := extractKeywords query in
  let '(scored, store') :=
    if isAvailable then scoreWithEmbeddings candidates query store
    else (scoreWithTFIDF candidates query, store) in
  (byScoreDesc (keywordAdjust keywords <$> scored), store').

Definition selectFilesTraditional (options : SmartContextOptions)
    : Result.SmartContextResult :=
  let files := extractCodebase E (smartContextAutoIncludes options) in
  let totalTokens :=
    foldl (λ sum f, sum + estimateTokens E (content f)) 0 files in
  {| Result.selectedFiles := files;
     Result.debug :=
       {| Result.totalCandidates := length files;
          Result.selectedCount := length files;
          Result.tokenUsage := totalTokens;
          Result.tokenBudget := totalTokens;
          Result.scoringMethod := "traditional";
          Result.topScores := [];
          Result.autoIncludesCount := length (filter (λ f, force f = true) files);
          Result.excludedCount := 0 |} |}.

(** [options.tokenBudget || calculateTokenBudget(...)] *)
Definition budgetOf (options : SmartContextOptions) : Z :=
  match tokenBudget options with
  | Some b => if b =? 0 then calculateTokenBudget else b
  | None => calculateTokenBudget
  end.

Definition selectFiles (options : SmartContextOptions) (store : Cache.Store)
    : Result.SmartContextResult * Cache.Store :=
  match mode options with
  | Off => (selectFilesTraditional options, store)
  | _ =>
      let candidateFiles := extractCodebase E (smartContextAutoIncludes options) in
      let tokenBudget := budgetOf options in
      let candidates := prepareCandidates candidateFiles options in
      let '(scoredCandidates, store') := scoreCandidates candidates options store in
      let selectedFiles :=
        Selector.selectWithinBudget (toFixed E) scoredCandidates tokenBudget
                                    (mode options) in
      ({| Result.selectedFiles :=
            (λ c, {| path := path (file c); content := content (file c);
                     force := isAutoInclude c |}) <$> selectedFiles;
          Result.debug :=
            {| Result.totalCandidates := length candidates;
               Result.selectedCount := length selectedFiles;
               Result.tokenUsage := foldl (λ sum f, sum + tokens f) 0 selectedFiles;
               Result.tokenBudget := tokenBudget;
               Result.scoringMethod :=
                 if isAvailable then "embeddings" else "tf-idf";
               Result.topScores :=
                 (λ f, {| Result.path := path (file f);
                          Result.score := score f;
                          Result.reason := Str.join ", " (reasons f) |})
                   <$> take 10 selectedFiles;
               Result.autoIncludesCount :=
                 length (filter (λ f, isAutoInclude f = true) selectedFiles);
               Result.excludedCount :=
                 Z.of_nat (length candidates) - Z.of_nat (length selectedFiles) |} |},
       store')
  end.
End Engine.

End Engine.

(** ** [TFIDFScorer.getTopTerms]

    [computeTF] returns a [Map], which [getTopTerms] walks in insertion
    order: here the map is an association list that keeps the position of a
    key when its value is replaced. *)

Module TopTerms.

Fixpoint get (k : string) (m : list (string * Z)) : option Z :=
  match m with
  | [] => None
  | (k', v) :: m' => if bool_decide (k' = k) then Some v else get k m'
  end.

Fixpoint set (k : string) (v : Z) (m : list (string * Z)) : list (string * Z) :=
  match m with
  | [] => [(k, v)]
  | (k', v') :: m' =>
      if bool_decide (k' = k) then (k, v) :: m' else (k', v') :: set k v m'
  end.

(** [tf.set(token, (tf.get(token) || 0) + 1)] over the tokens. *)
Definition countEntries (tokens : list string) : list (string * Z) :=
  foldl (λ tf token, set token (default 0 (get token tf) + 1) tf) [] tokens.

(** [Array.from(computeTF(tokens).entries())] *)
Definition tfEntries (tokens : list string) : list (string * float) :=
  (λ e, (e.1, (JS.Z2F e.2 / JS.Z2F (Z.of_nat (length tokens)))%float))
    <$> countEntries tokens.

Definition getTopTerms (s : TFIDF.Scorer) (filePath : string) (limit : nat)
    : list string :=
  match List.find (λ d, bool_decide (TFIDF.doc_path d = filePath))
                  (TFIDF.documents s) with
  | None => []
  | Some doc =>
      let scores :=
        take limit
          (JS.sort (λ a b, (b.2 - a.2)%float)
             ((λ e, (e.1, (e.2 * TFIDF.getOr0 (TFIDF.idfCache s) e.1)%float))
                <$> tfEntries (TFIDF.doc_tokens doc))) in
      fst <$> scores
  end.

End TopTerms.

(** ** [EmbeddingProvider.initializeProvider]

    The part of the settings it reads, and the environment variables.  A
    string is truthy when it is not empty. *)

Module Provider.

Record VertexSettings := {
  projectId : option string;
  location : option string;
  serviceAccountKey : option string
}.

Record ProviderSettings := {
  openaiKey : option string;
  googleKey : option string;
  vertex : option VertexSettings
}.

Inductive Backend :=
  | OpenAI (apiKey : string)
  | Google (apiKey : string)
  | Vertex (project location : string) (credentials : option string).

(** The fields of the object after the constructor ran, or the exception
    of [JSON.parse] on the service account key. *)
Inductive Initialized :=
  | Ready (provider : option Backend) (model : string)
  | Throws.

Definition truthy (o : option string) : option string :=
  match o with
  | Some s => if bool_decide (s = EmptyString) then None else Some s
  | None => None
  end.

(** [a || b] on optional strings. *)
Definition orElse (a b : option string) : option string :=
  match truthy a with
  | Some s => Some s
  | None => b
  end.

Section Provider.
Context (getEnvVar : string → option string) (parses : string → bool).

Definition initializeProvider (settings : ProviderSettings) : Initialized :=
  match truthy (orElse (openaiKey settings) (getEnvVar "OPENAI_API_KEY")) with
  | Some key => Ready (Some (OpenAI key)) "text-embedding-3-small"
  | None =>
      match truthy (orElse (googleKey settings) (getEnvVar "GOOGLE_API_KEY")) with
      | Some key => Ready (Some (Google key)) "text-embedding-004"
      | None =>
          match vertex settings with
          | Some v =>
              match truthy (projectId v), truthy (location v) with
              | Some project, Some loc =>
                  match truthy (serviceAccountKey v) with
                  | Some json =>
                      if parses json
                      then Ready (Some (Vertex project loc (Some json)))
                                 "text-embedding-004"
                      else Throws
                  | None => Ready (Some (Vertex project loc None)) "text-embedding-004"
                  end
              | _, _ => Ready None EmptyString
              end
          | None => Ready None EmptyString
          end
      end
  end.

(** [isAvailable()] on the initialized object. *)
Definition isAvailable (i : Initialized) : option bool :=
  match i with
  | Ready (Some _) _ => Some true
  | Ready None _ => Some false
  | Throws => None
  end.
End Provider.

End Provider.

(** ** [EmbeddingCache.cleanup]

    The directory listing gives every file name with the modification time
    of the file itself; the entry of the cache key [k] is the file
    [k.json]. *)

Module CacheDir.

Definition endsWith (s suffix : string) : bool :=
  Str.starts_with (rev (Str.chars suffix)) (rev (Str.chars s)).

(** The name without its last five characters. *)
Definition stem (name : string) : string :=
  Str.of_chars (take (String.length name - 5) (Str.chars name)).

Definition defaultMaxAge : Z := 7 * 24 * 60 * 60 * 1000.

(** The loop of [cleanup].  When [fs.unlink] throws, the [catch] of the
    method ends the loop and the directory stays as it is by then. *)
Fixpoint cleanupLoop (now maxAge : Z) (listing : list (string * Z))
    (st : Cache.Store) : Cache.Store :=
  match listing with
  | [] => st
  | (name, mtimeMs) :: rest =>
      if negb (endsWith name ".json") then cleanupLoop now maxAge rest st
      else if maxAge <? now - mtimeMs then
        if Cache.writable st
        then cleanupLoop now maxAge rest (Cache.unlink st (stem name))
        else st
      else cleanupLoop now maxAge rest st
  end.

Definition cleanup (E : Env) (maxAge : Z) (listing : list (string * Z))
    (st : Cache.Store) : Cache.Store :=
  cleanupLoop (Date_now E) maxAge listing st.

End CacheDir.

(** ** Deep links and the account origin (main process)

    [new URL(url)] is taken as done: a deep link is the parsed URL, or
    nothing when the constructor throws. *)

Module DeepLink.

Record URL := {
  protocol : string;
  hostname : string;
  pathname : string;
  searchParams : list (string * string)
}.

(** [searchParams.get(name)]: the first value of the name. *)
Fixpoint get (name : string) (params : list (string * string)) : option string :=
  match params with
  | [] => None
  | (k, v) :: rest => if bool_decide (k = name) then Some v else get name rest
  end.

(** What the handler ends up doing. *)
Inductive Outcome :=
  | InvalidURL
  | ErrorBox (title content : string)
  | DeviceLink (token : string) (deviceId : option string)
  | NeonReturn (token refreshToken : string) (expiresIn : float)
  | SupabaseReturn (token refreshToken : string) (expiresIn : float)
  | ProReturn (apiKey : string).

Definition falsy (x : float) : bool := PrimFloat.eqb x 0 || PrimFloat.is_nan x.

Section DeepLink.
(** [Number(s)] for a string, and [Number(null)] is [0]. *)
Context (Number : string → float).

Definition numberOf (o : option string) : float :=
  match o with
  | Some s => Number s
  | None => 0%float
  end.

Definition oauthReturn (make : string → string → float → Outcome) (parsed : URL)
    : Outcome :=
  let token := get "token" (searchParams parsed) in
  let refreshToken := get "refreshToken" (searchParams parsed) in
  let expiresIn := numberOf (get "expiresIn" (searchParams parsed)) in
  match Provider.truthy token, Provider.truthy refreshToken with
  | Some t, Some r =>
      if falsy expiresIn
      then ErrorBox "Invalid URL" "Expected token, refreshToken, and expiresIn"
      else make t r expiresIn
  | _, _ => ErrorBox "Invalid URL" "Expected token, refreshToken, and expiresIn"
  end.

Definition handleDeepLinkReturn (url : string) (parsedURL : option URL) : Outcome :=
  match parsedURL with
  | None => InvalidURL
  | Some parsed =>
      if bool_decide (hostname parsed = "link")
         && bool_decide (pathname parsed = "/callback") then
        let status := get "status" (searchParams parsed) in
        let token := get "token" (searchParams parsed) in
        let deviceId := get "device_id" (searchParams parsed) in
        match Provider.truthy token with
        | Some t =>
            if bool_decide (status = Some "ok")
            then DeviceLink t (Provider.truthy deviceId)
            else ErrorBox "Invalid URL"
                   "Expected status=ok and token for device linking callback"
        | None =>
            ErrorBox "Invalid URL"
              "Expected status=ok and token for device linking callback"
        end
      else if negb (bool_decide (protocol parsed = "ternary:")) then
        ErrorBox "Invalid Protocol"
          ("Expected ternary://, got " +:+ protocol parsed +:+ ". Full URL: " +:+ url)
      else if bool_decide (hostname parsed = "neon-oauth-return") then
        oauthReturn NeonReturn parsed
      else if bool_decide (hostname parsed = "supabase-oauth-return") then
        oauthReturn SupabaseReturn parsed
      else if bool_decide (hostname parsed = "ternary-pro-return") then
        match Provider.truthy (get "key" (searchParams parsed)) with
        | Some apiKey => ProReturn apiKey
        | None => ErrorBox "Invalid URL" "Expected key"
        end
      else ErrorBox "Invalid deep link URL" url
  end.
End DeepLink.

(** The [origin] and [meUrl] of [fetchAndUpdateAppAuthFromToken], from the
    two environment variables. *)
Definition startsWith (s pre : string) : bool :=
  Str.starts_with (Str.chars pre) (Str.chars s).

Definition origin (websiteBase vercelUrl : option string) : string :=
  let base :=
    match Provider.orElse (Provider.orElse websiteBase vercelUrl)
                          (Some "https://ternary-pre-domain.vercel.app") with
    | Some b => b
    | None => EmptyString
    end in
  if startsWith base "http" then base
  else if bool_decide (base = EmptyString) then EmptyString
  else "https://" +:+ base.

Definition meUrl (websiteBase vercelUrl : option string) : string :=
  origin websiteBase vercelUrl +:+ "/api/app/me".

End DeepLink.

(** ** A concrete environment

    Executable stand-ins for the built-ins, used to run the engine on
    concrete inputs.  [Math_log] is a series approximation of the natural
    logarithm (ECMAScript leaves the last bits to the implementation),
    [toFixed] follows the ECMAScript algorithm below 10^21, the [path]
    functions are the POSIX ones on relative paths without a trailing
    slash, and the digest only has to be a deterministic function of its
    input; the general theorems hold for every environment. *)

Module Sample.

Definition ln2 : float := 0.6931471805599453%float.

Fixpoint atanhSeries (n : nat) (k : Z) (z2 zpow acc : float) : float :=
  match n with
  | O => acc
  | S n' =>
      atanhSeries n' (k + 2) z2 (zpow * z2)%float (acc + zpow / JS.Z2F k)%float
  end.

Definition ln (x : float) : float :=
  if PrimFloat.is_nan x || PrimFloat.ltb x 0 then nan
  else if PrimFloat.eqb x 0 then neg_infinity
  else if PrimFloat.is_infinity x then infinity
  else
    let '(m, e) := Z.frexp x in
    let '(m, e) :=
      if PrimFloat.ltb m 0.7071067811865476 then ((m * 2)%float, e - 1) else (m, e) in
    let z := ((m - 1) / (m + 1))%float in
    (JS.Z2F e * ln2 + 2 * atanhSeries 14 1 (z * z) z 0)%float.

Definition digits (n : Z) : string :=
  NilZero.string_of_uint (N.to_uint (Z.to_N n)).

Definition padLeft (width : nat) (s : string) : string :=
  Str.of_chars (replicate (width - String.length s) "0"%char) +:+ s.

(** The integer [n] that makes [n / 10^f - x] closest to zero, the larger one
    on a tie, for a finite [x >= 0]. *)
Definition scaledRound (x : float) (f : nat) : Z :=
  match Prim2SF x with
  | S754_finite _ m e =>
      let num := Z.pos m * 10 ^ Z.of_nat f in
      if 0 <=? e then num * 2 ^ e
      else (2 * num + 2 ^ (- e)) / (2 * 2 ^ (- e))
  | _ => 0
  end.

Definition fixed (x : float) (f : nat) : string :=
  if PrimFloat.is_nan x then "NaN"
  else if PrimFloat.is_infinity x then
    (if PrimFloat.ltb x 0 then "-Infinity" else "Infinity")
  else
    let sign := if PrimFloat.ltb x 0 then "-" else EmptyString in
    let m := padLeft (f + 1) (digits (scaledRound (PrimFloat.abs x) f)) in
    let k := (String.length m - f)%nat in
    let whole := Str.of_chars (take k (Str.chars m)) in
    let frac := Str.of_chars (drop k (Str.chars m)) in
    if (f =? 0)%nat then sign +:+ whole else sign +:+ whole +:+ "." +:+ frac.

(** The index just after the last ["/"], and the pieces around it. *)
Fixpoint afterLastSlash (l : list ascii) : list ascii :=
  match l with
  | [] => []
  | c :: l' =>
      if existsb (λ d, bool_decide (d = "/"%char)) l' then afterLastSlash l'
      else if bool_decide (c = "/"%char) then l' else l
  end.

Definition basename (p : string) : string :=
  Str.of_chars (afterLastSlash (Str.chars p)).

Definition dirname (p : string) : string :=
  let l := Str.chars p in
  let base := afterLastSlash l in
  let dir := take (length l - length base - 1) l in
  if existsb (λ d, bool_decide (d = "/"%char)) l then
    (if bool_decide (dir = []) then "/" else Str.of_chars dir)
  else ".".

Fixpoint fromLastDot (l : list ascii) : list ascii :=
  match l with
  | [] => []
  | c :: l' =>
      if existsb (λ d, bool_decide (d = "."%char)) l' then fromLastDot l'
      else if bool_decide (c = "."%char) then l else []
  end.

Definition extname (p : string) : string :=
  let base := Str.chars (basename p) in
  match base with
  | [] => EmptyString
  | _ :: rest => Str.of_chars (fromLastDot rest)
  end.

(** A quarter of the length, rounded up. *)
Definition quarterLength (text : string) : Z :=
  (Z.of_nat (String.length text) + 3) / 4.

Definition env (scanned : list CodebaseFile) (mtimes : string → option Z)
    (now : Z) (embedder : option (string → option (list float))) : Env :=
  {| Math_log := ln;
     toFixed := fixed;
     sha256_hex := λ s, "sha256:" +:+ s;
     path_basename := basename;
     path_dirname := dirname;
     path_extname := extname;
     estimateTokens := quarterLength;
     getMaxTokens := None;
     extractCodebase := λ _, scanned;
     stat_mtimeMs := mtimes;
     Date_now := now;
     provider := embedder |}.

Definition emptyStore : Cache.Store :=
  {| Cache.files := ∅; Cache.writable := true |}.

End Sample.

(** ** Concrete inputs *)

Module Examples.

Definition forced (p : string) : CodebaseFile :=
  {| path := p; content := "export const value = 1;"; force := true |}.

(** Nine files the scanner flags [force]. *)
Definition nineForced : list CodebaseFile :=
  forced <$> ["src/a.ts"; "src/b.ts"; "src/c.ts"; "src/d.ts"; "src/e.ts";
              "src/f.ts"; "src/g.ts"; "src/h.ts"; "src/i.ts"].

Definition prompt (text : string) : PromptContext :=
  {| userPrompt := text; recentMessages := [] |}.

Definition conservative (text : string) (budget : option Z) : SmartContextOptions :=
  {| smartContextAutoIncludes := []; promptContext := prompt text;
     mode := Conservative; tokenBudget := budget |}.

Definition balanced (text : string) (budget : option Z) : SmartContextOptions :=
  {| smartContextAutoIncludes := []; promptContext := prompt text;
     mode := Balanced; tokenBudget := budget |}.

(** No embedding provider, no file on disk. *)
Definition offline (scanned : list CodebaseFile) : Env :=
  Sample.env scanned (λ _, None) 0 None.

(** One forced file and three ordinary ones. *)
Definition mixed : list CodebaseFile :=
  [ forced "config/secrets.env";
    {| path := "src/auth/login.ts";
       content := "export function login(user, password) { return checkLogin(user, password); }";
       force := false |};
    {| path := "src/auth/session.ts";
       content := "export function session(user) { return user.token; }";
       force := false |};
    {| path := "README.md";
       content := "Run npm install and npm start to launch the application.";
       force := false |} ].

(** The four files of a small front end. *)
Definition frontEnd : list CodebaseFile :=
  [ {| path := "src/components/ThemeToggle.tsx";
       content := "export function ThemeToggle() { const [dark, setDark] = useState(false); return <button onClick={() => setDark(!dark)}>toggle theme</button>; }";
       force := false |};
    {| path := "src/app/globals.css";
       content := ":root { --background: white; } .dark { --background: black; }";
       force := false |};
    {| path := "src/components/chart/BarChart.tsx";
       content := "export function BarChart({ data }) { return <svg>{data.map(renderBar)}</svg>; }";
       force := false |};
    {| path := "README.md";
       content := "# My App  Run npm install and npm start to launch the application.";
       force := false |} ].

(** The candidates of [frontEnd] as [scoreCandidates] hands them to the
    selector, and the selection loop on them with a budget of ten tokens. *)
Definition frontEndScored : list FileCandidate :=
  (Engine.scoreCandidates (offline frontEnd)
     (Engine.prepareCandidates (offline frontEnd) frontEnd
        (balanced "add a dark mode toggle" (Some 10)))
     (balanced "add a dark mode toggle" (Some 10)) Sample.emptyStore).1.

Definition tightRun : Selector.LoopState :=
  Selector.selectRun Sample.fixed frontEndScored 10 Balanced.

(** An embedder that fails on every text: the query embedding fails. *)
Definition failing (scanned : list CodebaseFile) : Env :=
  Sample.env scanned (λ _, None) 0 (Some (λ _, None)).

(** An embedder that fails on the text of the forced file only. *)
Definition embedder (text : string) : option (list float) :=
  if bool_decide (text = "export const value = 1;") then None
  else if bool_decide (text = "fix login bug") then Some [1; 0]%float
  else Some [1; 1]%float.

Definition online (scanned : list CodebaseFile) : Env :=
  Sample.env scanned (λ _, None) 0 (Some embedder).

Definition onlineScored : list FileCandidate :=
  (Engine.scoreCandidates (online mixed)
     (Engine.prepareCandidates (online mixed) mixed
        (balanced "fix login bug" None))
     (balanced "fix login bug" None) Sample.emptyStore).1.

(** Three small files; only the first one mentions a parser. *)
Definition corpus : list CodebaseFile :=
  [ {| path := "src/parser.ts"; content := "parser tokens"; force := false |};
    {| path := "src/button.tsx"; content := "button"; force := false |};
    {| path := "src/app.css"; content := "style"; force := false |} ].

End Examples.

(** ** Reference definitions

    What the statements below compare the code with: sums over lists, the
    threshold and the TF-IDF sum as the documentation words them, and the
    keywords in order of first occurrence. *)

Module Spec.

(** The sum of the token estimates of a list of candidates. *)
Definition tokenSum (l : list FileCandidate) : Z :=
  foldr (λ c acc, tokens c + acc) 0 l.

(** The sum of the token estimates of a list of files. *)
Definition tokensOf (E : Env) (l : list CodebaseFile) : Z :=
  foldr (λ f acc, estimateTokens E (content f) + acc) 0 l.

(** A candidate after the loop went over it: when its score is below the
    threshold, its reasons end with the threshold printed with two
    decimals. *)
Definition mark (toFixed : float → nat → string) (threshold : float)
    (c : FileCandidate) : FileCandidate :=
  if PrimFloat.ltb (score c) threshold
  then {| file := file c; score := score c;
          reasons :=
            reasons c ++ ["filtered: below threshold " +:+ toFixed threshold 2%nat];
          isAutoInclude := isAutoInclude c; tokens := tokens c |}
  else c.

Definition clamp (x lo hi : Z) : Z :=
  if x <? lo then lo else if hi <? x then hi else x.

(** The share of the scores below the cut: 0.85 in conservative mode, 0.70
    otherwise. *)
Definition keptFrom (mode : Mode) : float :=
  if bool_decide (mode = Conservative) then 0.85%float else 0.70%float.

(** [scores[clamp(floor(len * pct), 0, len - 1)]], or [0] for no score; the
    product is the one of two doubles. *)
Definition percentileCut (mode : Mode) (scores : list float) : float :=
  match scores with
  | [] => 0%float
  | s0 :: _ =>
      let len := Z.of_nat (length scores) in
      nth (Z.to_nat (clamp (JS.Math_floor (JS.Z2F len * keptFrom mode)%float)
                           0 (len - 1)))
          scores s0
  end.

Definition minScore (mode : Mode) (scores : list float) : float :=
  JS.Math_max (percentileCut mode scores) 0.15%float.

(** A list without its repetitions, every element at its first occurrence. *)
Fixpoint firstOccurrences (l : list string) : list string :=
  match l with
  | [] => []
  | x :: l' => x :: filter (λ y, y ≠ x) (firstOccurrences l')
  end.

(** A keyword is made of lower-case letters and digits. *)
Definition lowercase (k : string) : Prop :=
  Forall (λ c, Str.is_lower c || Str.is_digit c = true) (Str.chars k).

(** The number of occurrences of a token. *)
Definition occurrences (t : string) (tokens : list string) : nat :=
  length (filter (λ x, x = t) tokens).

(** [tf(doc, t)]: the raw count over the number of tokens of the document;
    a term missing from the document contributes zero ([x || 0]). *)
Definition tf (tokens : list string) (t : string) : float :=
  if bool_decide (t ∈ tokens)
  then JS.or_default (JS.Z2F (Z.of_nat (occurrences t tokens))
                      / JS.Z2F (Z.of_nat (length tokens)))%float 0
  else 0%float.

(** [df(t)]: the number of files that contain the term. *)
Definition df (files : list CodebaseFile) (t : string) : nat :=
  length (filter (λ f, t ∈ TFIDF.tokenize (content f)) files).

(** [idf(t) = ln(N / (1 + df(t)))]; a term missing from the vocabulary
    contributes zero. *)
Definition idf (E : Env) (files : list CodebaseFile) (t : string) : float :=
  if bool_decide (Exists (λ f, t ∈ TFIDF.tokenize (content f)) files)
  then JS.or_default
         (Math_log E (JS.Z2F (Z.of_nat (length files))
                      / JS.Z2F (Z.of_nat (df files t) + 1))%float) 0
  else 0%float.

(** The sum of [tf * idf] over a list of terms, from the left. *)
Definition tfidfSum (E : Env) (files : list CodebaseFile) (doc : CodebaseFile)
    (terms : list string) : float :=
  foldl (λ acc t, (acc + tf (TFIDF.tokenize (content doc)) t * idf E files t)%float)
        0%float terms.

Definition firstWithPath (files : list CodebaseFile) (p : string)
    : option CodebaseFile :=
  List.find (λ f, bool_decide (path f = p)) files.

(** The sum over every token of the query, repeated ones included. *)
Definition scoreAllTokens (E : Env) (files : list CodebaseFile) (p query : string)
    : float :=
  match firstWithPath files p with
  | Some doc => tfidfSum E files doc (TFIDF.tokenize query)
  | None => 0%float
  end.

(** The sum over the distinct tokens of the query. *)
Definition scoreDistinctTokens (E : Env) (files : list CodebaseFile)
    (p query : string) : float :=
  match firstWithPath files p with
  | Some doc => tfidfSum E files doc (firstOccurrences (TFIDF.tokenize query))
  | None => 0%float
  end.


(** The document the constructor of the scorer builds from a file. *)
Definition asDocument (f : CodebaseFile) : TFIDF.Document :=
  {| TFIDF.doc_path := path f; TFIDF.doc_tokens := TFIDF.tokenize (content f) |}.

(** [0 < r] on the specification side of the doubles. *)
Definition aboveZero (r : spec_float) : bool := SFltb (S754_zero false) r.

(** [floor(len * pct)] over the rationals. *)
Definition exactCut (mode : Mode) (len : Z) : Z :=
  match mode with
  | Conservative => len * 85 / 100
  | _ => len * 7 / 10
  end.

(** The words of a text, in the order in which they occur in it: its
    maximal runs of letters and digits.  [cur] is the word being read. *)
Fixpoint wordsFrom (cur : list ascii) (l : list ascii) : list (list ascii) :=
  match l with
  | [] => match cur with [] => [] | _ => [cur] end
  | ch :: l' =>
      if Str.is_alnum ch then wordsFrom (cur ++ [ch]) l'
      else match cur with
           | [] => wordsFrom [] l'
           | _ => cur :: wordsFrom [] l'
           end
  end.

Definition words (text : string) : list string :=
  Str.of_chars <$> wordsFrom [] (Str.chars text).

(** The keywords of a text: the words of the lower-cased text that have 3
    to 40 characters and are not in the stop list, each at its first
    occurrence, and of these the first fifteen. *)
Definition keywordsOf (stop : list string) (text : string) : list string :=
  take 15
    (firstOccurrences
       (filter (λ w, (3 ≤ String.length w ≤ 40)%nat ∧ w ∉ stop)
          (words (Str.toLowerCase text)))).

End Spec.

(** ** Auxiliary notions of the further properties *)

Module Ref.

(** The file the selector returns for a candidate. *)
Definition asSelected (c : FileCandidate) : CodebaseFile :=
  {| path := path (file c); content := content (file c); force := isAutoInclude c |}.

(** What base scoring does to a candidate. *)
Definition baseScored (c c' : FileCandidate) : Prop :=
  identity c' = identity c ∧ ∃ more, reasons c' = reasons c ++ more.

(** The score [getTopTerms] gives a term of a document: its entry of
    [computeTF] times [idfCache.get(term) || 0]. *)
Definition termScore (s : TFIDF.Scorer) (doc : TFIDF.Document) (term : string)
    : float :=
  match TFIDF.computeTF (TFIDF.doc_tokens doc) !! term with
  | Some tf => (tf * TFIDF.getOr0 (TFIDF.idfCache s) term)%float
  | None => 0%float
  end.

End Ref.

(** * Properties *)

(** ** Lists *)

Section ListFacts.
Context {A : Type}.

Lemma filter_none (P : A → Prop) `{∀ x, Decision (P x)} (l : list A) :
  Forall (λ x, ¬ P x) l → filter P l = [].
Proof.
  induction 1 as [|x l Hx _ IH]; [done|].
  rewrite filter_cons. by destruct (decide (P x)).
Qed.

Lemma filter_agree (P Q : A → Prop) `{∀ x, Decision (P x)} `{∀ x, Decision (Q x)}
    (l : list A) :
  Forall (λ x, P x ↔ Q x) l → filter P l = filter Q l.
Proof.
  induction 1 as [|x l Hx _ IH]; [done|].
  rewrite !filter_cons, IH.
  destruct (decide (P x)), (decide (Q x)); tauto.
Qed.
End ListFacts.

(** ** Sorting *)

Section SortFacts.
Context {A : Type} (cmp : A → A → float).

Lemma insert_sorted_perm x (l : list A) : JS.insert_sorted cmp x l ≡ₚ x :: l.
Proof.
  induction l as [|y l IH]; simpl; [done|].
  destruct (JS.goes_after cmp x y); [|done].
  rewrite IH. apply Permutation_swap.
Qed.

Lemma sort_perm (l : list A) : JS.sort cmp l ≡ₚ l.
Proof.
  induction l as [|x l IH]; simpl; [done|].
  by rewrite insert_sorted_perm, IH.
Qed.

Lemma sort_length (l : list A) : length (JS.sort cmp l) = length l.
Proof. by rewrite sort_perm. Qed.

Lemma sort_elem_of x (l : list A) : x ∈ JS.sort cmp l ↔ x ∈ l.
Proof. by rewrite sort_perm. Qed.

(** With a comparator that never puts two elements each behind the other,
    no element of the sorted array is directly followed by one that the
    comparator puts before it. *)
Context (Hanti : ∀ x y, JS.goes_after cmp x y = true → JS.goes_after cmp y x = false).

Lemma insert_sorted_HdRel x y (l : list A) :
  JS.goes_after cmp x y = true →
  HdRel (λ a b, JS.goes_after cmp a b = false) y l →
  HdRel (λ a b, JS.goes_after cmp a b = false) y (JS.insert_sorted cmp x l).
Proof.
  intros Hxy Hy. destruct l as [|z l]; simpl.
  - constructor. by apply Hanti.
  - destruct (JS.goes_after cmp x z); constructor.
    + by inversion Hy.
    + by apply Hanti.
Qed.

Lemma insert_sorted_sorted x (l : list A) :
  Sorted (λ a b, JS.goes_after cmp a b = false) l →
  Sorted (λ a b, JS.goes_after cmp a b = false) (JS.insert_sorted cmp x l).
Proof.
  induction 1 as [|y l Hl IH Hy]; simpl.
  - repeat constructor.
  - destruct (JS.goes_after cmp x y) eqn:Hxy.
    + constructor; [done|]. by apply insert_sorted_HdRel.
    + constructor; [by constructor|]. by constructor.
Qed.

Lemma sort_sorted (l : list A) :
  Sorted (λ a b, JS.goes_after cmp a b = false) (JS.sort cmp l).
Proof.
  induction l as [|x l IH]; simpl; [constructor|].
  by apply insert_sorted_sorted.
Qed.
End SortFacts.

(** ** Doubles: the sign of a difference *)

Lemma round_aux_sign sx mx ex lx :
  Spec.aboveZero (binary_round_aux prec emax sx mx ex lx) = true → sx = false.
Proof.
  unfold binary_round_aux.
  destruct (shr_fexp prec emax mx ex lx) as [mrs' e'].
  destruct (shr_fexp prec emax _ e' loc_Exact) as [mrs'' e''].
  destruct (shr_m mrs'') as [|m|m]; [| |done].
  - by destruct sx.
  - destruct (e'' <=? emax - prec)%Z; by destruct sx.
Qed.

Lemma normalize_sign m e :
  Spec.aboveZero (binary_normalize prec emax m e false) = true → 0 < m.
Proof.
  destruct m as [|p|p]; simpl; [done|lia|].
  unfold binary_round. destruct (shl_align _ _ _).
  intros H%round_aux_sign. done.
Qed.

Lemma SFsub_antisym (x y : spec_float) :
  Spec.aboveZero (SF64sub x y) = true → Spec.aboveZero (SF64sub y x) = false.
Proof.
  unfold SF64sub.
  destruct x as [sx|sx| |sx mx ex], y as [sy|sy| |sy my ey]; simpl;
    try done;
    try (repeat match goal with b : bool |- _ => destruct b end; done).
  intros H%normalize_sign.
  destruct (Spec.aboveZero _) eqn:H'; [|done].
  apply normalize_sign in H'. rewrite (Z.min_comm ey ex) in H'. lia.
Qed.

(** [a - b > 0] and [b - a > 0] never hold together. *)
Lemma sub_antisym (a b : float) :
  PrimFloat.ltb 0 (a - b) = true → PrimFloat.ltb 0 (b - a) = false.
Proof. rewrite !FloatAxioms.ltb_spec, !FloatAxioms.sub_spec. apply SFsub_antisym. Qed.

Lemma sortedScores_sorted remaining :
  Sorted (λ a b, PrimFloat.ltb 0 (a - b) = false) (Selector.sortedScores remaining).
Proof. apply (sort_sorted (λ a b, (a - b)%float)). intros x y. apply sub_antisym. Qed.

Lemma byScoreDesc_sorted l :
  Sorted (λ a b, PrimFloat.ltb 0 (score b - score a) = false) (Engine.byScoreDesc l).
Proof.
  apply (sort_sorted (λ a b, (score b - score a)%float)).
  intros x y. apply sub_antisym.
Qed.

(** ** The selection loop *)

Section LoopFacts.
Context (toFixed : float → nat → string).
Context (cap : nat) (budget : Z) (threshold : float).

#[local] Abbreviation loop := (Selector.selectLoop toFixed cap budget threshold).

Lemma foldl_tokens_from (l : list FileCandidate) (z : Z) :
  foldl (λ sum f, sum + tokens f) z l = z + Spec.tokenSum l.
Proof.
  revert z. induction l as [|c l IH]; intros z; simpl; [lia|].
  rewrite IH. lia.
Qed.

Lemma sumTokens_tokenSum l : Selector.sumTokens l = Spec.tokenSum l.
Proof. unfold Selector.sumTokens. rewrite foldl_tokens_from. lia. Qed.

Lemma tokenSum_app l1 l2 : Spec.tokenSum (l1 ++ l2) = Spec.tokenSum l1 + Spec.tokenSum l2.
Proof. induction l1 as [|c l1 IH]; simpl; lia. Qed.

(** What the loop adds to [selected]: candidates of [remaining], in order,
    none of them below the threshold. *)
Lemma loop_extends remaining st :
  ∃ extra,
    Selector.selected (loop remaining st) = Selector.selected st ++ extra
    ∧ sublist extra remaining
    ∧ Forall (λ c, PrimFloat.ltb (score c) threshold = false) extra
    ∧ Selector.usedTokens (loop remaining st)
      = Selector.usedTokens st + Spec.tokenSum extra.
Proof.
  revert st. induction remaining as [|c rest IH]; intros st; simpl.
  - exists []. rewrite app_nil_r. simpl. repeat split; [done|constructor|lia].
  - destruct (PrimFloat.ltb (score c) threshold) eqn:Hlt.
    + destruct (IH {| Selector.selected := Selector.selected st;
                      Selector.usedTokens := Selector.usedTokens st;
                      Selector.visited := Selector.visited st ++ [Selector.filtered toFixed threshold c];
                      Selector.stopped := false |})
        as (extra & Hsel & Hsub & Hall & Hused).
      exists extra. simpl in *. repeat split; try done.
      by apply sublist_cons.
    + destruct (cap <=? length (Selector.selected st))%nat.
      { exists []. simpl. rewrite app_nil_r.
        repeat split; [apply sublist_nil_l|constructor|lia]. }
      destruct (budget <? Selector.usedTokens st + tokens c).
      { exists []. simpl. rewrite app_nil_r.
        repeat split; [apply sublist_nil_l|constructor|lia]. }
      destruct (IH {| Selector.selected := Selector.selected st ++ [c];
                      Selector.usedTokens := Selector.usedTokens st + tokens c;
                      Selector.visited := Selector.visited st ++ [c];
                      Selector.stopped := false |})
        as (extra & Hsel & Hsub & Hall & Hused).
      exists (c :: extra). simpl in *.
      rewrite Hsel, <- app_assoc. repeat split; try done.
      * by apply sublist_skip.
      * by constructor.
      * lia.
Qed.


(** Over the budget from the start, the loop adds nothing (token estimates
    are not negative). *)
Lemma loop_over_budget remaining st :
  budget < Selector.usedTokens st →
  Forall (λ c, 0 ≤ tokens c) remaining →
  Selector.selected (loop remaining st) = Selector.selected st.
Proof.
  intros Hover Hpos. revert st Hover.
  induction Hpos as [|c rest Hc _ IH]; intros st Hover; simpl; [done|].
  destruct (PrimFloat.ltb (score c) threshold); [by rewrite IH|].
  destruct (cap <=? length (Selector.selected st))%nat; [done|].
  destruct (budget <? Selector.usedTokens st + tokens c) eqn:Hb; [done|lia].
Qed.

(** The loop never pushes the number of selected files over the cap, unless
    it was over it from the start. *)
Lemma loop_cap remaining st :
  (length (Selector.selected (loop remaining st))
   ≤ Nat.max cap (length (Selector.selected st)))%nat.
Proof.
  revert st. induction remaining as [|c rest IH]; intros st; simpl; [lia|].
  destruct (PrimFloat.ltb (score c) threshold).
  { etrans; [apply IH|]. simpl. lia. }
  destruct (cap <=? length (Selector.selected st))%nat eqn:Hc; [simpl; lia|].
  destruct (budget <? Selector.usedTokens st + tokens c); [simpl; lia|].
  etrans; [apply IH|]. simpl. rewrite length_app. simpl.
  apply Nat.leb_gt in Hc. lia.
Qed.

(** The candidates the loop has gone through: each one below the threshold
    carries the reason, the others are untouched; after a [break] the rest
    of the array is untouched. *)
#[local] Abbreviation mark := (Spec.mark toFixed threshold).

Lemma loop_visited remaining st :
  Selector.stopped st = false →
  ∃ k, (k ≤ length remaining)%nat
    ∧ Selector.visited (loop remaining st)
      = Selector.visited st ++ (mark <$> take k remaining) ++ drop k remaining
    ∧ (Selector.stopped (loop remaining st) = false → k = length remaining)
    ∧ (Selector.stopped (loop remaining st) = true →
       ∃ c, remaining !! k = Some c ∧ PrimFloat.ltb (score c) threshold = false).
Proof.
  revert st. induction remaining as [|c rest IH]; intros st Hst; simpl.
  - exists 0%nat. simpl. rewrite app_nil_r. split_and!; [lia|done|done|congruence].
  - destruct (PrimFloat.ltb (score c) threshold) eqn:Hlt.
    + destruct (IH {| Selector.selected := Selector.selected st;
                      Selector.usedTokens := Selector.usedTokens st;
                      Selector.visited := Selector.visited st ++ [Selector.filtered toFixed threshold c];
                      Selector.stopped := false |} eq_refl)
        as (k & Hk & Hvis & Hgo & Hstop).
      exists (S k). simpl in *. unfold Spec.mark at 1. rewrite Hlt.
      rewrite Hvis, <- app_assoc. simpl.
      split_and!; [lia|done|intros Hs; by rewrite (Hgo Hs)|done].
    + destruct (cap <=? length (Selector.selected st))%nat.
      { exists 0%nat. simpl. split_and!; [lia|done|done|eauto]. }
      destruct (budget <? Selector.usedTokens st + tokens c).
      { exists 0%nat. simpl. split_and!; [lia|done|done|eauto]. }
      destruct (IH {| Selector.selected := Selector.selected st ++ [c];
                      Selector.usedTokens := Selector.usedTokens st + tokens c;
                      Selector.visited := Selector.visited st ++ [c];
                      Selector.stopped := false |} eq_refl)
        as (k & Hk & Hvis & Hgo & Hstop).
      exists (S k). simpl in *. unfold Spec.mark at 1. rewrite Hlt.
      rewrite Hvis, <- app_assoc. simpl.
      split_and!; [lia|done|intros Hs; by rewrite (Hgo Hs)|done].
Qed.
End LoopFacts.

(** ** The selector *)

Section SelectorFacts.
Context (toFixed : float → nat → string).

Lemma selector_decompose candidates budget mode :
  ∃ extra,
    Selector.selectWithinBudget toFixed candidates budget mode
    = Selector.autoIncludes candidates ++ extra
    ∧ sublist extra (Selector.remainingOf candidates)
    ∧ Forall (λ c, PrimFloat.ltb (score c)
                     (Selector.minScore mode (Selector.remainingOf candidates))
                   = false) extra
    ∧ Spec.tokenSum (Selector.selectWithinBudget toFixed candidates budget mode)
      = Selector.usedTokens (Selector.selectRun toFixed candidates budget mode).
Proof.
  unfold Selector.selectWithinBudget, Selector.selectRun.
  match goal with
  | |- context [Selector.selectLoop _ ?cap _ ?th ?rem ?st] =>
      destruct (loop_extends toFixed cap budget th rem st)
        as (extra & Hsel & Hsub & Hall & Hused)
  end.
  exists extra. simpl in *. split_and!; try done.
  rewrite Hsel, Hused, tokenSum_app, sumTokens_tokenSum. done.
Qed.

Lemma selector_keeps_auto candidates budget mode c :
  c ∈ candidates → isAutoInclude c = true →
  c ∈ Selector.selectWithinBudget toFixed candidates budget mode.
Proof.
  intros Hin Hauto.
  destruct (selector_decompose candidates budget mode) as (extra & -> & _).
  apply elem_of_app. left. by apply list_elem_of_filter.
Qed.

Lemma selector_excludes candidates budget mode c :
  isAutoInclude c ≠ true →
  PrimFloat.ltb (score c) (Selector.minScore mode (Selector.remainingOf candidates))
  = true →
  c ∉ Selector.selectWithinBudget toFixed candidates budget mode.
Proof.
  intros Hauto Hlt.
  destruct (selector_decompose candidates budget mode) as (extra & -> & _ & Hall & _).
  rewrite elem_of_app. intros [Hc|Hc].
  - apply list_elem_of_filter in Hc as [? _]. done.
  - rewrite Forall_forall in Hall. specialize (Hall c Hc). congruence.
Qed.


(** When the auto-includes alone exceed the budget, they are the selection. *)
Lemma selector_over_budget candidates budget mode :
  budget < Spec.tokenSum (Selector.autoIncludes candidates) →
  Forall (λ c, 0 ≤ tokens c) candidates →
  Selector.selectWithinBudget toFixed candidates budget mode
  = Selector.autoIncludes candidates.
Proof.
  intros Hover Hpos. unfold Selector.selectWithinBudget, Selector.selectRun.
  rewrite loop_over_budget; [done|by rewrite sumTokens_tokenSum|].
  unfold Selector.remainingOf. rewrite Forall_forall in Hpos |- *.
  intros c Hc. apply list_elem_of_filter in Hc as [_ Hc]. by apply Hpos.
Qed.

(** The index of the percentile cut is computed in double precision: with 90
    scores in balanced mode the product [90 * 0.7] is just below 63. *)
Lemma cutIndex_double_precision :
  Selector.cutIndex Balanced 90 = 62 ∧ Spec.exactCut Balanced 90 = 63
  ∧ Selector.cutIndex Conservative 20 = 17 ∧ Spec.exactCut Conservative 20 = 17.
Proof. split_and!; vm_compute; reflexivity. Qed.

Lemma selector_cap candidates budget mode :
  (length (Selector.selectWithinBudget toFixed candidates budget mode)
   ≤ Nat.max (Selector.maxFiles mode) (length (Selector.autoIncludes candidates)))%nat.
Proof. apply (loop_cap toFixed). Qed.

Lemma selector_auto_count candidates budget mode :
  filter (λ c, isAutoInclude c = true)
    (Selector.selectWithinBudget toFixed candidates budget mode)
  = Selector.autoIncludes candidates.
Proof.
  destruct (selector_decompose candidates budget mode) as (extra & -> & Hsub & _).
  rewrite filter_app. unfold Selector.autoIncludes at 1.
  rewrite list_filter_filter.
  replace (filter (λ c, isAutoInclude c = true) extra) with (@nil FileCandidate).
  - rewrite app_nil_r. apply list_filter_iff. tauto.
  - symmetry. apply filter_none. rewrite Forall_forall. intros c Hc Hauto.
    assert (Hrem : c ∈ Selector.remainingOf candidates)
      by (eapply elem_of_sublist; eauto).
    apply list_elem_of_filter in Hrem as [? _]. done.
Qed.

Lemma minScore_spec mode remaining :
  Selector.minScore mode remaining
  = Spec.minScore mode (Selector.sortedScores remaining).
Proof.
  unfold Selector.minScore, Spec.minScore. f_equal.
  unfold Selector.percentileCut, Spec.percentileCut, Selector.cutIndex.
  replace (Selector.pct mode) with (Spec.keptFrom mode) by (by destruct mode).
  destruct (Selector.sortedScores remaining) as [|s0 scores] eqn:Hs; [done|].
  set (fl := JS.Math_floor _). set (len := Z.of_nat _).
  assert (Hlen : len = Z.of_nat (length (s0 :: scores))) by done.
  assert (Hidx : Z.max 0 (Z.min (len - 1) fl) = Spec.clamp fl 0 (len - 1)).
  { unfold Spec.clamp. simpl in Hlen.
    destruct (fl <? 0) eqn:H0; [lia|].
    destruct (len - 1 <? fl) eqn:H1; lia. }
  rewrite Hidx, nth_lookup.
  destruct (lookup_lt_is_Some_2 (s0 :: scores) (Z.to_nat (Spec.clamp fl 0 (len - 1))))
    as [x Hx]; [|by rewrite Hx].
  rewrite <- Hidx. simpl in *. lia.
Qed.
End SelectorFacts.

(** ** Scoring keeps the candidates *)



Lemma length_auto (l : list FileCandidate) :
  length (Selector.autoIncludes l)
  = length (filter (λ i : CodebaseFile * bool * Z, i.1.2 = true) (identity <$> l)).
Proof.
  unfold Selector.autoIncludes.
  induction l as [|c l IH]; [done|].
  rewrite fmap_cons, !filter_cons. simpl.
  destruct (decide (isAutoInclude c = true)); simpl; lia.
Qed.

Section ScoringFacts.
Context (E : Env).

Lemma identity_addHeuristicScores c query :
  identity (Engine.addHeuristicScores E c query) = identity c.
Proof. unfold Engine.addHeuristicScores. repeat case_match; done. Qed.

Lemma identity_tfidfOne scorer query c :
  identity (Engine.tfidfOne E scorer query c) = identity c.
Proof. unfold Engine.tfidfOne. by rewrite identity_addHeuristicScores. Qed.

Lemma identity_similarityOne q e query c :
  identity (Engine.similarityOne E q e query c) = identity c.
Proof. unfold Engine.similarityOne. by rewrite identity_addHeuristicScores. Qed.

Lemma identity_keywordAdjust keywords c :
  identity (Engine.keywordAdjust E keywords c) = identity c.
Proof. unfold Engine.keywordAdjust. repeat case_match; done. Qed.

Lemma byScoreDesc_perm l : Engine.byScoreDesc l ≡ₚ l.
Proof. apply sort_perm. Qed.

Lemma scoreWithTFIDF_identity candidates query :
  identity <$> Engine.scoreWithTFIDF E candidates query ≡ₚ identity <$> candidates.
Proof.
  unfold Engine.scoreWithTFIDF. rewrite byScoreDesc_perm, <- list_fmap_compose.
  erewrite list_fmap_ext; [done|]. intros i c _. apply identity_tfidfOne.
Qed.

Lemma embeddingStep_identity q query st c :
  identity <$> (Engine.embeddingStep E q query st c).1
  = (identity <$> st.1) ++ [identity c].
Proof.
  unfold Engine.embeddingStep.
  repeat case_match; simpl; rewrite fmap_app; simpl;
    by rewrite ?identity_similarityOne.
Qed.

Lemma embeddingLoop_identity q query l st :
  identity <$> (foldl (Engine.embeddingStep E q query) st l).1
  = (identity <$> st.1) ++ (identity <$> l).
Proof.
  revert st. induction l as [|c l IH]; intros st; simpl.
  - by rewrite app_nil_r.
  - rewrite IH, embeddingStep_identity, <- app_assoc. done.
Qed.

Lemma scoreWithEmbeddings_identity candidates query store :
  identity <$> (Engine.scoreWithEmbeddings E candidates query store).1
  ≡ₚ identity <$> candidates.
Proof.
  unfold Engine.scoreWithEmbeddings. destruct (Engine.embed E query) as [q|].
  - destruct (foldl _ _ _) as [scored store'] eqn:Hloop. simpl.
    rewrite byScoreDesc_perm.
    pose proof (embeddingLoop_identity q query candidates ([], store)) as H.
    rewrite Hloop in H. simpl in H. by rewrite H.
  - apply scoreWithTFIDF_identity.
Qed.

Lemma scoreCandidates_identity candidates options store :
  identity <$> (Engine.scoreCandidates E candidates options store).1
  ≡ₚ identity <$> candidates.
Proof.
  unfold Engine.scoreCandidates.
  set (query := Engine.buildQuery _). set (keywords := Engine.extractKeywords _).
  assert (Hbase :
    identity <$> (if Engine.isAvailable E
                  then Engine.scoreWithEmbeddings E candidates query store
                  else (Engine.scoreWithTFIDF E candidates query, store)).1
    ≡ₚ identity <$> candidates).
  { destruct (Engine.isAvailable E);
      [apply scoreWithEmbeddings_identity|apply scoreWithTFIDF_identity]. }
  destruct (if Engine.isAvailable E then _ else _) as [scored store'].
  simpl in *. rewrite byScoreDesc_perm, <- list_fmap_compose, <- Hbase.
  erewrite list_fmap_ext; [done|]. intros i c _. apply identity_keywordAdjust.
Qed.


(** The unfolding of [selectFiles] outside the [off] mode. *)
Lemma selectFiles_scored options store :
  mode options ≠ Off →
  let candidates :=
    Engine.prepareCandidates E (extractCodebase E (smartContextAutoIncludes options))
                             options in
  let scored := (Engine.scoreCandidates E candidates options store).1 in
  let sel :=
    Selector.selectWithinBudget (toFixed E) scored (Engine.budgetOf E options)
                                (mode options) in
  let r := (Engine.selectFiles E options store).1 in
  Result.selectedFiles r
  = (λ c, {| path := path (file c); content := content (file c);
              force := isAutoInclude c |}) <$> sel
  ∧ Result.selectedCount (Result.debug r) = length sel
  ∧ Result.tokenUsage (Result.debug r) = Spec.tokenSum sel
  ∧ Result.tokenBudget (Result.debug r) = Engine.budgetOf E options
  ∧ Result.autoIncludesCount (Result.debug r)
    = length (filter (λ f, isAutoInclude f = true) sel)
  ∧ Result.totalCandidates (Result.debug r) = length candidates
  ∧ Result.scoringMethod (Result.debug r)
    = (if Engine.isAvailable E then "embeddings" else "tf-idf").
Proof.
  intros Hmode. unfold Engine.selectFiles.
  destruct (Engine.scoreCandidates E _ options store) as [scored store'] eqn:Hsc.
  destruct (mode options) eqn:Hm; [done| |]; simpl;
    rewrite foldl_tokens_from; split_and!; (done || lia).
Qed.
End ScoringFacts.

(** ** Auto-includes, budget and cap of a [selectFiles] call *)

Section SelectFacts.
Context (E : Env).

Lemma scored_of_prepared options store c :
  let candidates :=
    Engine.prepareCandidates E (extractCodebase E (smartContextAutoIncludes options))
                             options in
  c ∈ candidates →
  ∃ c', c' ∈ (Engine.scoreCandidates E candidates options store).1
        ∧ identity c' = identity c.
Proof.
  intros candidates Hc.
  assert (H : identity c ∈ identity <$> candidates) by (by apply list_elem_of_fmap_2).
  rewrite <- (scoreCandidates_identity E candidates options store) in H.
  apply list_elem_of_fmap in H as (c' & Heq & Hc'). eauto.
Qed.




(** C1. Every candidate with [isAutoInclude = true] appears in the
    [selectedFiles] of the result of [selectFiles], whatever its score, the
    file cap and the token budget: the result holds a file with its path and
    content (flagged [force] outside the [off] mode, where the scanner's
    files come back untouched). *)
Theorem auto_include_preserved options store c :
  c ∈ Engine.prepareCandidates E
        (extractCodebase E (smartContextAutoIncludes options)) options →
  isAutoInclude c = true →
  ∃ g, g ∈ Result.selectedFiles (Engine.selectFiles E options store).1
       ∧ path g = path (file c) ∧ content g = content (file c)
       ∧ (mode options ≠ Off → force g = true).
Proof.
  intros Hc Hauto.
  destruct (decide (mode options = Off)) as [Hoff|Hon].
  - exists (file c). unfold Engine.selectFiles. rewrite Hoff. simpl.
    split_and!; [|done..].
    unfold Engine.prepareCandidates in Hc.
    apply list_elem_of_fmap in Hc as (f & -> & Hf). done.
  - destruct (scored_of_prepared options store c Hc) as (c' & Hc' & Hid).
    destruct (selectFiles_scored E options store Hon) as (-> & _).
    injection Hid as Hfile Hflag Htok.
    exists {| path := path (file c'); content := content (file c');
              force := isAutoInclude c' |}.
    split_and!; [|by rewrite Hfile..|simpl; congruence].
    apply (list_elem_of_fmap_2
             (λ c, {| path := path (file c); content := content (file c);
                      force := isAutoInclude c |})).
    apply selector_keeps_auto; [done|congruence].
Qed.


(** C3, as the code has it.  Outside the [off] mode every auto-include
    candidate is selected and counts against the cap, and other files are
    only added while fewer than [maxFiles] files are selected: the number of
    selected files is at most the larger of [maxFiles(mode)] (8 for
    conservative, 20 for balanced) and the number of auto-include
    candidates. *)
Theorem mode_cap_with_auto_includes options store :
  mode options ≠ Off →
  let candidates :=
    Engine.prepareCandidates E (extractCodebase E (smartContextAutoIncludes options))
                             options in
  let d := Result.debug (Engine.selectFiles E options store).1 in
  Selector.maxFiles Conservative = 8%nat
  ∧ Selector.maxFiles Balanced = 20%nat
  ∧ Result.autoIncludesCount d = length (Selector.autoIncludes candidates)
  ∧ (Result.selectedCount d
     ≤ Nat.max (Selector.maxFiles (mode options)) (Result.autoIncludesCount d))%nat
  ∧ ((Result.autoIncludesCount d ≤ Selector.maxFiles (mode options))%nat →
     (Result.selectedCount d ≤ Selector.maxFiles (mode options))%nat).
Proof.
  intros Hon candidates d.
  destruct (selectFiles_scored E options store Hon)
    as (_ & Hcount & _ & _ & Hauto & _).
  fold candidates d in Hcount, Hauto.
  set (scored := (Engine.scoreCandidates E candidates options store).1) in *.
  rewrite selector_auto_count in Hauto.
  assert (Hlen : length (Selector.autoIncludes scored)
                 = length (Selector.autoIncludes candidates)).
  { rewrite !length_auto. apply Permutation_length, filter_Permutation.
    apply scoreCandidates_identity. }
  pose proof (selector_cap (toFixed E) scored (Engine.budgetOf E options)
                (mode options)) as Hcap.
  rewrite Hcount, Hauto. split_and!; [done|done|done|lia|lia].
Qed.
End SelectFacts.

(** The statement of C1 on nine forced files in conservative mode. *)
Lemma auto_include_preserved_witness :
  ∃ g, g ∈ Result.selectedFiles
             (Engine.selectFiles (Examples.offline Examples.nineForced)
                (Examples.conservative "fix login bug" (Some 20)) Sample.emptyStore).1
       ∧ path g = "src/i.ts" ∧ content g = "export const value = 1;"
       ∧ (Conservative ≠ Off → force g = true).
Proof.
  apply (auto_include_preserved (Examples.offline Examples.nineForced)
           (Examples.conservative "fix login bug" (Some 20)) Sample.emptyStore
           {| file := Examples.forced "src/i.ts"; score := 0; reasons := [];
              isAutoInclude := true; tokens := 6 |}).
  - vm_compute. repeat constructor.
  - reflexivity.
Defined.

(** C3 as stated fails: nine forced files are all selected in conservative
    mode, whose cap is eight. *)
Lemma mode_cap_counterexample :
  Result.selectedCount
    (Result.debug
       (Engine.selectFiles (Examples.offline Examples.nineForced)
          (Examples.conservative "fix login bug" None) Sample.emptyStore).1)
  = 9%nat
  ∧ Selector.maxFiles Conservative = 8%nat.
Proof. split; vm_compute; reflexivity. Qed.


(** The statement of C3, as the code has it, on nine forced files. *)
Lemma mode_cap_with_auto_includes_witness :
  let d := Result.debug
             (Engine.selectFiles (Examples.offline Examples.nineForced)
                (Examples.conservative "fix login bug" None) Sample.emptyStore).1 in
  Selector.maxFiles Conservative = 8%nat
  ∧ Selector.maxFiles Balanced = 20%nat
  ∧ Result.autoIncludesCount d
    = length (Selector.autoIncludes
                (Engine.prepareCandidates (Examples.offline Examples.nineForced)
                   Examples.nineForced (Examples.conservative "fix login bug" None)))
  ∧ (Result.selectedCount d
     ≤ Nat.max (Selector.maxFiles Conservative) (Result.autoIncludesCount d))%nat
  ∧ ((Result.autoIncludesCount d ≤ Selector.maxFiles Conservative)%nat →
     (Result.selectedCount d ≤ Selector.maxFiles Conservative)%nat).
Proof.
  apply (mode_cap_with_auto_includes (Examples.offline Examples.nineForced)
           (Examples.conservative "fix login bug" None) Sample.emptyStore).
  discriminate.
Defined.

(** ** The threshold *)

(** Numbers other than NaN are comparable. *)
Lemma SFcompare_swap x y : SFcompare y x = CompOpp <$> SFcompare x y.
Proof.
  destruct x as [sx|sx| |sx mx ex], y as [sy|sy| |sy my ey]; simpl;
    try done; try (by destruct sx); try (by destruct sy);
    try (by destruct sx, sy).
  rewrite (Z.compare_antisym ex ey).
  change (PosDef.Pos.compare_cont Eq my mx) with (Pos.compare_cont (CompOpp Eq) my mx).
  rewrite <- (Pos.compare_cont_antisym mx my Eq).
  change (PosDef.Pos.compare_cont Eq mx my) with (Pos.compare_cont Eq mx my).
  by destruct sx, sy, (ex ?= ey), (Pos.compare_cont Eq mx my).
Qed.

Lemma SFcompare_refl x : x ≠ S754_nan → SFcompare x x = Some Eq.
Proof.
  destruct x as [sx|sx| |sx mx ex]; simpl; try done; intros _.
  - by destruct sx.
  - rewrite Z.compare_refl, Pos.compare_cont_refl. by destruct sx.
Qed.

Lemma SFcompare_numbers x y :
  x ≠ S754_nan → y ≠ S754_nan → is_Some (SFcompare x y).
Proof. destruct x, y; simpl; try done; by eexists. Qed.

Lemma is_nan_Prim2SF x : PrimFloat.is_nan x = false ↔ Prim2SF x ≠ S754_nan.
Proof.
  unfold PrimFloat.is_nan. rewrite negb_false_iff, FloatAxioms.eqb_spec.
  unfold SFeqb. split.
  - intros H Hn. by rewrite Hn in H.
  - intros Hn. by rewrite SFcompare_refl.
Qed.

Lemma Math_max_lower a b :
  PrimFloat.is_nan a = false → PrimFloat.is_nan b = false →
  PrimFloat.is_nan (JS.Math_max a b) = false
  ∧ PrimFloat.leb b (JS.Math_max a b) = true.
Proof.
  intros Ha Hb. unfold JS.Math_max. rewrite Ha, Hb. simpl.
  assert (Hbb : PrimFloat.leb b b = true).
  { rewrite FloatAxioms.leb_spec. unfold SFleb.
    by rewrite SFcompare_refl by by apply is_nan_Prim2SF. }
  assert (Hba : PrimFloat.ltb a b = false → PrimFloat.leb b a = true).
  { rewrite FloatAxioms.ltb_spec, FloatAxioms.leb_spec. unfold SFltb, SFleb.
    rewrite (SFcompare_swap (Prim2SF a) (Prim2SF b)).
    destruct (SFcompare_numbers (Prim2SF a) (Prim2SF b)) as [cmp ->];
      [by apply is_nan_Prim2SF..|].
    by destruct cmp. }
  destruct (PrimFloat.ltb a b) eqn:Hab; [done|].
  destruct (PrimFloat.ltb b a); [by split; [|apply Hba]|].
  destruct (PrimFloat.get_sign a); [done|]. split; [done|by apply Hba].
Qed.

Lemma percentileCut_number mode scores :
  Forall (λ s, PrimFloat.is_nan s = false) scores →
  PrimFloat.is_nan (Spec.percentileCut mode scores) = false.
Proof.
  intros H. unfold Spec.percentileCut. destruct scores as [|s0 l]; [done|].
  set (n := Z.to_nat _).
  destruct (nth_in_or_default n (s0 :: l) s0) as [Hin| ->].
  - rewrite Forall_forall in H. apply H. by apply list_elem_of_In.
  - by inversion H.
Qed.

(** C8, as the code has it.  For the candidates that are not auto-includes
    and whose scores are numbers (no NaN), with their scores sorted in
    ascending order (by the comparator [a - b]: no score is directly
    followed by one it exceeds), the threshold is
    [max(percentileCut, 0.15)], where [percentileCut] is the score at index
    [clamp(floor(len * pct), 0, len - 1)] ([0] without scores), [pct] is 0.85
    in conservative mode and 0.70 otherwise, and the product is taken in
    double precision; the threshold is a number and at least 0.15.  A
    candidate below the threshold is never selected.
    The loop pushes the reason ["filtered: below threshold "] followed by
    the threshold with two decimals on every such candidate it visits: all
    of them when it runs to the end, those before the candidate at which it
    breaks (file cap or token budget reached) otherwise. *)
Theorem threshold_filter toFixed candidates budget mode c :
  let remaining := filter (λ d, isAutoInclude d ≠ true) candidates in
  let scores := JS.sort (λ a b, (a - b)%float) (score <$> remaining) in
  let threshold := JS.Math_max (Spec.percentileCut mode scores) 0.15%float in
  let run := Selector.selectRun toFixed candidates budget mode in
  Forall (λ d, PrimFloat.is_nan (score d) = false) remaining →
  c ∈ candidates → isAutoInclude c ≠ true →
  PrimFloat.ltb (score c) threshold = true →
  Selector.minScore mode remaining = threshold
  ∧ scores ≡ₚ (score <$> remaining)
  ∧ Sorted (λ a b, PrimFloat.ltb 0 (a - b) = false) scores
  ∧ PrimFloat.is_nan threshold = false
  ∧ PrimFloat.leb 0.15 threshold = true
  ∧ (c ∉ Selector.selected run)
  ∧ (∃ k, (k ≤ length remaining)%nat
       ∧ Selector.visited run
         = (Spec.mark toFixed threshold <$> take k remaining) ++ drop k remaining
       ∧ (Selector.stopped run = false → k = length remaining)
       ∧ (Selector.stopped run = true →
          ∃ d, remaining !! k = Some d
               ∧ PrimFloat.ltb (score d) threshold = false))
  ∧ (Selector.stopped run = false →
     {| file := file c; score := score c;
        reasons :=
          reasons c ++ ["filtered: below threshold " +:+ toFixed threshold 2%nat];
        isAutoInclude := isAutoInclude c; tokens := tokens c |}
     ∈ Selector.visited run).
Proof.
  intros remaining scores threshold run Hnum Hc Hauto Hlt.
  assert (Hrem : c ∈ remaining) by (by apply list_elem_of_filter).
  assert (Hcut : PrimFloat.is_nan (Spec.percentileCut mode scores) = false).
  { apply percentileCut_number. unfold scores. rewrite sort_perm.
    by apply Forall_fmap. }
  destruct (Math_max_lower (Spec.percentileCut mode scores) 0.15 Hcut eq_refl)
    as [Hnan Hfloor].
  assert (Hth : Selector.minScore mode remaining = threshold)
    by apply minScore_spec.
  change remaining with (Selector.remainingOf candidates) in *.
  destruct (loop_visited toFixed (Selector.maxFiles mode) budget
              (Selector.minScore mode (Selector.remainingOf candidates))
              (Selector.remainingOf candidates)
              {| Selector.selected := Selector.autoIncludes candidates;
                 Selector.usedTokens :=
                   Selector.sumTokens (Selector.autoIncludes candidates);
                 Selector.visited := []; Selector.stopped := false |} eq_refl)
    as (k & Hk & Hvis & Hgo & Hstop).
  change (Selector.selectLoop _ _ _ _ _ _) with run in Hvis, Hgo, Hstop.
  simpl in Hvis. rewrite Hth in Hvis, Hstop.
  split_and!.
  - done.
  - apply sort_perm.
  - apply sortedScores_sorted.
  - done.
  - done.
  - apply selector_excludes; [done|]. by rewrite Hth.
  - exists k. done.
  - intros Hs. rewrite Hvis, (Hgo Hs), take_ge, drop_ge, app_nil_r by lia.
    apply list_elem_of_fmap. exists c. split; [|done].
    unfold Spec.mark. by rewrite Hlt.
Qed.

(** The statement of C8, as the code has it, on the front-end files with a
    budget that lets the loop reach every candidate. *)
Lemma threshold_filter_witness :
  let remaining := filter (λ d, isAutoInclude d ≠ true) Examples.frontEndScored in
  let scores := JS.sort (λ a b, (a - b)%float) (score <$> remaining) in
  let threshold := JS.Math_max (Spec.percentileCut Balanced scores) 0.15%float in
  let run := Selector.selectRun Sample.fixed Examples.frontEndScored 1000 Balanced in
  ∃ c, Examples.frontEndScored !! 2%nat = Some c
  ∧ Selector.minScore Balanced remaining = threshold
  ∧ scores ≡ₚ (score <$> remaining)
  ∧ Sorted (λ a b, PrimFloat.ltb 0 (a - b) = false) scores
  ∧ PrimFloat.is_nan threshold = false
  ∧ PrimFloat.leb 0.15 threshold = true
  ∧ (c ∉ Selector.selected run)
  ∧ (∃ k, (k ≤ length remaining)%nat
       ∧ Selector.visited run
         = (Spec.mark Sample.fixed threshold <$> take k remaining) ++ drop k remaining
       ∧ (Selector.stopped run = false → k = length remaining)
       ∧ (Selector.stopped run = true →
          ∃ d, remaining !! k = Some d
               ∧ PrimFloat.ltb (score d) threshold = false))
  ∧ (Selector.stopped run = false →
     {| file := file c; score := score c;
        reasons :=
          reasons c ++ ["filtered: below threshold " +:+ Sample.fixed threshold 2%nat];
        isAutoInclude := isAutoInclude c; tokens := tokens c |}
     ∈ Selector.visited run).
Proof.
  intros remaining scores threshold run.
  destruct (Examples.frontEndScored !! 2%nat) as [c|] eqn:Hc; [|by vm_compute in Hc].
  exists c. split; [done|].
  apply (threshold_filter Sample.fixed Examples.frontEndScored 1000 Balanced c).
  - vm_compute. repeat constructor.
  - by eapply list_elem_of_lookup_2.
  - vm_compute in Hc. injection Hc as <-. discriminate.
  - vm_compute in Hc. injection Hc as <-. vm_compute. reflexivity.
Defined.

(** C8 as stated fails: with a budget of ten tokens the loop breaks at the
    first candidate (it is above the threshold and needs 36 tokens); the
    third candidate is below the threshold and excluded, and no reason is
    pushed on it. *)
Lemma threshold_reason_counterexample :
  ∃ c, Examples.frontEndScored !! 2%nat = Some c
  ∧ isAutoInclude c = false
  ∧ PrimFloat.ltb (score c)
      (Selector.minScore Balanced (Selector.remainingOf Examples.frontEndScored))
    = true
  ∧ Selector.selected Examples.tightRun = []
  ∧ Selector.visited Examples.tightRun !! 2%nat = Some c
  ∧ reasons c = ["tf-idf score: 0.000"; "penalty: no keyword hint"].
Proof.
  destruct (Examples.frontEndScored !! 2%nat) as [c|] eqn:Hc; [|by vm_compute in Hc].
  exists c. vm_compute in Hc. injection Hc as <-.
  split_and!; vm_compute; reflexivity.
Qed.

(** ** The [off] mode *)

Lemma foldl_estimate (E : Env) (files : list CodebaseFile) (z : Z) :
  foldl (λ sum f, sum + estimateTokens E (content f)) z files
  = z + Spec.tokensOf E files.
Proof.
  revert z. induction files as [|f files IH]; intros z; simpl; [lia|].
  rewrite IH. lia.
Qed.

(** C9. In the [off] mode [selectFiles] returns the scanner's files as they
    come, without scoring (the prompt, the embedder and the cache play no
    part): [selectedCount] is their number, [tokenUsage] and [tokenBudget]
    are both the sum of their token estimates, [scoringMethod] is
    ["traditional"], [topScores] is empty and [excludedCount] is 0. *)
Theorem off_mode_pass_through (E : Env) autoIncludes prompt budget store :
  let options :=
    {| smartContextAutoIncludes := autoIncludes; promptContext := prompt;
       mode := Off; tokenBudget := budget |} in
  let files := extractCodebase E autoIncludes in
  let r := (Engine.selectFiles E options store).1 in
  Result.selectedFiles r = files
  ∧ Result.selectedCount (Result.debug r) = length files
  ∧ Result.totalCandidates (Result.debug r) = length files
  ∧ Result.tokenUsage (Result.debug r) = Spec.tokensOf E files
  ∧ Result.tokenBudget (Result.debug r) = Spec.tokensOf E files
  ∧ Result.scoringMethod (Result.debug r) = "traditional"
  ∧ Result.topScores (Result.debug r) = []
  ∧ Result.excludedCount (Result.debug r) = 0
  ∧ (Engine.selectFiles E options store).2 = store.
Proof.
  intros options files r. unfold r, Engine.selectFiles. simpl.
  rewrite foldl_estimate. split_and!; (done || lia).
Qed.

(** ** Embedding failures *)

Section EmbeddingFacts.
Context (E : Env).

Lemma embed_call call text : provider E = Some call → Engine.embed E text = call text.
Proof. unfold Engine.embed. by intros ->. Qed.

Lemma isAvailable_call call : provider E = Some call → Engine.isAvailable E = true.
Proof. unfold Engine.isAvailable. by intros ->. Qed.

Lemma embeddingLoop_prefix q query l st :
  ∃ more, (foldl (Engine.embeddingStep E q query) st l).1 = st.1 ++ more.
Proof.
  revert st. induction l as [|c l IH]; intros st; simpl.
  - exists []. by rewrite app_nil_r.
  - destruct (IH (Engine.embeddingStep E q query st c)) as [more ->].
    unfold Engine.embeddingStep.
    repeat case_match; simpl; rewrite <- app_assoc; eauto.
Qed.

(** A failed document embedding leaves the candidate as it is. *)
Lemma embeddingStep_failure q query done store c :
  Engine.cacheMiss E store c →
  Engine.embed E (content (file c)) = None →
  Engine.embeddingStep E q query (done, store) c
  = (done ++ [c], Engine.afterLookup E store c).
Proof.
  unfold Engine.cacheMiss, Engine.afterLookup, Engine.embeddingStep.
  intros Hmiss Hfail. simpl.
  destruct (stat_mtimeMs E (path (file c))) as [m|].
  - destruct (Cache.get E store _ _ m) as [cached store1]. simpl in *.
    subst cached. by rewrite Hfail.
  - by rewrite Hfail.
Qed.

(** C4.  When the provider is configured and the query embedding fails, the
    candidates are scored by TF-IDF and the result still reports
    ["embeddings"]. *)
Theorem scoring_method_after_fallback options store call :
  mode options ≠ Off →
  provider E = Some call →
  call (Engine.buildQuery (promptContext options)) = None →
  let candidates :=
    Engine.prepareCandidates E (extractCodebase E (smartContextAutoIncludes options))
                             options in
  let query := Engine.buildQuery (promptContext options) in
  Engine.scoreCandidates E candidates options store
  = (Engine.byScoreDesc
       (Engine.keywordAdjust E (Engine.extractKeywords query)
          <$> Engine.scoreWithTFIDF E candidates query),
     store)
  ∧ Result.scoringMethod (Result.debug (Engine.selectFiles E options store).1)
    = "embeddings".
Proof.
  intros Hon Hcall Hfail candidates query. split.
  - unfold Engine.scoreCandidates, Engine.scoreWithEmbeddings.
    rewrite (isAvailable_call call Hcall), (embed_call call _ Hcall).
    by rewrite Hfail.
  - destruct (selectFiles_scored E options store Hon) as (_ & _ & _ & _ & _ & _ & ->).
    by rewrite (isAvailable_call call Hcall).
Qed.

(** C5, as the code has it.  When the query embedding succeeded, the cache
    has nothing for a candidate and the embedding of its content fails, the
    loop leaves the candidate as it was prepared (no embedding score, no
    path, extension, recency or auto-include adjustment) and goes on with
    the candidates after it; the candidate then receives the keyword
    adjustments, and only those. *)
Theorem embedding_failure_keeps_keywords_only options store call q before c after :
  let query := Engine.buildQuery (promptContext options) in
  let step := Engine.embeddingStep E q query in
  provider E = Some call →
  call query = Some q →
  Engine.cacheMiss E (foldl step ([], store) before).2 c →
  call (content (file c)) = None →
  foldl step ([], store) (before ++ c :: after)
  = foldl step
      ((foldl step ([], store) before).1 ++ [c],
       Engine.afterLookup E (foldl step ([], store) before).2 c)
      after
  ∧ Engine.keywordAdjust E (Engine.extractKeywords query) c
    ∈ (Engine.scoreCandidates E (before ++ c :: after) options store).1.
Proof.
  intros query step Hcall Hq Hmiss Hfail.
  assert (Hstep : foldl step ([], store) (before ++ c :: after)
                  = foldl step
                      ((foldl step ([], store) before).1 ++ [c],
                       Engine.afterLookup E (foldl step ([], store) before).2 c)
                      after).
  { rewrite foldl_app. simpl. f_equal.
    destruct (foldl step ([], store) before) as [done1 store1]. simpl in *.
    apply embeddingStep_failure; [done|].
    by rewrite (embed_call call _ Hcall). }
  split; [done|].
  unfold Engine.scoreCandidates, Engine.scoreWithEmbeddings.
  rewrite (isAvailable_call call Hcall), (embed_call call _ Hcall).
  fold query. rewrite Hq. fold step. rewrite Hstep.
  destruct (embeddingLoop_prefix q query after
              ((foldl step ([], store) before).1 ++ [c],
               Engine.afterLookup E (foldl step ([], store) before).2 c))
    as [more Hmore].
  fold step in Hmore.
  destruct (foldl step (_ ++ [c], _) after) as [scored store'] eqn:Hloop.
  simpl in *. subst scored.
  apply sort_elem_of, list_elem_of_fmap_2, sort_elem_of.
  rewrite !elem_of_app, list_elem_of_singleton. auto.
Qed.
End EmbeddingFacts.

(** The statement of C4 with an embedder that fails on every text. *)
Lemma scoring_method_after_fallback_witness :
  Engine.scoreCandidates (Examples.failing Examples.mixed)
    (Engine.prepareCandidates (Examples.failing Examples.mixed) Examples.mixed
       (Examples.balanced "fix login bug" None))
    (Examples.balanced "fix login bug" None) Sample.emptyStore
  = (Engine.byScoreDesc
       (Engine.keywordAdjust (Examples.failing Examples.mixed)
          (Engine.extractKeywords "fix login bug")
          <$> Engine.scoreWithTFIDF (Examples.failing Examples.mixed)
                (Engine.prepareCandidates (Examples.failing Examples.mixed)
                   Examples.mixed (Examples.balanced "fix login bug" None))
                "fix login bug"),
     Sample.emptyStore)
  ∧ Result.scoringMethod
      (Result.debug
         (Engine.selectFiles (Examples.failing Examples.mixed)
            (Examples.balanced "fix login bug" None) Sample.emptyStore).1)
    = "embeddings".
Proof.
  apply (scoring_method_after_fallback (Examples.failing Examples.mixed)
           (Examples.balanced "fix login bug" None) Sample.emptyStore (λ _, None)).
  - discriminate.
  - reflexivity.
  - reflexivity.
Defined.

(** On that input the result says ["embeddings"] while the reasons of the
    first selected file show the TF-IDF scorer. *)
Lemma fallback_reports_embeddings :
  let d := Result.debug
             (Engine.selectFiles (Examples.failing Examples.mixed)
                (Examples.balanced "fix login bug" None) Sample.emptyStore).1 in
  Result.scoringMethod d = "embeddings"
  ∧ Result.reason <$> head (Result.topScores d)
    = Some "tf-idf score: 0.000, auto-include, penalty: no keyword hint".
Proof. split; vm_compute; reflexivity. Qed.

(** The statement of C5, as the code has it, on the forced file whose
    embedding fails (it comes first, the cache is empty). *)
Lemma embedding_failure_keeps_keywords_only_witness :
  let E := Examples.online Examples.mixed in
  let options := Examples.balanced "fix login bug" None in
  let step := Engine.embeddingStep E [1; 0]%float "fix login bug" in
  let c := {| file := Examples.forced "config/secrets.env"; score := 0;
              reasons := []; isAutoInclude := true; tokens := 6 |} in
  let after := tail (Engine.prepareCandidates E Examples.mixed options) in
  foldl step ([], Sample.emptyStore) ([] ++ c :: after)
  = foldl step
      ((foldl step ([], Sample.emptyStore) []).1 ++ [c],
       Engine.afterLookup E (foldl step ([], Sample.emptyStore) []).2 c)
      after
  ∧ Engine.keywordAdjust E (Engine.extractKeywords "fix login bug") c
    ∈ (Engine.scoreCandidates E ([] ++ c :: after) options Sample.emptyStore).1.
Proof.
  intros E options step c after.
  apply (embedding_failure_keeps_keywords_only E options Sample.emptyStore
           Examples.embedder [1; 0]%float [] c after).
  - reflexivity.
  - reflexivity.
  - exact I.
  - reflexivity.
Defined.

(** C5 as stated fails: the forced file whose embedding fails ends with the
    keyword penalty alone; the auto-include boost that
    [addHeuristicScores] gives to the same candidate is missing. *)
Lemma embedding_failure_counterexample :
  ∃ c, Examples.onlineScored !! 3%nat = Some c
  ∧ path (file c) = "config/secrets.env"
  ∧ isAutoInclude c = true
  ∧ score c = (-0.5)%float
  ∧ reasons c = ["penalty: no keyword hint"]
  ∧ reasons
      (Engine.addHeuristicScores (Examples.online Examples.mixed)
         {| file := Examples.forced "config/secrets.env"; score := 0;
            reasons := []; isAutoInclude := true; tokens := 6 |} "fix login bug")
    = ["auto-include"].
Proof.
  destruct (Examples.onlineScored !! 3%nat) as [c|] eqn:Hc; [|by vm_compute in Hc].
  exists c. vm_compute in Hc. injection Hc as <-.
  split_and!; vm_compute; reflexivity.
Qed.

(** ** TF-IDF *)

Section TFIDFFacts.
Context (E : Env).

#[local] Abbreviation asDocument := Spec.asDocument.

Lemma vocabulary_fold (tokens : list string) (voc : gset string) t :
  t ∈ foldl (λ voc token, {[token]} ∪ voc) voc tokens ↔ t ∈ voc ∨ t ∈ tokens.
Proof.
  revert voc. induction tokens as [|x tokens IH]; intros voc; simpl.
  - rewrite elem_of_nil. tauto.
  - rewrite IH, elem_of_union, elem_of_singleton, elem_of_cons. tauto.
Qed.

Lemma addFile_fold files docs voc :
  ∃ voc',
    foldl TFIDF.addFile (docs, voc) files = (docs ++ (asDocument <$> files), voc')
    ∧ ∀ t, t ∈ voc' ↔ t ∈ voc ∨ Exists (λ f, t ∈ TFIDF.tokenize (content f)) files.
Proof.
  revert docs voc. induction files as [|f files IH]; intros docs voc; simpl.
  - exists voc. rewrite app_nil_r. split; [done|]. intros t. rewrite Exists_nil. tauto.
  - destruct (IH (docs ++ [asDocument f])
                 (foldl (λ voc token, {[token]} ∪ voc) voc
                    (TFIDF.tokenize (content f)))) as (voc' & Heq & Hvoc).
    exists voc'. unfold TFIDF.addFile at 2. simpl. fold (Spec.asDocument f).
    rewrite Heq, <- app_assoc. split; [done|].
    intros t. rewrite Hvoc, vocabulary_fold, Exists_cons. tauto.
Qed.

Lemma new_documents files :
  TFIDF.documents (TFIDF.new E files) = asDocument <$> files.
Proof.
  unfold TFIDF.new.
  destruct (addFile_fold files [] ∅) as (voc' & -> & _). done.
Qed.

Lemma new_vocabulary files t :
  t ∈ TFIDF.vocabulary (TFIDF.new E files)
  ↔ Exists (λ f, t ∈ TFIDF.tokenize (content f)) files.
Proof.
  unfold TFIDF.new.
  destruct (addFile_fold files [] ∅) as (voc' & -> & Hvoc). simpl.
  rewrite Hvoc, elem_of_empty. tauto.
Qed.

Lemma docsWithTerm_df files t :
  TFIDF.docsWithTerm (asDocument <$> files) t = Spec.df files t.
Proof.
  unfold TFIDF.docsWithTerm, Spec.df.
  induction files as [|f files IH]; [done|].
  rewrite fmap_cons, !filter_cons. simpl.
  destruct (decide (t ∈ TFIDF.tokenize (content f))); simpl; lia.
Qed.

Lemma new_idfCache files t :
  TFIDF.getOr0 (TFIDF.idfCache (TFIDF.new E files)) t = Spec.idf E files t.
Proof.
  unfold TFIDF.getOr0, Spec.idf.
  pose proof (new_vocabulary files t) as Hvoc.
  unfold TFIDF.new in *.
  destruct (addFile_fold files [] ∅) as (voc' & Heq & _).
  rewrite Heq in *. simpl in *. unfold TFIDF.computeIDF.
  destruct (set_to_map _ voc' !! t) as [x|] eqn:Hx.
  - apply lookup_set_to_map in Hx as (y & Hy & Hf); [|by intros ???? [=]].
    injection Hf as -> <-.
    rewrite bool_decide_eq_true_2 by (by apply Hvoc).
    unfold TFIDF.idfOf. by rewrite docsWithTerm_df, length_fmap.
  - rewrite bool_decide_eq_false_2; [done|].
    intros Hin%Hvoc.
    assert (Hs : (set_to_map (λ term, (term, TFIDF.idfOf E (asDocument <$> files) term))
                    voc' : gmap string float) !! t
                 = Some (TFIDF.idfOf E (asDocument <$> files) t)).
    { apply lookup_set_to_map; [by intros ???? [=]|]. eauto. }
    congruence.
Qed.

Lemma countTokens_from (tokens : list string) (m : gmap string Z) t :
  foldl (λ tf token, <[token := default 0 (tf !! token) + 1]> tf) m tokens !! t
  = if decide (t ∈ tokens)
    then Some (default 0 (m !! t) + Z.of_nat (Spec.occurrences t tokens))
    else m !! t.
Proof.
  revert m. induction tokens as [|x tokens IH]; intros m; simpl.
  - destruct (decide (t ∈ [])) as [H|_]; [by apply elem_of_nil in H|done].
  - rewrite IH. unfold Spec.occurrences. rewrite filter_cons.
    destruct (decide (x = t)) as [->|Hne].
    + rewrite lookup_insert_eq. simpl.
      rewrite (decide_True (P := t ∈ t :: tokens)) by apply list_elem_of_here.
      destruct (decide (t ∈ tokens)) as [Hin|Hnin]; f_equal; [lia|].
      rewrite filter_none; [simpl; lia|].
      rewrite Forall_forall. intros y Hy ->. done.
    + rewrite lookup_insert_ne by done.
      destruct (decide (t ∈ tokens)) as [Hin|Hnin].
      * rewrite (decide_True (P := t ∈ x :: tokens)) by (by apply list_elem_of_further).
        done.
      * rewrite (decide_False (P := t ∈ x :: tokens)); [done|].
        rewrite elem_of_cons. intros [Heq|Hin]; [by symmetry in Heq|done].
Qed.

Lemma computeTF_tf tokens t :
  TFIDF.getOr0 (TFIDF.computeTF tokens) t = Spec.tf tokens t.
Proof.
  unfold TFIDF.getOr0, TFIDF.computeTF, TFIDF.countTokens, Spec.tf.
  rewrite lookup_fmap, countTokens_from, lookup_empty.
  destruct (decide (t ∈ tokens)).
  - rewrite bool_decide_eq_true_2 by done. simpl. by rewrite Z.add_0_l.
  - by rewrite bool_decide_eq_false_2.
Qed.

Lemma find_document files p :
  List.find (λ d, bool_decide (TFIDF.doc_path d = p)) (asDocument <$> files)
  = asDocument <$> Spec.firstWithPath files p.
Proof.
  unfold Spec.firstWithPath.
  induction files as [|f files IH]; [done|]. simpl.
  destruct (bool_decide (path f = p)); [done|apply IH].
Qed.

Lemma foldl_agree {A B} (f g : A → B → A) (l : list B) (a : A) :
  (∀ a x, f a x = g a x) → foldl f a l = foldl g a l.
Proof.
  intros H. revert a. induction l as [|x l IH]; intros a; simpl; [done|].
  by rewrite H, IH.
Qed.

(** C6, as the code has it.  The TF-IDF score of a document is the sum of
    [tf(doc, t) * idf(t)] over all the tokens of the tokenized query, a
    repeated token counting once per occurrence; [tf] is the raw count over
    the length of the document, [idf(t) = ln(N / (1 + df(t)))], and terms
    missing from the document or from the vocabulary contribute zero. *)
Theorem tfidf_sums_every_query_token files p query :
  TFIDF.scoreDocument (TFIDF.new E files) p query
  = Spec.scoreAllTokens E files p query.
Proof.
  unfold TFIDF.scoreDocument, Spec.scoreAllTokens.
  rewrite new_documents, find_document.
  destruct (Spec.firstWithPath files p) as [doc|]; [|done]. simpl.
  unfold Spec.tfidfSum. apply foldl_agree. intros acc t.
  by rewrite computeTF_tf, new_idfCache.
Qed.
End TFIDFFacts.

(** C6 as stated fails: for the query ["refactor parser parser"] the code
    counts the term [parser] twice, the sum over distinct tokens counts it
    once. *)
Lemma tfidf_distinct_counterexample :
  TFIDF.scoreDocument (TFIDF.new (Examples.offline Examples.corpus) Examples.corpus)
    "src/parser.ts" "refactor parser parser"
  = (0.5 * Sample.ln 1.5 + 0.5 * Sample.ln 1.5)%float
  ∧ Spec.scoreDistinctTokens (Examples.offline Examples.corpus) Examples.corpus
      "src/parser.ts" "refactor parser parser"
    = (0.5 * Sample.ln 1.5)%float
  ∧ PrimFloat.ltb
      (Spec.scoreDistinctTokens (Examples.offline Examples.corpus) Examples.corpus
         "src/parser.ts" "refactor parser parser")
      (TFIDF.scoreDocument (TFIDF.new (Examples.offline Examples.corpus) Examples.corpus)
         "src/parser.ts" "refactor parser parser")
    = true.
Proof. split_and!; vm_compute; reflexivity. Qed.

(** ** The embedding cache *)

Section CacheFacts.
Context (E : Env).

Lemma well_keyed_empty w : Cache.well_keyed {| Cache.files := ∅; Cache.writable := w |}.
Proof. intros key cached. simpl. by rewrite lookup_empty. Qed.

Lemma well_keyed_unlink st key : Cache.well_keyed st → Cache.well_keyed (Cache.unlink st key).
Proof.
  unfold Cache.well_keyed, Cache.unlink. intros Hst k cached.
  destruct (Cache.writable st); simpl; [|apply Hst].
  rewrite lookup_delete. destruct (decide (key = k)); [done|apply Hst].
Qed.

Lemma well_keyed_set st p c m v :
  Cache.well_keyed st → Cache.well_keyed (Cache.set E st p c m v).
Proof.
  unfold Cache.well_keyed, Cache.set, Cache.writeFile. intros Hst k cached.
  destruct (Cache.writable st); simpl; [|apply Hst].
  rewrite lookup_insert. destruct (decide (Cache.getCacheKey E p c = k)) as [<-|].
  - by intros [= <-].
  - apply Hst.
Qed.

Lemma well_keyed_get st p c m :
  Cache.well_keyed st → Cache.well_keyed (Cache.get E st p c m).2.
Proof.
  unfold Cache.get. intros Hst.
  destruct (Cache.files st !! Cache.getCacheKey E p c) as [[cached|]|]; simpl; try done.
  destruct (Cache.mtime cached =? m); simpl; [done|by apply well_keyed_unlink].
Qed.

(** A file that does not parse is a miss and stays where it is. *)
Lemma get_unparsable st p c m :
  Cache.files st !! Cache.getCacheKey E p c = Some Cache.Unparsable →
  Cache.get E st p c m = (None, st).
Proof. unfold Cache.get. by intros ->. Qed.

(** The scoring loop keeps the cache well keyed. *)
Lemma well_keyed_embeddingStep q query st c :
  Cache.well_keyed st.2 → Cache.well_keyed (Engine.embeddingStep E q query st c).2.
Proof.
  unfold Engine.embeddingStep. intros Hst.
  destruct (stat_mtimeMs E (path (file c))) as [m|].
  - pose proof (well_keyed_get st.2 (path (file c)) (content (file c)) m Hst) as Hget.
    destruct (Cache.get E st.2 _ _ m) as [[e|] store1]; simpl in *; [done|].
    destruct (Engine.embed E (content (file c))); simpl; [|done].
    by apply well_keyed_set.
  - destruct (Engine.embed E (content (file c))); simpl; done.
Qed.

Lemma well_keyed_scoreCandidates candidates options store :
  Cache.well_keyed store →
  Cache.well_keyed (Engine.scoreCandidates E candidates options store).2.
Proof.
  intros Hst. unfold Engine.scoreCandidates, Engine.scoreWithEmbeddings.
  destruct (Engine.isAvailable E); [|done].
  destruct (Engine.embed E _) as [q|]; [|done].
  set (query := Engine.buildQuery _).
  assert (H : ∀ l st, Cache.well_keyed st.2 →
                Cache.well_keyed (foldl (Engine.embeddingStep E q query) st l).2).
  { induction l as [|c l IH]; intros st Hs; [done|]. simpl.
    by apply IH, well_keyed_embeddingStep. }
  specialize (H candidates ([], store) Hst).
  by destruct (foldl _ _ candidates).
Qed.

(** C7, as the code has it.  The cache file of a path [p] and a content
    [c] is the one named by the SHA-256 of [p] followed by [c].  When the
    directory takes writes, [set(p, c, m, v)] writes under that name the
    vector [v], the name as [hash] and [m], after which [get(p, c, m)]
    returns [v] and leaves the directory alone, and [get(p, c, m')] with
    another mtime returns a miss and deletes the entry.  On any directory,
    [get(p, c, m)] returns a vector exactly when the file of that name
    parses and its stored mtime is [m]; the stored [hash] is not looked at.
    A file of that name with another mtime is a miss and is deleted by the
    read (it stays when the deletion fails); a missing or unparsable file
    is a miss that leaves the directory alone. *)
Theorem cache_round_trip_and_freshness st p c m m' v v' :
  m' ≠ m →
  let key := sha256_hex E (p +:+ c) in
  let written := Cache.set E st p c m v in
  (Cache.writable st = true →
   written
   = {| Cache.files :=
          <[key := Cache.Json {| Cache.embedding := v; Cache.hash := key;
                                 Cache.mtime := m |}]> (Cache.files st);
        Cache.writable := true |}
   ∧ Cache.get E written p c m = (Some v, written)
   ∧ Cache.get E written p c m'
     = (None, {| Cache.files := delete key (Cache.files st);
                 Cache.writable := true |}))
  ∧ ((Cache.get E st p c m).1 = Some v'
     ↔ ∃ cached,
         Cache.files st !! key = Some (Cache.Json cached)
         ∧ Cache.mtime cached = m
         ∧ Cache.embedding cached = v')
  ∧ (∀ cached,
       Cache.files st !! key = Some (Cache.Json cached) →
       Cache.mtime cached = m →
       Cache.get E st p c m = (Some (Cache.embedding cached), st))
  ∧ (∀ cached,
       Cache.files st !! key = Some (Cache.Json cached) →
       Cache.mtime cached ≠ m →
       Cache.get E st p c m
       = (None,
          if Cache.writable st
          then {| Cache.files := delete key (Cache.files st);
                  Cache.writable := true |}
          else st))
  ∧ (Cache.files st !! key = None ∨ Cache.files st !! key = Some Cache.Unparsable →
     Cache.get E st p c m = (None, st)).
Proof.
  intros Hne key written.
  assert (Hfresh : ∀ st0 cached,
             Cache.files st0 !! key = Some (Cache.Json cached) →
             Cache.mtime cached = m →
             Cache.get E st0 p c m = (Some (Cache.embedding cached), st0)).
  { intros st0 cached Hk Hm. unfold Cache.get, Cache.getCacheKey. fold key.
    rewrite Hk. simpl. by rewrite Hm, Z.eqb_refl. }
  assert (Hstale : ∀ st0 cached m0,
             Cache.files st0 !! key = Some (Cache.Json cached) →
             Cache.mtime cached ≠ m0 →
             Cache.get E st0 p c m0
             = (None,
                if Cache.writable st0
                then {| Cache.files := delete key (Cache.files st0);
                        Cache.writable := true |}
                else st0)).
  { intros st0 cached m0 Hk Hm. unfold Cache.get, Cache.getCacheKey. fold key.
    rewrite Hk. simpl. destruct (Cache.mtime cached =? m0) eqn:Heq; [lia|].
    done. }
  split_and!.
  - intros Hw.
    assert (Hset : written
                   = {| Cache.files :=
                          <[key := Cache.Json {| Cache.embedding := v;
                                                 Cache.hash := key;
                                                 Cache.mtime := m |}]>
                            (Cache.files st);
                        Cache.writable := true |}).
    { unfold written, Cache.set, Cache.writeFile, Cache.getCacheKey.
      by rewrite Hw. }
    split_and!; [done| |].
    + rewrite (Hfresh written {| Cache.embedding := v; Cache.hash := key;
                                 Cache.mtime := m |}); [done| |done].
      rewrite Hset. simpl. apply lookup_insert_eq.
    + rewrite (Hstale written {| Cache.embedding := v; Cache.hash := key;
                                 Cache.mtime := m |} m'); [| |done].
      * rewrite Hset. simpl. by rewrite delete_insert_eq.
      * rewrite Hset. simpl. apply lookup_insert_eq.
  - unfold Cache.get, Cache.getCacheKey. fold key. cbv zeta. split.
    + destruct (Cache.files st !! key) as [[cached|]|] eqn:Hk; simpl; try done.
      destruct (Cache.mtime cached =? m) eqn:Heq; simpl; [|done].
      intros [= <-]. exists cached. split_and!; [done|lia|done].
    + intros (cached & Hk & Hm & Hv). rewrite Hk. simpl.
      rewrite Hm, Z.eqb_refl. simpl. by rewrite Hv.
  - intros cached Hk Hm. by apply Hfresh.
  - intros cached Hk Hm. by apply (Hstale st cached m).
  - unfold Cache.get, Cache.getCacheKey. fold key. by intros [-> | ->].
Qed.
End CacheFacts.

(** The statement of C7, as the code has it, on a writable cache directory
    that holds the entry of the file. *)
Lemma cache_round_trip_and_freshness_witness :
  let E := Examples.offline [] in
  let v := [1; 0]%float in
  let st := Cache.set E Sample.emptyStore "src/a.ts" "let a" 1000 v in
  let key := sha256_hex E ("src/a.ts" +:+ "let a") in
  let written := Cache.set E st "src/a.ts" "let a" 1000 v in
  (Cache.writable st = true →
   written
   = {| Cache.files :=
          <[key := Cache.Json {| Cache.embedding := v; Cache.hash := key;
                                 Cache.mtime := 1000 |}]> (Cache.files st);
        Cache.writable := true |}
   ∧ Cache.get E written "src/a.ts" "let a" 1000 = (Some v, written)
   ∧ Cache.get E written "src/a.ts" "let a" 2000
     = (None, {| Cache.files := delete key (Cache.files st);
                 Cache.writable := true |}))
  ∧ ((Cache.get E st "src/a.ts" "let a" 1000).1 = Some v
     ↔ ∃ cached,
         Cache.files st !! key = Some (Cache.Json cached)
         ∧ Cache.mtime cached = 1000
         ∧ Cache.embedding cached = v)
  ∧ (∀ cached,
       Cache.files st !! key = Some (Cache.Json cached) →
       Cache.mtime cached = 1000 →
       Cache.get E st "src/a.ts" "let a" 1000 = (Some (Cache.embedding cached), st))
  ∧ (∀ cached,
       Cache.files st !! key = Some (Cache.Json cached) →
       Cache.mtime cached ≠ 1000 →
       Cache.get E st "src/a.ts" "let a" 1000
       = (None,
          if Cache.writable st
          then {| Cache.files := delete key (Cache.files st);
                  Cache.writable := true |}
          else st))
  ∧ (Cache.files st !! key = None ∨ Cache.files st !! key = Some Cache.Unparsable →
     Cache.get E st "src/a.ts" "let a" 1000 = (None, st)).
Proof.
  intros E v st.
  apply (cache_round_trip_and_freshness E st "src/a.ts" "let a" 1000 2000 v v).
  discriminate.
Defined.

(** C7 as stated fails: a file of the right name and mtime whose [hash]
    member is not the SHA-256 of the path and the content is returned all
    the same, since [get] never reads that member. *)
Lemma cache_hash_counterexample :
  let E := Examples.offline [] in
  let key := sha256_hex E ("src/a.ts" +:+ "let a") in
  let st :=
    {| Cache.files :=
         {[ key := Cache.Json {| Cache.embedding := [5]%float;
                                 Cache.hash := "bogus";
                                 Cache.mtime := 1000 |} ]};
       Cache.writable := true |} in
  (Cache.get E st "src/a.ts" "let a" 1000).1 = Some [5]%float
  ∧ ¬ (∃ k cached,
         Cache.files st !! k = Some (Cache.Json cached)
         ∧ Cache.mtime cached = 1000
         ∧ Cache.hash cached = key
         ∧ Cache.embedding cached = [5]%float).
Proof.
  intros E key st. split.
  - vm_compute. reflexivity.
  - intros (k & cached & Hk & _ & Hh & _). simpl in Hk.
    apply lookup_singleton_Some in Hk as [_ Hc]. injection Hc as <-.
    discriminate Hh.
Qed.

(** ** The keyword extractor *)

Lemma upper_lower_char c : Str.is_upper (Str.lower_char c) = false.
Proof. destruct c as [[] [] [] [] [] [] [] []]; reflexivity. Qed.

Lemma alnum_lower_char c :
  Str.is_alnum (Str.lower_char c) = true →
  Str.is_lower (Str.lower_char c) || Str.is_digit (Str.lower_char c) = true.
Proof. unfold Str.is_alnum. by rewrite upper_lower_char. Qed.

Lemma chars_of_chars l : Str.chars (Str.of_chars l) = l.
Proof. apply list_ascii_of_string_of_list_ascii. Qed.

Lemma length_of_chars l : String.length (Str.of_chars l) = length l.
Proof. induction l as [|c l IH]; simpl; [done|]. by rewrite IH. Qed.

Section TokenFacts.
Context (Q : ascii → Prop).

Lemma replace_runs_chars cls in_run l :
  Forall (λ ch, cls ch = true ∨ Q ch) l →
  Forall (λ ch, Str.is_space ch = true ∨ Q ch) (Str.replace_runs_from cls in_run l).
Proof.
  intros H. revert in_run. induction H as [|c l Hc _ IH]; intros in_run; simpl.
  - constructor.
  - destruct (cls c) eqn:Hcls.
    + destruct in_run; [apply IH|]. constructor; [by left|apply IH].
    + constructor; [|apply IH]. destruct Hc as [Hc|Hc]; [congruence|by right].
Qed.

Lemma split_pieces cur in_sep l :
  Forall Q cur →
  Forall (λ ch, Str.is_space ch = true ∨ Q ch) l →
  Forall (Forall Q) (Str.split_from cur in_sep l).
Proof.
  intros Hcur H. revert cur in_sep Hcur.
  induction H as [|c l Hc _ IH]; intros cur in_sep Hcur; simpl.
  - by constructor.
  - destruct (Str.is_space c) eqn:Hsp.
    + destruct in_sep; [by apply IH|]. constructor; [done|by apply IH].
    + apply IH. apply Forall_app. split; [done|].
      constructor; [|constructor]. destruct Hc as [Hc|Hc]; [congruence|done].
Qed.
End TokenFacts.

Lemma rawKeywords_tokens text :
  Forall (λ t, (3 ≤ String.length t ≤ 40)%nat ∧ Spec.lowercase t)
         (Engine.rawKeywords text).
Proof.
  unfold Engine.rawKeywords. rewrite Forall_forall. intros t Ht.
  apply list_elem_of_filter in Ht as [Hlen Ht]. split; [done|].
  unfold Str.split_ws in Ht. apply list_elem_of_fmap in Ht as (piece & -> & Hp).
  unfold Spec.lowercase. rewrite chars_of_chars.
  clear Hlen. revert piece Hp. apply Forall_forall.
  apply split_pieces; [constructor|].
  unfold Str.replace_runs. rewrite chars_of_chars.
  apply replace_runs_chars.
  unfold Str.toLowerCase. rewrite chars_of_chars.
  apply Forall_fmap, Forall_forall. intros c _. simpl.
  destruct (Str.is_alnum (Str.lower_char c)) eqn:Ha; [right|by left].
  by apply alnum_lower_char.
Qed.

Lemma firstOccurrences_filter (P : string → Prop) `{∀ x, Decision (P x)} l :
  filter P (Spec.firstOccurrences l) = Spec.firstOccurrences (filter P l).
Proof.
  induction l as [|x l IH]; [done|]. simpl.
  rewrite !filter_cons. destruct (decide (P x)) as [Hx|Hx]; simpl.
  - f_equal. rewrite <- IH, !list_filter_filter.
    apply list_filter_iff. tauto.
  - rewrite <- IH, list_filter_filter. apply list_filter_iff.
    intros y. split; [tauto|]. intros Hy. split; [done|]. by intros ->.
Qed.

Lemma elem_of_firstOccurrences x l : x ∈ Spec.firstOccurrences l ↔ x ∈ l.
Proof.
  induction l as [|y l IH]; [done|]. simpl.
  rewrite !elem_of_cons, list_elem_of_filter, IH.
  destruct (decide (x = y)); tauto.
Qed.

Lemma NoDup_firstOccurrences l : NoDup (Spec.firstOccurrences l).
Proof.
  induction l as [|x l IH]; simpl; constructor.
  - rewrite list_elem_of_filter. tauto.
  - by apply NoDup_filter.
Qed.

(** The loop of the extractor, started with [out]. *)
Lemma collect_from raw out :
  foldl (λ out t,
           if negb (Str.mem t Engine.keywordStop) && negb (Str.mem t out)
           then out ++ [t] else out) out raw
  = out ++ Spec.firstOccurrences
             (filter (λ t, (t ∉ Engine.keywordStop) ∧ (t ∉ out)) raw).
Proof.
  revert out. induction raw as [|t raw IH]; intros out; simpl.
  - by rewrite app_nil_r.
  - rewrite IH, filter_cons. unfold Str.mem.
    destruct (decide ((t ∉ Engine.keywordStop) ∧ (t ∉ out))) as [[Hs Ho]|Hn].
    + rewrite !bool_decide_eq_false_2 by done. simpl.
      rewrite <- app_assoc. simpl. do 2 f_equal.
      rewrite firstOccurrences_filter, list_filter_filter. f_equal.
      apply list_filter_iff. intros y.
      rewrite not_elem_of_app, list_elem_of_singleton. tauto.
    + destruct (bool_decide (t ∈ Engine.keywordStop)) eqn:Hs; simpl; [done|].
      destruct (bool_decide (t ∈ out)) eqn:Ho; simpl; [done|].
      apply bool_decide_eq_false in Hs, Ho. tauto.
Qed.

Lemma collectKeywords_spec raw :
  Engine.collectKeywords raw
  = Spec.firstOccurrences (filter (λ t, t ∉ Engine.keywordStop) raw).
Proof.
  unfold Engine.collectKeywords. rewrite collect_from. simpl. f_equal.
  apply list_filter_iff. intros t. rewrite elem_of_nil. tauto.
Qed.

Lemma collectKeywords_app raw more :
  ∃ rest, Engine.collectKeywords (raw ++ more) = Engine.collectKeywords raw ++ rest.
Proof.
  unfold Engine.collectKeywords. rewrite foldl_app, collect_from. eauto.
Qed.

(** *** The tokens of the extractor are the words of the text *)

Lemma alnum_not_space ch : Str.is_alnum ch = true → Str.is_space ch = false.
Proof. destruct ch as [[] [] [] [] [] [] [] []]; vm_compute; done. Qed.

Lemma alnum_lower ch : Str.is_alnum (Str.lower_char ch) = Str.is_alnum ch.
Proof. destruct ch as [[] [] [] [] [] [] [] []]; reflexivity. Qed.

Lemma split_replace_words l :
  (∀ cur,
     filter (λ piece, piece ≠ [])
       (Str.split_from cur false
          (Str.replace_runs_from (λ ch, negb (Str.is_alnum ch)) false l))
     = Spec.wordsFrom cur l)
  ∧ filter (λ piece, piece ≠ [])
      (Str.split_from [] true
         (Str.replace_runs_from (λ ch, negb (Str.is_alnum ch)) true l))
    = Spec.wordsFrom [] l.
Proof.
  induction l as [|ch l [IHa IHb]].
  - split; [intros [|x cur]; done|done].
  - cbn [Str.replace_runs_from Spec.wordsFrom].
    destruct (Str.is_alnum ch) eqn:Hch; cbn [negb].
    + cbn [Str.split_from]. rewrite (alnum_not_space _ Hch).
      split; [intros cur; apply IHa|apply (IHa ([] ++ [ch]))].
    + split; [|apply IHb].
      intros cur. cbn [Str.split_from].
      replace (Str.is_space " ") with true by reflexivity.
      rewrite filter_cons, IHb. by destruct cur.
Qed.

Lemma filter_fmap_nonempty (P : string → Prop) `{∀ x, Decision (P x)}
    (pieces : list (list ascii)) :
  (∀ w, P w → w ≠ EmptyString) →
  filter P (Str.of_chars <$> pieces)
  = filter P (Str.of_chars <$> filter (λ piece, piece ≠ []) pieces).
Proof.
  intros HP. induction pieces as [|piece pieces IH]; [done|].
  rewrite fmap_cons, (filter_cons (λ piece, piece ≠ [])), !filter_cons.
  destruct (decide (piece ≠ [])) as [Hne|Heq].
  - rewrite fmap_cons, filter_cons, IH. done.
  - destruct piece; [|exfalso; by apply Heq]. rewrite decide_False; [done|].
    intros Hw. by apply HP in Hw.
Qed.

Lemma rawKeywords_words text :
  Engine.rawKeywords text
  = filter (λ w, (3 ≤ String.length w ∧ String.length w ≤ 40)%nat)
      (Spec.words (Str.toLowerCase text)).
Proof.
  unfold Engine.rawKeywords, Str.split_ws, Str.replace_runs, Spec.words.
  rewrite chars_of_chars, filter_fmap_nonempty.
  - by rewrite (proj1 (split_replace_words _) []).
  - intros w [Hlen _] ->. simpl in Hlen. lia.
Qed.

Lemma extractKeywords_keywordsOf text :
  Engine.extractKeywords text = Spec.keywordsOf Engine.keywordStop text.
Proof.
  unfold Engine.extractKeywords, Spec.keywordsOf.
  rewrite collectKeywords_spec, rawKeywords_words, list_filter_filter.
  do 2 f_equal. apply list_filter_iff. intros w. tauto.
Qed.

Lemma wordsFrom_app cur a sep b :
  Str.is_alnum sep = false →
  Spec.wordsFrom cur (a ++ sep :: b) = Spec.wordsFrom cur a ++ Spec.wordsFrom [] b.
Proof.
  intros Hsep. revert cur. induction a as [|ch a IH]; intros cur; simpl.
  - rewrite Hsep. by destruct cur.
  - destruct (Str.is_alnum ch); [apply IH|].
    destruct cur; [apply IH|]. by rewrite IH.
Qed.

Lemma words_app a sep b :
  Str.is_alnum sep = false →
  Spec.words (Str.toLowerCase (a +:+ String sep b))
  = Spec.words (Str.toLowerCase a) ++ Spec.words (Str.toLowerCase b).
Proof.
  intros Hsep. unfold Spec.words, Str.toLowerCase.
  rewrite !chars_of_chars.
  replace (Str.chars (a +:+ String sep b)) with (Str.chars a ++ sep :: Str.chars b).
  - rewrite fmap_app, fmap_cons, wordsFrom_app, fmap_app; [done|].
    by rewrite alnum_lower.
  - induction a as [|ch a IH]; simpl; [done|]. by rewrite IH.
Qed.

Lemma firstOccurrences_app l1 l2 :
  Spec.firstOccurrences (l1 ++ l2)
  = Spec.firstOccurrences l1 ++ filter (λ x, x ∉ l1) (Spec.firstOccurrences l2).
Proof.
  induction l1 as [|x l1 IH]; simpl.
  - symmetry. induction (Spec.firstOccurrences l2) as [|y l IHl]; [done|].
    rewrite filter_cons_True by apply not_elem_of_nil. by rewrite IHl.
  - f_equal. rewrite IH, filter_app, list_filter_filter. f_equal.
    apply list_filter_iff. intros y. rewrite not_elem_of_cons. tauto.
Qed.

(** C10.  For every text the keyword extractor returns the keywords of the
    text: the words of the lower-cased text (its maximal runs of letters
    and digits, in the order in which they occur) that have 3 to 40
    characters and are not in the stop list, each taken at its first
    occurrence, and of these the first fifteen.  Hence at most 15 keywords,
    pairwise distinct, each of 3 to 40 lower-case letters and digits and
    none in the stop list.  Once a text has fifteen keywords, what follows
    it after a separator plays no part.  The post-scoring pass of
    [scoreCandidates] adjusts every candidate from the keywords of the
    query alone: two queries with the same keywords adjust a candidate
    alike. *)
Theorem keywords_first_fifteen (E : Env) text :
  let keywords := Engine.extractKeywords text in
  keywords = Spec.keywordsOf Engine.keywordStop text
  ∧ (length keywords ≤ 15)%nat
  ∧ NoDup keywords
  ∧ Forall (λ k, (3 ≤ String.length k ≤ 40)%nat ∧ Spec.lowercase k
                 ∧ k ∉ Engine.keywordStop) keywords
  ∧ (∀ a sep b, Str.is_alnum sep = false →
       Spec.words (Str.toLowerCase (a +:+ String sep b))
       = Spec.words (Str.toLowerCase a) ++ Spec.words (Str.toLowerCase b))
  ∧ (∀ sep more, Str.is_alnum sep = false → length keywords = 15%nat →
       Engine.extractKeywords (text +:+ String sep more) = keywords)
  ∧ (∀ text' c,
       Spec.keywordsOf Engine.keywordStop text'
       = Spec.keywordsOf Engine.keywordStop text →
       Engine.keywordAdjust E (Engine.extractKeywords text') c
       = Engine.keywordAdjust E keywords c)
  ∧ (∀ candidates options store,
       (Engine.scoreCandidates E candidates options store).1
       = Engine.byScoreDesc
           (Engine.keywordAdjust E
              (Spec.keywordsOf Engine.keywordStop
                 (Engine.buildQuery (promptContext options)))
              <$> (if Engine.isAvailable E
                   then Engine.scoreWithEmbeddings E candidates
                          (Engine.buildQuery (promptContext options)) store
                   else (Engine.scoreWithTFIDF E candidates
                           (Engine.buildQuery (promptContext options)), store)).1)).
Proof.
  intros keywords. unfold keywords. split_and!.
  - apply extractKeywords_keywordsOf.
  - rewrite extractKeywords_keywordsOf. apply firstn_le_length.
  - rewrite extractKeywords_keywordsOf.
    eapply sublist_NoDup; [apply NoDup_firstOccurrences|apply sublist_take].
  - unfold Engine.extractKeywords. rewrite collectKeywords_spec.
    apply Forall_take, Forall_forall. intros k Hk.
    apply elem_of_firstOccurrences, list_elem_of_filter in Hk as [Hstop Hraw].
    pose proof (rawKeywords_tokens text) as Hall.
    rewrite Forall_forall in Hall. destruct (Hall k Hraw). done.
  - intros a sep b Hsep. by apply words_app.
  - intros sep more Hsep. rewrite !extractKeywords_keywordsOf.
    unfold Spec.keywordsOf. rewrite words_app, filter_app by done.
    rewrite firstOccurrences_app. intros Hlen.
    rewrite length_take in Hlen. rewrite take_app_le by lia. done.
  - intros text' c Heq. by rewrite !extractKeywords_keywordsOf, Heq.
  - intros candidates options store. unfold Engine.scoreCandidates.
    rewrite extractKeywords_keywordsOf.
    by destruct (if Engine.isAvailable E then _ else _).
Qed.

(** * Further properties of the engine *)

(** ** What a selection is made of *)

Section SelectionFacts.
Context (E : Env).

Lemma selector_submseteq toFixed candidates budget mode :
  Selector.selectWithinBudget toFixed candidates budget mode ⊆+ candidates.
Proof.
  destruct (selector_decompose toFixed candidates budget mode)
    as (extra & -> & Hsub & _).
  etrans; [|apply Permutation_submseteq,
             (filter_app_complement (λ c, isAutoInclude c = true) candidates)].
  apply submseteq_app; [done|]. by apply sublist_submseteq.
Qed.

Lemma selectFiles_excluded options store :
  let r := (Engine.selectFiles E options store).1 in
  Result.excludedCount (Result.debug r)
  = Z.of_nat (Result.totalCandidates (Result.debug r))
    - Z.of_nat (Result.selectedCount (Result.debug r)).
Proof.
  unfold Engine.selectFiles.
  destruct (Engine.scoreCandidates E _ options store) as [sc st'].
  destruct (mode options); simpl; lia.
Qed.

(** X1.  A selection never invents a file and never takes a candidate twice:
    the selected files are, as a multiset of (path, content) pairs, among the
    scanner's files.  Hence [selectedCount <= totalCandidates], which is the
    number of scanner files, and [excludedCount] is their difference and is
    never negative. *)
Theorem selection_within_scanner_files options store :
  let files := extractCodebase E (smartContextAutoIncludes options) in
  let r := (Engine.selectFiles E options store).1 in
  (λ g, (path g, content g)) <$> Result.selectedFiles r
    ⊆+ (λ f, (path f, content f)) <$> files
  ∧ Result.totalCandidates (Result.debug r) = length files
  ∧ Result.selectedCount (Result.debug r) = length (Result.selectedFiles r)
  ∧ (Result.selectedCount (Result.debug r) ≤ Result.totalCandidates (Result.debug r))%nat
  ∧ 0 ≤ Result.excludedCount (Result.debug r)
  ∧ Z.of_nat (Result.selectedCount (Result.debug r))
    + Result.excludedCount (Result.debug r)
    = Z.of_nat (Result.totalCandidates (Result.debug r)).
Proof.
  intros files r.
  assert (Hcore :
    (λ g, (path g, content g)) <$> Result.selectedFiles r
      ⊆+ (λ f, (path f, content f)) <$> files
    ∧ Result.totalCandidates (Result.debug r) = length files
    ∧ Result.selectedCount (Result.debug r) = length (Result.selectedFiles r)).
  { destruct (decide (mode options = Off)) as [Hoff|Hon].
    - unfold r, Engine.selectFiles. rewrite Hoff. simpl. done.
    - destruct (selectFiles_scored E options store Hon)
        as (Hfiles & Hcount & _ & _ & _ & Htotal & _).
      fold files r in Hfiles, Hcount, Htotal.
      set (candidates := Engine.prepareCandidates E files options) in *.
      set (scored := (Engine.scoreCandidates E candidates options store).1) in *.
      set (sel := Selector.selectWithinBudget _ _ _ _) in *.
      rewrite Hfiles, Hcount, Htotal. split_and!.
      + assert (Hid : identity <$> sel ⊆+ identity <$> candidates).
        { rewrite <- (scoreCandidates_identity E candidates options store).
          apply fmap_submseteq, selector_submseteq. }
        apply (fmap_submseteq
                 (λ i : CodebaseFile * bool * Z, (path i.1.1, content i.1.1)))
          in Hid.
        rewrite <- !list_fmap_compose in Hid.
        rewrite <- list_fmap_compose.
        unfold candidates, Engine.prepareCandidates in Hid.
        rewrite <- list_fmap_compose in Hid. exact Hid.
      + unfold candidates, Engine.prepareCandidates. by rewrite length_fmap.
      + by rewrite length_fmap. }
  destruct Hcore as (Hsub & Htotal & Hcount).
  pose proof (selectFiles_excluded options store) as Hex. fold r in Hex.
  pose proof (submseteq_length _ _ Hsub) as Hlen.
  rewrite !length_fmap in Hlen.
  cbv zeta in Hex. clearbody r files.
  split_and!; [done|done|done|lia|lia|lia].
Qed.
End SelectionFacts.

(** ** The order of the selection and the debug trace *)

Section TraceFacts.
Context (E : Env).

(** X2.  Outside the [off] mode the auto-includes come first in
    [selectedFiles]: the first [autoIncludesCount] files are flagged [force]
    and no later file is. *)
Theorem auto_includes_come_first options store :
  mode options ≠ Off →
  let r := (Engine.selectFiles E options store).1 in
  let n := Result.autoIncludesCount (Result.debug r) in
  Forall (λ g, force g = true) (take n (Result.selectedFiles r))
  ∧ Forall (λ g, force g = false) (drop n (Result.selectedFiles r))
  ∧ (n ≤ Result.selectedCount (Result.debug r))%nat.
Proof.
  intros Hon r n.
  destruct (selectFiles_scored E options store Hon)
    as (Hfiles & Hcount & _ & _ & Hauto & _).
  fold r in Hfiles, Hcount, Hauto. fold n in Hauto.
  set (scored := (Engine.scoreCandidates E _ options store).1) in *.
  rewrite selector_auto_count in Hauto.
  destruct (selector_decompose (toFixed E) scored (Engine.budgetOf E options)
              (mode options)) as (extra & Hsel & Hsub & _).
  rewrite Hsel in Hfiles, Hcount.
  rewrite Hfiles, Hcount, fmap_app, Hauto, length_app.
  rewrite <- (length_fmap Ref.asSelected (Selector.autoIncludes scored)).
  fold Ref.asSelected.
  rewrite take_app_length, drop_app_length. split_and!; [| |lia].
  - apply Forall_fmap, Forall_forall. intros c Hc.
    by apply list_elem_of_filter in Hc as [? _].
  - apply Forall_fmap, Forall_forall. intros c Hc. simpl.
    eapply elem_of_sublist in Hc; [|exact Hsub].
    apply list_elem_of_filter in Hc as [? _]. by destruct (isAutoInclude c).
Qed.

(** X3.  Outside the [off] mode [topScores] describes the first ten selected
    files, in the order of [selectedFiles]. *)
Theorem top_scores_are_first_selected options store :
  mode options ≠ Off →
  let r := (Engine.selectFiles E options store).1 in
  Result.path <$> Result.topScores (Result.debug r)
  = take 10 (path <$> Result.selectedFiles r)
  ∧ length (Result.topScores (Result.debug r))
    = (10 `min` Result.selectedCount (Result.debug r))%nat.
Proof.
  intros Hon r. unfold r, Engine.selectFiles.
  destruct (Engine.scoreCandidates E _ options store) as [scored store'].
  destruct (mode options); [done| |]; simpl;
    rewrite <- !list_fmap_compose, length_fmap, length_take, fmap_take; done.
Qed.
End TraceFacts.

(** The statement of X2 on one forced file and three ordinary ones. *)
Lemma auto_includes_come_first_witness :
  let r := (Engine.selectFiles (Examples.offline Examples.mixed)
              (Examples.balanced "fix login bug" None) Sample.emptyStore).1 in
  let n := Result.autoIncludesCount (Result.debug r) in
  Forall (λ g, force g = true) (take n (Result.selectedFiles r))
  ∧ Forall (λ g, force g = false) (drop n (Result.selectedFiles r))
  ∧ (n ≤ Result.selectedCount (Result.debug r))%nat.
Proof.
  apply (auto_includes_come_first (Examples.offline Examples.mixed)
           (Examples.balanced "fix login bug" None) Sample.emptyStore).
  discriminate.
Defined.

(** The statement of X3 on one forced file and three ordinary ones. *)
Lemma top_scores_are_first_selected_witness :
  let r := (Engine.selectFiles (Examples.offline Examples.mixed)
              (Examples.balanced "fix login bug" None) Sample.emptyStore).1 in
  Result.path <$> Result.topScores (Result.debug r)
  = take 10 (path <$> Result.selectedFiles r)
  ∧ length (Result.topScores (Result.debug r))
    = (10 `min` Result.selectedCount (Result.debug r))%nat.
Proof.
  apply (top_scores_are_first_selected (Examples.offline Examples.mixed)
           (Examples.balanced "fix login bug" None) Sample.emptyStore).
  discriminate.
Defined.

(** ** The trail of reasons *)

Section ReasonFacts.
Context (E : Env).

Lemma reasons_addHeuristicScores c query :
  ∃ more, reasons (Engine.addHeuristicScores E c query) = reasons c ++ more.
Proof.
  unfold Engine.addHeuristicScores.
  repeat case_match; simpl; rewrite <- ?app_assoc; eauto.
Qed.

Lemma reasons_keywordAdjust keywords c :
  ∃ more,
    reasons (Engine.keywordAdjust E keywords c) = reasons c ++ more
    ∧ (last more = Some "penalty: no keyword hint"
       ∨ last more = Some "bonus: keyword match").
Proof.
  unfold Engine.keywordAdjust.
  repeat case_match; simpl; rewrite <- ?app_assoc; simpl;
    eexists; (split; [reflexivity|]); simpl; auto.
Qed.

Lemma reasons_tfidfOne scorer query c :
  ∃ s more,
    reasons (Engine.tfidfOne E scorer query c)
    = reasons c ++ ("tf-idf score: " +:+ toFixed E s 3) :: more.
Proof.
  unfold Engine.tfidfOne.
  destruct (reasons_addHeuristicScores
              (push_reasons
                 (set_score c (TFIDF.scoreDocument scorer (path (file c)) query))
                 ["tf-idf score: "
                  +:+ toFixed E (TFIDF.scoreDocument scorer (path (file c)) query) 3])
              query) as [more ->].
  simpl. rewrite <- app_assoc. simpl. eauto.
Qed.

Lemma reasons_similarityOne q e query c :
  ∃ more, reasons (Engine.similarityOne E q e query c) = reasons c ++ more.
Proof.
  unfold Engine.similarityOne.
  destruct (reasons_addHeuristicScores
              (push_reasons (set_score c (Heuristic.cosineSimilarity q e))
                 ["embedding similarity: "
                  +:+ toFixed E (Heuristic.cosineSimilarity q e) 3])
              query) as [more ->].
  simpl. rewrite <- app_assoc. eauto.
Qed.

Lemma byScoreDesc_elem_of c l : c ∈ Engine.byScoreDesc l ↔ c ∈ l.
Proof. apply sort_elem_of. Qed.

Lemma baseScored_refl c : Ref.baseScored c c.
Proof. split; [done|]. exists []. by rewrite app_nil_r. Qed.

Lemma scoreWithTFIDF_from candidates query c' :
  c' ∈ Engine.scoreWithTFIDF E candidates query →
  ∃ c, c ∈ candidates ∧ Ref.baseScored c c'.
Proof.
  unfold Engine.scoreWithTFIDF. rewrite byScoreDesc_elem_of.
  intros (c & -> & Hc)%list_elem_of_fmap. exists c. split; [done|].
  split; [apply identity_tfidfOne|].
  destruct (reasons_tfidfOne (TFIDF.new E (file <$> candidates)) query c)
    as (s & more & ->). eauto.
Qed.

Lemma embeddingStep_from q query st c c' :
  c' ∈ (Engine.embeddingStep E q query st c).1 →
  c' ∈ st.1 ∨ Ref.baseScored c c'.
Proof.
  unfold Engine.embeddingStep.
  repeat case_match; simpl; rewrite elem_of_app, list_elem_of_singleton;
    intros [?| ->]; auto; right;
    (apply baseScored_refl ||
     (split; [apply identity_similarityOne|apply reasons_similarityOne])).
Qed.

Lemma embeddingLoop_from q query l st c' :
  c' ∈ (foldl (Engine.embeddingStep E q query) st l).1 →
  c' ∈ st.1 ∨ ∃ c, c ∈ l ∧ Ref.baseScored c c'.
Proof.
  revert st. induction l as [|c l IH]; intros st; simpl; [auto|].
  intros [Hst|(d & Hd & Hb)]%IH.
  - apply embeddingStep_from in Hst as [?|?]; [auto|].
    right. exists c. split; [apply list_elem_of_here|done].
  - right. exists d. split; [by apply list_elem_of_further|done].
Qed.

Lemma scoreWithEmbeddings_from candidates query store c' :
  c' ∈ (Engine.scoreWithEmbeddings E candidates query store).1 →
  ∃ c, c ∈ candidates ∧ Ref.baseScored c c'.
Proof.
  unfold Engine.scoreWithEmbeddings. destruct (Engine.embed E query) as [q|].
  - destruct (foldl _ _ _) as [scored store'] eqn:Hloop. simpl.
    rewrite byScoreDesc_elem_of. intros Hc.
    pose proof (embeddingLoop_from q query candidates ([], store) c') as H.
    rewrite Hloop in H. destruct (H Hc) as [Hnil|?]; [|done].
    by apply elem_of_nil in Hnil.
  - apply scoreWithTFIDF_from.
Qed.

(** X4.  Scoring only appends to the trail of reasons: every candidate that
    [scoreCandidates] returns is one of the candidates it was given, with
    the same file, auto-include flag and token estimate, the reasons it had
    followed by new ones, the last of which is the verdict of the keyword
    pass. *)
Theorem scoring_extends_reasons candidates options store :
  Forall (λ c',
            ∃ c more,
              c ∈ candidates ∧ identity c' = identity c
              ∧ reasons c' = reasons c ++ more
              ∧ (last more = Some "penalty: no keyword hint"
                 ∨ last more = Some "bonus: keyword match"))
         (Engine.scoreCandidates E candidates options store).1.
Proof.
  apply Forall_forall. intros c'. unfold Engine.scoreCandidates.
  set (query := Engine.buildQuery _). set (keywords := Engine.extractKeywords _).
  assert (Hbase : ∀ b,
    b ∈ (if Engine.isAvailable E
         then Engine.scoreWithEmbeddings E candidates query store
         else (Engine.scoreWithTFIDF E candidates query, store)).1 →
    ∃ c, c ∈ candidates ∧ Ref.baseScored c b).
  { intros b. destruct (Engine.isAvailable E);
      [apply scoreWithEmbeddings_from|apply scoreWithTFIDF_from]. }
  destruct (if Engine.isAvailable E then _ else _) as [scored store'].
  simpl in *. rewrite byScoreDesc_elem_of.
  intros (b & -> & Hb)%list_elem_of_fmap.
  destruct (Hbase b Hb) as (c & Hc & Hid & more1 & Hmore1).
  destruct (reasons_keywordAdjust keywords b) as (more2 & Hmore2 & Hlast).
  exists c, (more1 ++ more2). split_and!.
  - done.
  - by rewrite identity_keywordAdjust.
  - by rewrite Hmore2, Hmore1, app_assoc.
  - destruct more2 as [|r more2]; [by destruct Hlast|].
    rewrite last_app_cons. done.
Qed.

Lemma reasons_tfidfOne_score scorer query c :
  ∃ more,
    reasons (Engine.tfidfOne E scorer query c)
    = reasons c
      ++ ("tf-idf score: "
          +:+ toFixed E (TFIDF.scoreDocument scorer (path (file c)) query) 3) :: more.
Proof.
  unfold Engine.tfidfOne.
  destruct (reasons_addHeuristicScores
              (push_reasons
                 (set_score c (TFIDF.scoreDocument scorer (path (file c)) query))
                 ["tf-idf score: "
                  +:+ toFixed E (TFIDF.scoreDocument scorer (path (file c)) query) 3])
              query) as [more ->].
  simpl. rewrite <- app_assoc. simpl. eauto.
Qed.

Lemma scoreDocument_sum files p query :
  TFIDF.scoreDocument (TFIDF.new E files) p query
  = match Spec.firstWithPath files p with
    | Some doc => Spec.tfidfSum E files doc (TFIDF.tokenize query)
    | None => 0%float
    end.
Proof.
  unfold TFIDF.scoreDocument. rewrite new_documents, find_document.
  destruct (Spec.firstWithPath files p) as [doc|]; [|done]. simpl.
  unfold Spec.tfidfSum. apply foldl_agree. intros acc t.
  by rewrite computeTF_tf, new_idfCache.
Qed.

(** X5.  Without an embedding provider, outside the [off] mode, the result
    says ["tf-idf"], the cache is left as it was, and every scored candidate
    is a scanner file whose reasons start with ["tf-idf score: "] followed by
    its TF-IDF score for the query, printed with three decimals: the sum of
    [tf * idf] over the tokens of the query, in the first scanner file of
    that path, over the corpus of the scanner's files. *)
Theorem no_provider_scores_with_tfidf options store :
  provider E = None →
  mode options ≠ Off →
  let files := extractCodebase E (smartContextAutoIncludes options) in
  let query := Engine.buildQuery (promptContext options) in
  let candidates := Engine.prepareCandidates E files options in
  Result.scoringMethod (Result.debug (Engine.selectFiles E options store).1) = "tf-idf"
  ∧ (Engine.selectFiles E options store).2 = store
  ∧ Forall (λ c,
              file c ∈ files
              ∧ ∃ more,
                  reasons c
                  = ("tf-idf score: "
                     +:+ toFixed E
                           (match List.find (λ f, bool_decide (path f = path (file c)))
                                            files with
                            | Some doc =>
                                Spec.tfidfSum E files doc (TFIDF.tokenize query)
                            | None => 0%float
                            end) 3) :: more)
           (Engine.scoreCandidates E candidates options store).1.
Proof.
  intros Hnone Hon files query candidates.
  assert (Hav : Engine.isAvailable E = false)
    by (unfold Engine.isAvailable; by rewrite Hnone).
  split_and!.
  - destruct (selectFiles_scored E options store Hon) as (_ & _ & _ & _ & _ & _ & ->).
    by rewrite Hav.
  - unfold Engine.selectFiles, Engine.scoreCandidates. rewrite Hav.
    destruct (mode options); done.
  - unfold Engine.scoreCandidates. rewrite Hav. simpl. fold query.
    apply Forall_forall. intros c'. rewrite byScoreDesc_elem_of.
    intros (b & -> & Hb)%list_elem_of_fmap.
    unfold Engine.scoreWithTFIDF in Hb. rewrite byScoreDesc_elem_of in Hb.
    apply list_elem_of_fmap in Hb as (c & -> & Hc).
    assert (Hfiles : file <$> candidates = files).
    { unfold candidates, Engine.prepareCandidates.
      rewrite <- list_fmap_compose. apply list_fmap_id. }
    rewrite Hfiles.
    assert (Hfile : file (Engine.keywordAdjust E (Engine.extractKeywords query)
                            (Engine.tfidfOne E (TFIDF.new E files) query c))
                    = file c).
    { pose proof (identity_keywordAdjust E (Engine.extractKeywords query)
                    (Engine.tfidfOne E (TFIDF.new E files) query c)) as H1.
      pose proof (identity_tfidfOne E (TFIDF.new E files) query c) as H2.
      unfold identity in H1, H2. congruence. }
    rewrite Hfile.
    destruct (reasons_keywordAdjust (Engine.extractKeywords query)
                (Engine.tfidfOne E (TFIDF.new E files) query c))
      as (more2 & -> & _).
    destruct (reasons_tfidfOne_score (TFIDF.new E files) query c) as (more & ->).
    rewrite scoreDocument_sum. unfold Spec.firstWithPath.
    split.
    + rewrite <- Hfiles. by apply list_elem_of_fmap_2.
    + unfold candidates, Engine.prepareCandidates in Hc.
      apply list_elem_of_fmap in Hc as (f & -> & _). simpl. eauto.
Qed.
End ReasonFacts.

(** The statement of X5 on one forced file and three ordinary ones. *)
Lemma no_provider_scores_with_tfidf_witness :
  let E := Examples.offline Examples.mixed in
  let options := Examples.balanced "fix login bug" None in
  let files := extractCodebase E (smartContextAutoIncludes options) in
  let query := Engine.buildQuery (promptContext options) in
  let candidates := Engine.prepareCandidates E files options in
  Result.scoringMethod
    (Result.debug (Engine.selectFiles E options Sample.emptyStore).1) = "tf-idf"
  ∧ (Engine.selectFiles E options Sample.emptyStore).2 = Sample.emptyStore
  ∧ Forall (λ c,
              file c ∈ files
              ∧ ∃ more,
                  reasons c
                  = ("tf-idf score: "
                     +:+ toFixed E
                           (match List.find (λ f, bool_decide (path f = path (file c)))
                                            files with
                            | Some doc =>
                                Spec.tfidfSum E files doc (TFIDF.tokenize query)
                            | None => 0%float
                            end) 3) :: more)
           (Engine.scoreCandidates E candidates options Sample.emptyStore).1.
Proof.
  intros E options.
  apply (no_provider_scores_with_tfidf E options Sample.emptyStore).
  - reflexivity.
  - discriminate.
Defined.

(** ** Budget, query and keywords *)

(** X6.  The budget derived from the model is never below 10000 tokens: it is
    24000 when the model has no maximum or a maximum of zero, the maximum
    minus 8000 when the maximum is at least 18000, and 10000 for every
    smaller maximum.  A budget given in the options is used as it is, except
    that 0 counts as not given. *)
Theorem derived_budget_floor (E : Env) options :
  10000 ≤ Engine.calculateTokenBudget E
  ∧ (getMaxTokens E = None ∨ getMaxTokens E = Some 0 →
     Engine.calculateTokenBudget E = 24000)
  ∧ (∀ n, getMaxTokens E = Some n → n ≠ 0 → 18000 ≤ n →
          Engine.calculateTokenBudget E = n - 8000)
  ∧ (∀ n, getMaxTokens E = Some n → n ≠ 0 → n < 18000 →
          Engine.calculateTokenBudget E = 10000)
  ∧ (∀ b, tokenBudget options = Some b → b ≠ 0 → Engine.budgetOf E options = b)
  ∧ (tokenBudget options = None ∨ tokenBudget options = Some 0 →
     Engine.budgetOf E options = Engine.calculateTokenBudget E).
Proof.
  unfold Engine.budgetOf, Engine.calculateTokenBudget. split_and!.
  - lia.
  - by intros [-> | ->].
  - intros n -> Hn Hbig. destruct (n =? 0) eqn:H0; lia.
  - intros n -> Hn Hsmall. destruct (n =? 0) eqn:H0; lia.
  - intros b -> Hb. destruct (b =? 0) eqn:H0; [lia|done].
  - intros [->| ->]; done.
Qed.

Lemma join_two_not_empty a rest : a +:+ " " +:+ rest ≠ EmptyString.
Proof. by destruct a. Qed.

(** X7.  The query is the prompt followed, after a space, by the contents
    of the last three messages of role [user], in their order and
    separated by spaces; messages of other roles and earlier user messages
    play no part.  With fewer user messages the query holds those there
    are; with none, or with a single empty one, it is the prompt alone. *)
Theorem query_uses_last_three_user_messages prompt msgs :
  let users := msg_content <$> filter (λ m, role m = "user") msgs in
  let query :=
    Engine.buildQuery {| userPrompt := prompt; recentMessages := msgs |} in
  (users = [] → query = prompt)
  ∧ (∀ a, users = [a] →
          query = if bool_decide (a = EmptyString) then prompt
                  else prompt +:+ " " +:+ a)
  ∧ (∀ a b, users = [a; b] → query = prompt +:+ " " +:+ a +:+ " " +:+ b)
  ∧ (∀ earlier a b c, users = earlier ++ [a; b; c] →
          query = prompt +:+ " " +:+ a +:+ " " +:+ b +:+ " " +:+ c).
Proof.
  intros users query. subst query. unfold Engine.buildQuery.
  cbn [recentMessages userPrompt]. unfold Str.last_n.
  rewrite fmap_drop, <- (length_fmap msg_content). fold users.
  split_and!.
  - by intros ->.
  - intros a ->. cbn. by destruct (bool_decide (a = EmptyString)).
  - intros a b ->. cbn.
    by rewrite bool_decide_eq_false_2 by apply join_two_not_empty.
  - intros earlier a b c ->.
    rewrite length_app. cbn [length].
    replace (length earlier + 3 - 3)%nat with (length earlier) by lia.
    rewrite drop_app_length. cbn.
    by rewrite bool_decide_eq_false_2 by apply join_two_not_empty.
Qed.

Lemma extractKeywords_not_stop text :
  Forall (λ k, k ∉ Engine.keywordStop) (Engine.extractKeywords text).
Proof.
  unfold Engine.extractKeywords. rewrite collectKeywords_spec.
  apply Forall_take, Forall_forall. intros k Hk.
  by apply elem_of_firstOccurrences, list_elem_of_filter in Hk as [? _].
Qed.

Lemma theme_words_are_stopped text :
  Engine.some (λ k, Str.mem k ["theme"; "toggle"; "dark"; "light"])
              (Engine.extractKeywords text)
  = Str.mem "theme" (Engine.extractKeywords text).
Proof.
  pose proof (extractKeywords_not_stop text) as Hstop.
  induction Hstop as [|k ks Hk _ IH]; [done|].
  unfold Engine.some in *. simpl. rewrite IH. unfold Str.mem.
  destruct (decide (k = "theme")) as [->|Hne].
  - rewrite (bool_decide_eq_true_2 ("theme" ∈ "theme" :: ks))
      by apply list_elem_of_here.
    done.
  - replace (bool_decide (k ∈ ["theme"; "toggle"; "dark"; "light"])) with false.
    + simpl. apply bool_decide_ext. rewrite elem_of_cons.
      split; [auto|]. intros [Heq|?]; [by symmetry in Heq|done].
    + symmetry. apply bool_decide_eq_false.
      rewrite !elem_of_cons, elem_of_nil.
      intros [?|[->|[->|[->|[]]]]]; [done|..];
        apply Hk; unfold Engine.keywordStop; set_solver.
Qed.

Lemma some_exists {A} (p : A → bool) (l : list A) :
  Engine.some p l = true ↔ ∃ x, x ∈ l ∧ p x = true.
Proof.
  unfold Engine.some. rewrite existsb_exists.
  split; intros (x & Hx & Hp); exists x; (split; [by apply list_elem_of_In|done]).
Qed.

(** X8.  The theme bonus of the post-scoring pass of [scoreCandidates]:
    with the keywords extracted from a text, the pass pushes the reason
    ["bonus: theme-toggle related path"] on a candidate exactly when [theme]
    is among the keywords and the lower-cased base name or directory of the
    candidate contains one of the nine theme paths (lower-cased).  The words
    [toggle], [dark] and [light] of the test never count, since the
    extractor drops them as stop words. *)
Theorem theme_bonus_needs_theme (E : Env) text c :
  let baseName := Str.toLowerCase (path_basename E (path (file c))) in
  let dir := Str.toLowerCase (path_dirname E (path (file c))) in
  ∃ more,
    reasons (Engine.keywordAdjust E (Engine.extractKeywords text) c)
    = reasons c ++ more
    ∧ ("bonus: theme-toggle related path" ∈ more
       ↔ "theme" ∈ Engine.extractKeywords text
         ∧ ∃ p, p ∈ ["theme"; "toggle"; "globals.css"; "tailwind.config";
                     "index.html"; "app.css"; "layout"; "ThemeToggle";
                     "toggle-group"]
                ∧ Str.includes baseName (Str.toLowerCase p)
                  || Str.includes dir (Str.toLowerCase p) = true).
Proof.
  intros baseName dir. unfold Engine.keywordAdjust. cbv zeta.
  rewrite theme_words_are_stopped. fold baseName dir.
  set (keywords := Engine.extractKeywords text).
  assert (Hcond :
    Str.mem "theme" keywords
    && Engine.some (λ p, Str.includes baseName (Str.toLowerCase p)
                         || Str.includes dir (Str.toLowerCase p)) Engine.themePaths
    = true
    ↔ "theme" ∈ keywords
      ∧ ∃ p, p ∈ ["theme"; "toggle"; "globals.css"; "tailwind.config";
                  "index.html"; "app.css"; "layout"; "ThemeToggle";
                  "toggle-group"]
             ∧ Str.includes baseName (Str.toLowerCase p)
               || Str.includes dir (Str.toLowerCase p) = true).
  { rewrite andb_true_iff, some_exists. unfold Str.mem.
    by rewrite bool_decide_eq_true. }
  setoid_rewrite <- Hcond. clear Hcond.
  destruct (Str.mem "theme" keywords
            && Engine.some _ Engine.themePaths);
    repeat match goal with
           | |- context [if ?b then _ else _] => destruct b
           end;
    cbn [reasons bump push_reasons set_score]; rewrite <- ?app_assoc;
    eexists; (split; [reflexivity|]);
    cbn [app]; rewrite ?elem_of_cons, ?elem_of_nil;
    (split; [intros H; repeat (destruct H as [H|H]; try discriminate H);
             by try destruct H
            |intros H; try discriminate H; auto 10]).
Qed.

(** ** More on the embedding cache *)

Section CacheMoreFacts.
Context (E : Env).

Lemma writable_unlink st key :
  Cache.writable st = true → Cache.writable (Cache.unlink st key) = true.
Proof. unfold Cache.unlink. by intros ->. Qed.


Lemma get_after_set st p c m v :
  Cache.writable st = true →
  Cache.get E (Cache.set E st p c m v) p c m = (Some v, Cache.set E st p c m v).
Proof.
  intros Hw. unfold Cache.get, Cache.set, Cache.writeFile. rewrite Hw. simpl.
  rewrite lookup_insert_eq. simpl. by rewrite Z.eqb_refl.
Qed.


(** X10.  The last writer wins, and a write only shows under its own key:
    after two writes for the same file the cache returns the second vector,
    and a read under another key gives what it gave before the write. *)
Theorem cache_last_writer_wins st p c m v m' v' p2 c2 m2 :
  Cache.writable st = true →
  Cache.getCacheKey E p2 c2 ≠ Cache.getCacheKey E p c →
  (Cache.get E (Cache.set E (Cache.set E st p c m v) p c m' v') p c m').1 = Some v'
  ∧ (Cache.get E (Cache.set E st p c m v) p2 c2 m2).1 = (Cache.get E st p2 c2 m2).1.
Proof.
  intros Hw Hne. split.
  - rewrite get_after_set; [done|].
    unfold Cache.set, Cache.writeFile. by rewrite Hw.
  - unfold Cache.get, Cache.set, Cache.writeFile. rewrite Hw. simpl.
    rewrite lookup_insert_ne by done. cbv zeta.
    destruct (Cache.files st !! Cache.getCacheKey E p2 c2) as [[cached|]|];
      simpl; try done.
    destruct (Cache.mtime cached =? m2); done.
Qed.

(** X11.  The cache key is the digest of the path followed by the content,
    with nothing in between: two files for which this text is the same
    share one entry. *)
Theorem cache_key_of_concatenation st p c p' c' m v :
  Cache.writable st = true →
  p +:+ c = p' +:+ c' →
  Cache.getCacheKey E p c = Cache.getCacheKey E p' c'
  ∧ (Cache.get E (Cache.set E st p c m v) p' c' m).1 = Some v.
Proof.
  intros Hw Heq.
  assert (Hkey : Cache.getCacheKey E p c = Cache.getCacheKey E p' c')
    by (unfold Cache.getCacheKey; by rewrite Heq).
  split; [done|].
  unfold Cache.get, Cache.set, Cache.writeFile. rewrite Hw. simpl.
  rewrite <- Hkey, lookup_insert_eq. simpl. by rewrite Z.eqb_refl.
Qed.

(** A step of the embedding loop on a directory whose writes fail and on
    one that agrees with it at the key of the candidate and takes writes. *)
Lemma embeddingStep_write_failure q query acc ro rw c :
  Cache.writable ro = false → Cache.writable rw = true →
  Cache.files rw !! Cache.getCacheKey E (path (file c)) (content (file c))
  = Cache.files ro !! Cache.getCacheKey E (path (file c)) (content (file c)) →
  (Engine.embeddingStep E q query (acc, rw) c).1
  = (Engine.embeddingStep E q query (acc, ro) c).1
  ∧ (Engine.embeddingStep E q query (acc, ro) c).2 = ro
  ∧ Cache.writable (Engine.embeddingStep E q query (acc, rw) c).2 = true
  ∧ (∀ k, k ≠ Cache.getCacheKey E (path (file c)) (content (file c)) →
          Cache.files (Engine.embeddingStep E q query (acc, rw) c).2 !! k
          = Cache.files rw !! k).
Proof.
  intros Hro Hrw Hkey.
  unfold Engine.embeddingStep, Cache.get, Cache.set, Cache.writeFile, Cache.unlink.
  cbn [fst snd]. rewrite Hkey, Hro, Hrw.
  destruct (stat_mtimeMs E (path (file c))) as [m|].
  - destruct (Cache.files ro !! _) as [[cached|]|] eqn:Hk.
    + destruct (Cache.mtime cached =? m); cbn [fst snd].
      * done.
      * rewrite Hro. cbn [Cache.writable].
        destruct (Engine.embed E (content (file c))); cbn [fst snd Cache.files Cache.writable].
        -- split_and!; [done|done|done|].
           intros k Hne. by rewrite lookup_insert_ne, lookup_delete_ne.
        -- split_and!; [done|done|done|].
           intros k Hne. by rewrite lookup_delete_ne.
    + rewrite Hro, Hrw.
      destruct (Engine.embed E (content (file c))); cbn [fst snd Cache.files Cache.writable].
      * split_and!; [done|done|done|]. intros k Hne. by rewrite lookup_insert_ne.
      * done.
    + rewrite Hro, Hrw.
      destruct (Engine.embed E (content (file c))); cbn [fst snd Cache.files Cache.writable].
      * split_and!; [done|done|done|]. intros k Hne. by rewrite lookup_insert_ne.
      * done.
  - destruct (Engine.embed E (content (file c))); done.
Qed.

Lemma embeddingLoop_write_failure q query l acc ro rw :
  Cache.writable ro = false → Cache.writable rw = true →
  (∀ c, c ∈ l →
     Cache.files rw !! Cache.getCacheKey E (path (file c)) (content (file c))
     = Cache.files ro !! Cache.getCacheKey E (path (file c)) (content (file c))) →
  NoDup ((λ c, Cache.getCacheKey E (path (file c)) (content (file c))) <$> l) →
  (foldl (Engine.embeddingStep E q query) (acc, rw) l).1
  = (foldl (Engine.embeddingStep E q query) (acc, ro) l).1.
Proof.
  intros Hro. revert acc rw.
  induction l as [|c l IH]; intros acc rw Hrw Hagree Hnd; [done|].
  rewrite fmap_cons in Hnd. apply NoDup_cons in Hnd as [Hc Hnd]. simpl.
  destruct (embeddingStep_write_failure q query acc ro rw c Hro Hrw)
    as (Hacc & Hsame & Hw & Hother).
  { apply Hagree, list_elem_of_here. }
  destruct (Engine.embeddingStep E q query (acc, rw) c) as [acc1 rw1].
  destruct (Engine.embeddingStep E q query (acc, ro) c) as [acc2 ro2].
  simpl in *. subst acc2 ro2.
  apply IH; [done| |done].
  intros d Hd. rewrite Hother.
  - apply Hagree. by apply list_elem_of_further.
  - intros Heq. apply Hc. rewrite <- Heq. apply list_elem_of_fmap. by exists d.
Qed.

(** X12.  A cache directory that cannot be written costs nothing but the
    cache: for scanner files with pairwise different cache keys, the result
    of [selectFiles] (selection, scores, trace) on a directory whose writes
    and deletions fail is the one on the same directory when they succeed.
    Likewise for the scoring pass on candidates with pairwise different
    keys. *)
Theorem cache_write_failures_keep_scores options (entries : gmap string Cache.CacheFile) :
  let files := extractCodebase E (smartContextAutoIncludes options) in
  let failing := {| Cache.files := entries; Cache.writable := false |} in
  let working := {| Cache.files := entries; Cache.writable := true |} in
  NoDup ((λ f, sha256_hex E (path f +:+ content f)) <$> files) →
  (Engine.selectFiles E options failing).1 = (Engine.selectFiles E options working).1
  ∧ (∀ candidates,
       NoDup ((λ c, sha256_hex E (path (file c) +:+ content (file c))) <$> candidates) →
       (Engine.scoreCandidates E candidates options failing).1
       = (Engine.scoreCandidates E candidates options working).1).
Proof.
  intros files failing working Hnd.
  assert (Hscore : ∀ candidates,
    NoDup ((λ c, sha256_hex E (path (file c) +:+ content (file c))) <$> candidates) →
    (Engine.scoreCandidates E candidates options failing).1
    = (Engine.scoreCandidates E candidates options working).1).
  { intros candidates Hkeys.
    unfold Engine.scoreCandidates, Engine.scoreWithEmbeddings.
    destruct (Engine.isAvailable E); [|done].
    destruct (Engine.embed E _) as [q|]; [|done].
    set (query := Engine.buildQuery _).
    pose proof (embeddingLoop_write_failure q query candidates [] failing working
                  eq_refl eq_refl (λ _ _, eq_refl) Hkeys) as Hloop.
    destruct (foldl _ ([], failing) candidates) as [scored1 store1].
    destruct (foldl _ ([], working) candidates) as [scored2 store2].
    simpl in *. by subst scored2. }
  split; [|done].
  unfold Engine.selectFiles. destruct (mode options) eqn:Hmode; [done| |].
  all: fold files.
  all: assert (Hprep :
         NoDup ((λ c, sha256_hex E (path (file c) +:+ content (file c)))
                  <$> Engine.prepareCandidates E files options))
         by (unfold Engine.prepareCandidates; by rewrite <- list_fmap_compose).
  all: specialize (Hscore _ Hprep).
  all: destruct (Engine.scoreCandidates E _ options failing) as [scored1 store1].
  all: destruct (Engine.scoreCandidates E _ options working) as [scored2 store2].
  all: simpl in Hscore; subst scored2; done.
Qed.
End CacheMoreFacts.


(** The statement of X10 with the sample digest. *)
Lemma cache_last_writer_wins_witness :
  let E := Examples.offline [] in
  let st := Sample.emptyStore in
  (Cache.get E
     (Cache.set E (Cache.set E st "src/a.ts" "let a" 1000 [1]%float)
        "src/a.ts" "let a" 2000 [2]%float)
     "src/a.ts" "let a" 2000).1 = Some [2]%float
  ∧ (Cache.get E (Cache.set E st "src/a.ts" "let a" 1000 [1]%float)
       "src/b.ts" "let b" 1000).1
    = (Cache.get E st "src/b.ts" "let b" 1000).1.
Proof.
  intros E st.
  apply (cache_last_writer_wins E st "src/a.ts" "let a" 1000 [1]%float 2000
           [2]%float "src/b.ts" "let b" 1000).
  - reflexivity.
  - vm_compute. discriminate.
Defined.

(** The statement of X11 on two files that spell the same text. *)
Lemma cache_key_of_concatenation_witness :
  let E := Examples.offline [] in
  Cache.getCacheKey E "a" "bc" = Cache.getCacheKey E "ab" "c"
  ∧ (Cache.get E (Cache.set E Sample.emptyStore "a" "bc" 1000 [1]%float)
       "ab" "c" 1000).1 = Some [1]%float.
Proof.
  intros E.
  apply (cache_key_of_concatenation E Sample.emptyStore "a" "bc" "ab" "c" 1000
           [1]%float).
  - reflexivity.
  - reflexivity.
Defined.

(** The statement of X12 on one forced file and three ordinary ones, with an
    embedder and an empty directory. *)
Lemma cache_write_failures_keep_scores_witness :
  let E := Examples.online Examples.mixed in
  let options := Examples.balanced "fix login bug" None in
  let failing := {| Cache.files := ∅; Cache.writable := false |} in
  let working := {| Cache.files := ∅; Cache.writable := true |} in
  (Engine.selectFiles E options failing).1 = (Engine.selectFiles E options working).1
  ∧ (∀ candidates,
       NoDup ((λ c, sha256_hex E (path (file c) +:+ content (file c))) <$> candidates) →
       (Engine.scoreCandidates E candidates options failing).1
       = (Engine.scoreCandidates E candidates options working).1).
Proof.
  intros E options.
  apply (cache_write_failures_keep_scores E options ∅).
  apply (bool_decide_unpack _). vm_compute. exact I.
Defined.

(** ** [cleanup] *)

Lemma chars_append a b : Str.chars (a +:+ b) = Str.chars a ++ Str.chars b.
Proof. induction a as [|ch a IH]; simpl; [done|]. by rewrite IH. Qed.

Lemma length_chars s : length (Str.chars s) = String.length s.
Proof. induction s as [|ch s IH]; simpl; [done|]. by rewrite IH. Qed.

Lemma of_chars_chars s : Str.of_chars (Str.chars s) = s.
Proof. apply string_of_list_ascii_of_string. Qed.

Lemma starts_with_app needle rest : Str.starts_with needle (needle ++ rest) = true.
Proof.
  induction needle as [|a needle IH]; simpl; [done|].
  by rewrite bool_decide_eq_true_2.
Qed.

Lemma starts_with_inv needle hay :
  Str.starts_with needle hay = true → ∃ rest, hay = needle ++ rest.
Proof.
  revert hay. induction needle as [|a needle IH]; intros hay; simpl; [eauto|].
  destruct hay as [|b hay]; [done|].
  intros [Hab Hrest]%andb_prop. apply bool_decide_eq_true in Hab as ->.
  destruct (IH hay Hrest) as [rest ->]. eauto.
Qed.

Lemma endsWith_json key : CacheDir.endsWith (key +:+ ".json") ".json" = true.
Proof.
  unfold CacheDir.endsWith. rewrite chars_append, rev_app_distr.
  apply starts_with_app.
Qed.

Lemma stem_json key : CacheDir.stem (key +:+ ".json") = key.
Proof.
  unfold CacheDir.stem.
  rewrite <- length_chars, chars_append, length_app. simpl.
  replace (length (Str.chars key) + 5 - 5)%nat with (length (Str.chars key)) by lia.
  rewrite take_app_length. apply of_chars_chars.
Qed.

Lemma endsWith_stem name :
  CacheDir.endsWith name ".json" = true → name = CacheDir.stem name +:+ ".json".
Proof.
  unfold CacheDir.endsWith, CacheDir.stem.
  intros [rest Hrest]%starts_with_inv.
  assert (Hname : Str.chars name = rev rest ++ Str.chars ".json").
  { rewrite <- (rev_involutive (Str.chars name)), Hrest, rev_app_distr.
    by rewrite rev_involutive. }
  rewrite <- (of_chars_chars name) at 1.
  rewrite <- length_chars, Hname, length_app. simpl.
  replace (length (rev rest) + 5 - 5)%nat with (length (rev rest)) by lia.
  rewrite take_app_length.
  rewrite <- (of_chars_chars (Str.of_chars (rev rest) +:+ ".json")).
  by rewrite chars_append, chars_of_chars.
Qed.

Section CleanupFacts.
Context (now maxAge : Z).

Lemma cleanupLoop_spec listing st :
  Cache.writable st = true →
  Cache.writable (CacheDir.cleanupLoop now maxAge listing st) = true
  ∧ ∀ key,
      Cache.files (CacheDir.cleanupLoop now maxAge listing st) !! key
      = if bool_decide
             (Exists (λ e, e.1 = key +:+ ".json" ∧ maxAge < now - e.2) listing)
        then None else Cache.files st !! key.
Proof.
  revert st. induction listing as [|[name t] rest IH]; intros st Hw.
  - split; [done|]. intros key.
    rewrite bool_decide_eq_false_2; [done|]. by intros ?%Exists_nil.
  - cbn [CacheDir.cleanupLoop].
    destruct (CacheDir.endsWith name ".json") eqn:Hjson; cbn [negb].
    + destruct (maxAge <? now - t) eqn:Hold.
      * rewrite Hw.
        destruct (IH (Cache.unlink st (CacheDir.stem name))
                     (writable_unlink _ _ Hw)) as [Hw' Hfiles].
        split; [done|]. intros key. rewrite Hfiles.
        unfold Cache.unlink. rewrite Hw. cbn [Cache.files].
        destruct (decide (name = key +:+ ".json")) as [->|Hne].
        -- rewrite stem_json, lookup_delete_eq.
           rewrite (bool_decide_eq_true_2 (Exists _ (_ :: rest))).
           ++ by case_bool_decide.
           ++ apply Exists_cons_hd. cbn [fst snd]. split; [done|lia].
        -- rewrite lookup_delete_ne.
           ++ erewrite bool_decide_ext; [done|]. rewrite Exists_cons. cbn [fst snd]. tauto.
           ++ intros Hstem. apply Hne. rewrite <- Hstem.
              by apply endsWith_stem.
      * destruct (IH st Hw) as [Hw' Hfiles]. split; [done|].
        intros key. rewrite Hfiles.
        erewrite bool_decide_ext; [done|]. rewrite Exists_cons. cbn [fst snd].
        split; [tauto|]. intros [[_ ?]|?]; [lia|done].
    + destruct (IH st Hw) as [Hw' Hfiles]. split; [done|].
      intros key. rewrite Hfiles.
      erewrite bool_decide_ext; [done|]. rewrite Exists_cons. cbn [fst snd].
      split; [tauto|].
      intros [[-> _]|?]; [|done]. by rewrite endsWith_json in Hjson.
Qed.
End CleanupFacts.

(** X13.  [EmbeddingCache.cleanup] on a cache directory whose file
    operations succeed: an entry [key.json] that the listing shows older
    than [maxAge] (strictly: [now - mtimeMs > maxAge]) is gone afterwards, so
    that a later [get] of it misses; an entry that no line of the listing
    shows that old is kept as it was, whatever else the directory holds
    (other file names are skipped); nothing is added to the cache, and the
    directory stays writable. *)
Theorem cleanup_removes_old_entries (E : Env) maxAge listing st :
  Cache.writable st = true →
  let st' := CacheDir.cleanup E maxAge listing st in
  Cache.writable st' = true
  ∧ (∀ key t,
       (key +:+ ".json", t) ∈ listing → maxAge < Date_now E - t →
       Cache.files st' !! key = None)
  ∧ (∀ p c m t,
       (Cache.getCacheKey E p c +:+ ".json", t) ∈ listing →
       maxAge < Date_now E - t →
       Cache.get E st' p c m = (None, st'))
  ∧ (∀ key,
       (∀ t, (key +:+ ".json", t) ∈ listing → Date_now E - t ≤ maxAge) →
       Cache.files st' !! key = Cache.files st !! key)
  ∧ (∀ key f, Cache.files st' !! key = Some f → Cache.files st !! key = Some f).
Proof.
  intros Hw st'.
  destruct (cleanupLoop_spec (Date_now E) maxAge listing st Hw) as [Hw' Hfiles].
  fold (CacheDir.cleanup E maxAge listing st) in Hw', Hfiles. fold st' in Hw', Hfiles.
  assert (Hgone : ∀ key t,
             (key +:+ ".json", t) ∈ listing → maxAge < Date_now E - t →
             Cache.files st' !! key = None).
  { intros key t Hin Hold. rewrite Hfiles, bool_decide_eq_true_2; [done|].
    apply Exists_exists. by exists (key +:+ ".json", t). }
  split_and!; [done|done| | |].
  - intros p c m t Hin Hold. unfold Cache.get.
    by rewrite (Hgone _ _ Hin Hold).
  - intros key Hkept. rewrite Hfiles, bool_decide_eq_false_2; [done|].
    intros ([name t] & Hin & Hname & Hold)%Exists_exists. simpl in *. subst name.
    specialize (Hkept t Hin). lia.
  - intros key f. rewrite Hfiles. by case_bool_decide.
Qed.

(** The statement of X13 on a directory with one old entry, one recent
    entry and a file that is no entry. *)
Lemma cleanup_removes_old_entries_witness :
  let E := Sample.env [] (λ _, Some 1000) (CacheDir.defaultMaxAge + 1000) None in
  let st :=
    Cache.set E (Cache.set E Sample.emptyStore "src/a.ts" "let a" 1000 [1]%float)
      "src/b.ts" "let b" 1000 [2]%float in
  let listing :=
    [(Cache.getCacheKey E "src/a.ts" "let a" +:+ ".json", 999);
     ("notes.txt", 0);
     (Cache.getCacheKey E "src/b.ts" "let b" +:+ ".json", 1000)] in
  let st' := CacheDir.cleanup E CacheDir.defaultMaxAge listing st in
  Cache.writable st' = true
  ∧ (∀ key t,
       (key +:+ ".json", t) ∈ listing →
       CacheDir.defaultMaxAge < Date_now E - t →
       Cache.files st' !! key = None)
  ∧ (∀ p c m t,
       (Cache.getCacheKey E p c +:+ ".json", t) ∈ listing →
       CacheDir.defaultMaxAge < Date_now E - t →
       Cache.get E st' p c m = (None, st'))
  ∧ (∀ key,
       (∀ t, (key +:+ ".json", t) ∈ listing →
             Date_now E - t ≤ CacheDir.defaultMaxAge) →
       Cache.files st' !! key = Cache.files st !! key)
  ∧ (∀ key f, Cache.files st' !! key = Some f → Cache.files st !! key = Some f).
Proof.
  intros E st listing.
  apply (cleanup_removes_old_entries E CacheDir.defaultMaxAge listing st).
  reflexivity.
Defined.

(** ** The tokenizer and the scorer's tables *)

Lemma word_lower_char c :
  Str.is_word (Str.lower_char c) = true →
  Str.is_lower (Str.lower_char c) || Str.is_digit (Str.lower_char c)
  || bool_decide (Str.lower_char c = "_"%char) = true.
Proof. destruct c as [[] [] [] [] [] [] [] []]; vm_compute; done. Qed.

(** X14.  Every token the tokenizer returns has between 3 and 49
    characters, is made of lower-case letters, digits and underscores only,
    and is no stop word; in particular no token is empty or holds white
    space or punctuation, whatever the text. *)
Theorem tokenize_tokens text :
  Forall (λ t, (3 ≤ String.length t ≤ 49)%nat
               ∧ Forall (λ c, Str.is_lower c || Str.is_digit c
                              || bool_decide (c = "_"%char) = true) (Str.chars t)
               ∧ t ∉ TFIDF.stopWords)
         (TFIDF.tokenize text).
Proof.
  unfold TFIDF.tokenize. rewrite Forall_forall. intros t Ht.
  apply list_elem_of_filter in Ht as [Hstop Ht].
  apply list_elem_of_filter in Ht as [Hlen Ht].
  split_and!; [lia|lia| |].
  - unfold Str.split_ws in Ht. apply list_elem_of_fmap in Ht as (piece & -> & Hp).
    rewrite chars_of_chars. clear Hlen Hstop. revert piece Hp. apply Forall_forall.
    apply split_pieces; [constructor|].
    unfold Str.replace_each, Str.toLowerCase. rewrite !chars_of_chars.
    rewrite <- list_fmap_compose.
    apply Forall_fmap, Forall_forall. intros c _. simpl.
    destruct (Str.is_word (Str.lower_char c)) eqn:Hw; simpl.
    + right. by apply word_lower_char.
    + destruct (Str.is_space (Str.lower_char c)) eqn:Hs; simpl; by left.
  - unfold TFIDF.isStopWord, Str.mem in Hstop.
    by apply bool_decide_eq_false in Hstop.
Qed.

Section ScorerMoreFacts.
Context (E : Env).

Lemma df_bounds files t :
  Exists (λ f, t ∈ TFIDF.tokenize (content f)) files →
  (1 ≤ Spec.df files t ≤ length files)%nat.
Proof.
  unfold Spec.df. intros (f & Hf & Ht)%Exists_exists. split.
  - assert (Hin : f ∈ filter (λ f, t ∈ TFIDF.tokenize (content f)) files)
      by by apply list_elem_of_filter.
    destruct (filter _ files); [by apply elem_of_nil in Hin|simpl; lia].
  - apply length_filter.
Qed.

(** X15.  The tables the constructor of the scorer leaves behind: one
    document per file, in order, with the file's path and the tokens of its
    content; the vocabulary holds exactly the tokens of the files; the IDF
    table has an entry exactly for the terms of the vocabulary, and the
    entry of a term is [Math.log(N / (df + 1))] where [N] is the number of
    files and [df], the number of files whose tokens include the term, lies
    between 1 and [N] (so the quotient is below 1 for a term of every
    file). *)
Theorem scorer_tables files :
  let s := TFIDF.new E files in
  TFIDF.doc_path <$> TFIDF.documents s = path <$> files
  ∧ TFIDF.doc_tokens <$> TFIDF.documents s = (λ f, TFIDF.tokenize (content f)) <$> files
  ∧ (∀ t, t ∈ TFIDF.vocabulary s ↔ ∃ f, f ∈ files ∧ t ∈ TFIDF.tokenize (content f))
  ∧ (∀ t, is_Some (TFIDF.idfCache s !! t) ↔ t ∈ TFIDF.vocabulary s)
  ∧ (∀ t, t ∈ TFIDF.vocabulary s →
          TFIDF.idfCache s !! t
          = Some (Math_log E (JS.Z2F (Z.of_nat (length files))
                              / JS.Z2F (Z.of_nat (Spec.df files t) + 1))%float)
          ∧ (1 ≤ Spec.df files t ≤ length files)%nat).
Proof.
  intros s.
  assert (Hdocs : TFIDF.documents s = Spec.asDocument <$> files)
    by apply new_documents.
  assert (Hvoc : ∀ t, t ∈ TFIDF.vocabulary s
                      ↔ Exists (λ f, t ∈ TFIDF.tokenize (content f)) files)
    by apply new_vocabulary.
  assert (Hidf : ∀ t, TFIDF.idfCache s !! t
                      = if decide (t ∈ TFIDF.vocabulary s)
                        then Some (TFIDF.idfOf E (TFIDF.documents s) t) else None).
  { intros t. subst s. unfold TFIDF.new.
    destruct (foldl TFIDF.addFile ([], ∅) files) as [docs voc]. simpl.
    unfold TFIDF.computeIDF.
    destruct (decide (t ∈ voc)) as [Hin|Hout].
    - apply lookup_set_to_map; [done|]. by exists t.
    - apply eq_None_not_Some. intros [x Hx].
      apply lookup_set_to_map in Hx as (t' & Hin & Heq); [|done].
      simpl in Heq. by injection Heq as <- _. }
  split_and!.
  - rewrite Hdocs, <- list_fmap_compose. done.
  - rewrite Hdocs, <- list_fmap_compose. done.
  - intros t. rewrite Hvoc, Exists_exists. done.
  - intros t. rewrite Hidf. destruct (decide _) as [Hin|Hout].
    + split; [done|]. by eexists.
    + split; [by intros [? ?]|done].
  - intros t Hin. rewrite Hidf, decide_True by done. split.
    + unfold TFIDF.idfOf. rewrite Hdocs, docsWithTerm_df, length_fmap. done.
    + apply df_bounds. by apply Hvoc.
Qed.
End ScorerMoreFacts.

(** ** [getTopTerms] *)

Lemma keys_set k v m :
  (TopTerms.set k v m).*1 = if bool_decide (k ∈ m.*1) then m.*1 else m.*1 ++ [k].
Proof.
  induction m as [|[k' v'] m IH]; [done|].
  cbn [TopTerms.set]. rewrite fmap_cons. cbn [fst].
  destruct (decide (k' = k)) as [->|Hne].
  - rewrite !bool_decide_eq_true_2; [done|apply list_elem_of_here|done].
  - rewrite (bool_decide_eq_false_2 (k' = k)) by done.
    rewrite fmap_cons, IH. cbn [fst].
    destruct (decide (k ∈ m.*1)) as [Hin|Hout].
    + rewrite !bool_decide_eq_true_2; [done|by apply elem_of_cons; right|done].
    + rewrite !bool_decide_eq_false_2; [done| |done].
      rewrite elem_of_cons. intros [?|?]; [congruence|done].
Qed.

Lemma get_set_entries k v m t :
  TopTerms.get t (TopTerms.set k v m)
  = if bool_decide (k = t) then Some v else TopTerms.get t m.
Proof.
  induction m as [|[k' v'] m IH]; simpl.
  - done.
  - destruct (decide (k' = k)) as [->|Hne].
    + rewrite (bool_decide_eq_true_2 (k = k)) by done. simpl.
      by destruct (bool_decide (k = t)).
    + rewrite (bool_decide_eq_false_2 (k' = k)) by done. simpl. rewrite IH.
      destruct (decide (k' = t)) as [->|Hne'].
      * rewrite (bool_decide_eq_true_2 (t = t)) by done.
        by rewrite (bool_decide_eq_false_2 (k = t)) by congruence.
      * by rewrite (bool_decide_eq_false_2 (k' = t)) by done.
Qed.

Lemma keys_countEntries_from tokens m :
  (foldl (λ tf token,
            TopTerms.set token (default 0 (TopTerms.get token tf) + 1) tf) m tokens).*1
  = m.*1 ++ filter (λ t, t ∉ m.*1) (Spec.firstOccurrences tokens).
Proof.
  revert m. induction tokens as [|x tokens IH]; intros m; simpl.
  - by rewrite filter_nil, app_nil_r.
  - rewrite IH, keys_set, filter_cons.
    destruct (decide (x ∈ m.*1)) as [Hin|Hout].
    + rewrite bool_decide_eq_true_2 by done.
      rewrite decide_False by tauto. f_equal.
      rewrite list_filter_filter. apply list_filter_iff. intros t.
      split; [|by intros [? ?]]. intros Ht. split; [done|]. by intros ->.
    + rewrite bool_decide_eq_false_2 by done.
      rewrite decide_True by done. rewrite <- app_assoc. simpl. do 2 f_equal.
      rewrite list_filter_filter. apply list_filter_iff. intros t.
      simpl. rewrite elem_of_app, list_elem_of_singleton. tauto.
Qed.

Lemma keys_countEntries tokens :
  (TopTerms.countEntries tokens).*1 = Spec.firstOccurrences tokens.
Proof.
  unfold TopTerms.countEntries. rewrite keys_countEntries_from. simpl.
  induction (Spec.firstOccurrences tokens) as [|t l IH]; [done|].
  rewrite filter_cons_True by apply not_elem_of_nil. by rewrite IH.
Qed.

Lemma countEntries_from tokens m (g : gmap string Z) :
  (∀ t, TopTerms.get t m = g !! t) →
  ∀ t, TopTerms.get t
         (foldl (λ tf token,
                   TopTerms.set token (default 0 (TopTerms.get token tf) + 1) tf)
                m tokens)
       = foldl (λ tf token, <[token := default 0 (tf !! token) + 1]> tf) g tokens !! t.
Proof.
  revert m g. induction tokens as [|x tokens IH]; intros m g Hm t; simpl; [done|].
  apply IH. intros t'. rewrite get_set_entries, Hm.
  destruct (decide (x = t')) as [->|Hne].
  - by rewrite bool_decide_eq_true_2, lookup_insert_eq by done.
  - by rewrite bool_decide_eq_false_2, lookup_insert_ne by done.
Qed.

Lemma keys_tfEntries tokens :
  (TopTerms.tfEntries tokens).*1 = Spec.firstOccurrences tokens.
Proof.
  unfold TopTerms.tfEntries. rewrite <- list_fmap_compose.
  rewrite <- keys_countEntries. by apply list_fmap_ext.
Qed.

Lemma get_entry (m : list (string * Z)) t c :
  NoDup m.*1 → (t, c) ∈ m → TopTerms.get t m = Some c.
Proof.
  induction m as [|[k v] m IH]; intros Hnd Hin; [by apply elem_of_nil in Hin|].
  rewrite fmap_cons in Hnd. apply NoDup_cons in Hnd as [Hk Hnd].
  cbn [TopTerms.get]. apply elem_of_cons in Hin as [Heq|Hin].
  - injection Heq as -> ->. by rewrite bool_decide_eq_true_2.
  - rewrite bool_decide_eq_false_2; [by apply IH|].
    intros ->. apply Hk. apply list_elem_of_fmap. by exists (t, c).
Qed.

Lemma countEntries_countTokens tokens t :
  TopTerms.get t (TopTerms.countEntries tokens) = TFIDF.countTokens tokens !! t.
Proof. by apply countEntries_from. Qed.

Lemma tfEntries_computeTF tokens e :
  e ∈ TopTerms.tfEntries tokens → TFIDF.computeTF tokens !! e.1 = Some e.2.
Proof.
  unfold TopTerms.tfEntries, TFIDF.computeTF.
  intros ([t c] & -> & Hin)%list_elem_of_fmap. cbn [fst snd].
  rewrite lookup_fmap, <- countEntries_countTokens.
  rewrite (get_entry _ t c); [done| |done].
  rewrite keys_countEntries. apply NoDup_firstOccurrences.
Qed.

Lemma Sorted_take {A} (R : relation A) n (l : list A) :
  Sorted R l → Sorted R (take n l).
Proof.
  intros H. revert n. induction H as [|x l _ IH Hhd]; intros [|n]; simpl;
    try constructor.
  - apply IH.
  - destruct Hhd; destruct n; simpl; by constructor.
Qed.

Lemma Sorted_fmap_inv {A B} (f : A → B) (R1 : relation B) (R2 : relation A) l :
  (∀ x y, R1 (f x) (f y) → R2 x y) → Sorted R1 (f <$> l) → Sorted R2 l.
Proof.
  intros HR. induction l as [|x l IH]; [constructor|].
  rewrite fmap_cons. intros [Hs Hhd]%Sorted_inv. constructor; [by apply IH|].
  destruct l as [|y l]; [constructor|]. rewrite fmap_cons in Hhd.
  apply HdRel_inv in Hhd. constructor. by apply HR.
Qed.

Lemma fmap_of_keys {A B} (f : A → B) (l : list (A * B)) :
  Forall (λ e, e.2 = f e.1) l → l = (λ t, (t, f t)) <$> l.*1.
Proof.
  induction 1 as [|[t v] l Hv _ IH]; [done|].
  rewrite !fmap_cons, <- IH. simpl in *. by subst v.
Qed.

(** X16.  [getTopTerms(filePath, limit)]: the answer has no repeated term
    and exactly [min(limit, d)] terms, where [d] is the number of distinct
    tokens of the first document with that path; every term it names is a
    token of that document; the terms come by descending score, the score
    of a term being its term frequency in the document times its IDF (no
    term is directly followed by one of greater score); when the limit is
    at least [d], the answer is a rearrangement of the document's distinct
    tokens; for a path of no document the answer is empty.  The limit is a
    non-negative integer here. *)
Theorem top_terms_of_document (s : TFIDF.Scorer) filePath limit :
  let terms := TopTerms.getTopTerms s filePath limit in
  NoDup terms
  ∧ match List.find (λ d, bool_decide (TFIDF.doc_path d = filePath))
                    (TFIDF.documents s) with
    | None => terms = []
    | Some doc =>
        let distinct := Spec.firstOccurrences (TFIDF.doc_tokens doc) in
        length terms = (limit `min` length distinct)%nat
        ∧ terms ⊆+ distinct
        ∧ (∀ t, t ∈ terms → t ∈ TFIDF.doc_tokens doc)
        ∧ Sorted (λ a b, PrimFloat.ltb 0 (Ref.termScore s doc b - Ref.termScore s doc a)
                         = false) terms
        ∧ ((length distinct ≤ limit)%nat → terms ≡ₚ distinct)
    end.
Proof.
  intros terms. subst terms. unfold TopTerms.getTopTerms.
  destruct (List.find _ _) as [doc|]; [|split; [constructor|done]].
  cbv zeta.
  set (entries := (λ e : string * float,
                     (e.1, (e.2 * TFIDF.getOr0 (TFIDF.idfCache s) e.1)%float))
                    <$> TopTerms.tfEntries (TFIDF.doc_tokens doc)).
  set (sorted := JS.sort (λ a b : string * float, (b.2 - a.2)%float) entries).
  assert (Hkeys : sorted.*1 ≡ₚ Spec.firstOccurrences (TFIDF.doc_tokens doc)).
  { subst sorted. rewrite sort_perm. subst entries.
    rewrite <- list_fmap_compose, <- keys_tfEntries. by erewrite list_fmap_ext. }
  assert (Hscores : sorted = (λ t, (t, Ref.termScore s doc t)) <$> sorted.*1).
  { apply fmap_of_keys, Forall_forall. intros e He.
    apply sort_elem_of in He. subst entries.
    apply list_elem_of_fmap in He as (e0 & -> & He0). cbn [fst snd].
    unfold Ref.termScore. by rewrite (tfEntries_computeTF _ _ He0). }
  assert (Hsorted : Sorted (λ a b : string * float,
                              PrimFloat.ltb 0 (b.2 - a.2) = false) sorted).
  { apply (sort_sorted (λ a b : string * float, (b.2 - a.2)%float)).
    intros x y. apply sub_antisym. }
  rewrite fmap_take.
  assert (Hsub : take limit sorted.*1 ⊆+ Spec.firstOccurrences (TFIDF.doc_tokens doc)).
  { rewrite <- Hkeys. apply sublist_submseteq, sublist_take. }
  assert (Hlen : length (take limit sorted.*1)
                 = (limit `min` length (Spec.firstOccurrences (TFIDF.doc_tokens doc)))%nat).
  { by rewrite length_take, Hkeys. }
  split_and!.
  - eapply sublist_NoDup; [|apply sublist_take].
    rewrite Hkeys. apply NoDup_firstOccurrences.
  - done.
  - done.
  - intros t Ht. apply elem_of_firstOccurrences.
    by apply (elem_of_submseteq _ _ _ Ht).
  - apply Sorted_take. rewrite Hscores in Hsorted.
    revert Hsorted. apply Sorted_fmap_inv. intros a b Hab. exact Hab.
  - intros Hle. apply submseteq_length_Permutation; [done|]. rewrite Hlen. lia.
Qed.

(** ** Cosine similarity *)

Lemma SFmul_comm x y : SFmul prec emax x y = SFmul prec emax y x.
Proof.
  destruct x as [sx|sx| |sx mx ex], y as [sy|sy| |sy my ey]; simpl;
    rewrite ?(xorb_comm sx sy); try reflexivity.
  by rewrite (Pos.mul_comm mx my), (Z.add_comm ex ey).
Qed.

Lemma float_mul_comm (x y : float) : (x * y = y * x)%float.
Proof.
  apply Prim2SF_inj. rewrite !FloatAxioms.mul_spec. unfold SF64mul. apply SFmul_comm.
Qed.

Lemma cosine_sums_swap (a b : list float) d na nb :
  foldl (λ '(d, na, nb) '(x, y), (d + x * y, na + x * x, nb + y * y)%float)
        (d, nb, na) (zip b a)
  = (let '(d', na', nb') :=
       foldl (λ '(d, na, nb) '(x, y), (d + x * y, na + x * x, nb + y * y)%float)
             (d, na, nb) (zip a b) in
     (d', nb', na')).
Proof.
  revert b d na nb. induction a as [|x a IH]; intros [|y b] d na nb; try done.
  simpl. rewrite (float_mul_comm y x). apply IH.
Qed.

(** X17.  [cosineSimilarity] does not depend on the order of its two
    vectors, and it is [0] for vectors of different lengths. *)
Theorem cosine_symmetric (a b : list float) :
  Heuristic.cosineSimilarity a b = Heuristic.cosineSimilarity b a
  ∧ (length a ≠ length b → Heuristic.cosineSimilarity a b = 0%float).
Proof.
  unfold Heuristic.cosineSimilarity. split.
  - destruct (decide (length a = length b)) as [Heq|Hne].
    + rewrite !bool_decide_eq_false_2 by (intros H; apply H; congruence).
      pose proof (cosine_sums_swap a b 0 0 0) as Hswap.
      destruct (foldl _ _ (zip a b)) as [[d na] nb].
      rewrite Hswap. by rewrite (float_mul_comm (PrimFloat.sqrt nb)).
    + rewrite !bool_decide_eq_true_2; [done|congruence|done].
  - intros Hne. by rewrite bool_decide_eq_true_2.
Qed.

(** ** The case of the query *)

Section CaseFacts.
Context (E : Env).

(** X18.  Two queries that differ in the case of their letters only are
    scored alike by the TF-IDF path: the tokenizer, [scoreDocument], the
    path heuristics, the TF-IDF scoring of the candidates and the keyword
    extraction give the same results for both. *)
Theorem query_case_is_ignored (q q' : string) :
  Str.toLowerCase q = Str.toLowerCase q' →
  TFIDF.tokenize q = TFIDF.tokenize q'
  ∧ Engine.extractKeywords q = Engine.extractKeywords q'
  ∧ (∀ s p, TFIDF.scoreDocument s p q = TFIDF.scoreDocument s p q')
  ∧ (∀ p, Heuristic.scoreByPath E p q = Heuristic.scoreByPath E p q')
  ∧ (∀ candidates,
       Engine.scoreWithTFIDF E candidates q = Engine.scoreWithTFIDF E candidates q').
Proof.
  intros Hq.
  assert (Htok : TFIDF.tokenize q = TFIDF.tokenize q')
    by (unfold TFIDF.tokenize; by rewrite Hq).
  assert (Hdoc : ∀ s p, TFIDF.scoreDocument s p q = TFIDF.scoreDocument s p q')
    by (intros s p; unfold TFIDF.scoreDocument; by rewrite Htok).
  assert (Hpath : ∀ p, Heuristic.scoreByPath E p q = Heuristic.scoreByPath E p q')
    by (intros p; unfold Heuristic.scoreByPath; by rewrite Hq).
  split_and!; [done| |done|done|].
  - unfold Engine.extractKeywords, Engine.rawKeywords. by rewrite Hq.
  - intros candidates. unfold Engine.scoreWithTFIDF. f_equal.
    apply list_fmap_ext. intros _ c _.
    unfold Engine.tfidfOne, Engine.addHeuristicScores. by rewrite Hdoc, Hpath.
Qed.

End CaseFacts.

(** The statement of X18 for a prompt typed with and without capitals. *)
Lemma query_case_is_ignored_witness :
  let E := Examples.offline Examples.mixed in
  TFIDF.tokenize "Fix the Login bug" = TFIDF.tokenize "fix the login BUG"
  ∧ Engine.extractKeywords "Fix the Login bug"
    = Engine.extractKeywords "fix the login BUG"
  ∧ (∀ s p, TFIDF.scoreDocument s p "Fix the Login bug"
            = TFIDF.scoreDocument s p "fix the login BUG")
  ∧ (∀ p, Heuristic.scoreByPath E p "Fix the Login bug"
          = Heuristic.scoreByPath E p "fix the login BUG")
  ∧ (∀ candidates,
       Engine.scoreWithTFIDF E candidates "Fix the Login bug"
       = Engine.scoreWithTFIDF E candidates "fix the login BUG").
Proof.
  intros E.
  apply (query_case_is_ignored E "Fix the Login bug" "fix the login BUG").
  reflexivity.
Defined.

(** ** The embedding provider *)

Section ProviderFacts.
Context (getEnvVar : string → option string) (parses : string → bool).

Lemma truthy_idemp o : Provider.truthy (Provider.truthy o) = Provider.truthy o.
Proof.
  destruct o as [s|]; [|done]. simpl.
  destruct (decide (s = EmptyString)) as [->|Hne]; [done|].
  rewrite bool_decide_eq_false_2 by done. simpl.
  by rewrite bool_decide_eq_false_2.
Qed.

Lemma truthy_nonempty o s : Provider.truthy o = Some s → o = Some s ∧ s ≠ EmptyString.
Proof.
  destruct o as [s'|]; [|done]. simpl. case_bool_decide; [done|].
  intros [= ->]. done.
Qed.

(** X19.  The provider the constructor of [EmbeddingProvider] picks: a key
    in the settings comes before the environment variable, OpenAI before
    Google, Google before Vertex.  With an OpenAI or a Google key the
    Vertex settings are not looked at, so the constructor cannot throw; it
    throws only through [JSON.parse], that is with no key, a Vertex project
    and location and a service account key that does not parse.
    [isAvailable()] answers [false] exactly when there is no key and the
    Vertex settings lack the project or the location; the key handed to a
    provider is never empty. *)
Theorem provider_priority (settings : Provider.ProviderSettings) :
  let init := Provider.initializeProvider getEnvVar parses settings in
  let openai :=
    Provider.truthy
      (Provider.orElse (Provider.openaiKey settings) (getEnvVar "OPENAI_API_KEY")) in
  let google :=
    Provider.truthy
      (Provider.orElse (Provider.googleKey settings) (getEnvVar "GOOGLE_API_KEY")) in
  let vertexReady :=
    ∃ v project loc,
      Provider.vertex settings = Some v
      ∧ Provider.truthy (Provider.projectId v) = Some project
      ∧ Provider.truthy (Provider.location v) = Some loc in
  (∀ k, Provider.truthy (Provider.openaiKey settings) = Some k →
        init = Provider.Ready (Some (Provider.OpenAI k)) "text-embedding-3-small")
  ∧ (∀ k, openai = Some k →
          init = Provider.Ready (Some (Provider.OpenAI k)) "text-embedding-3-small")
  ∧ (∀ k, openai = None → Provider.truthy (Provider.googleKey settings) = Some k →
          init = Provider.Ready (Some (Provider.Google k)) "text-embedding-004")
  ∧ (∀ k, openai = None → google = Some k →
          init = Provider.Ready (Some (Provider.Google k)) "text-embedding-004")
  ∧ (Provider.isAvailable init = Some false
     ↔ openai = None ∧ google = None ∧ ¬ vertexReady)
  ∧ (init = Provider.Throws
     ↔ openai = None ∧ google = None
       ∧ ∃ v json, Provider.vertex settings = Some v
                   ∧ is_Some (Provider.truthy (Provider.projectId v))
                   ∧ is_Some (Provider.truthy (Provider.location v))
                   ∧ Provider.truthy (Provider.serviceAccountKey v) = Some json
                   ∧ parses json = false)
  ∧ (∀ k m, init = Provider.Ready (Some (Provider.OpenAI k)) m
            ∨ init = Provider.Ready (Some (Provider.Google k)) m →
            k ≠ EmptyString).
Proof.
  intros init openai google vertexReady.
  assert (Hsettings : ∀ a b k, Provider.truthy a = Some k →
                               Provider.truthy (Provider.orElse a b) = Some k).
  { intros a b k Ha. unfold Provider.orElse. rewrite Ha.
    rewrite <- Ha. apply truthy_idemp. }
  assert (Hopen : ∀ k, openai = Some k →
                       init = Provider.Ready (Some (Provider.OpenAI k))
                                "text-embedding-3-small").
  { intros k Hk. subst init. unfold Provider.initializeProvider.
    fold openai. by rewrite Hk. }
  assert (Hgoogle : ∀ k, openai = None → google = Some k →
                         init = Provider.Ready (Some (Provider.Google k))
                                  "text-embedding-004").
  { intros k Ho Hk. subst init. unfold Provider.initializeProvider.
    fold openai google. by rewrite Ho, Hk. }
  split_and!.
  - intros k Hk. apply Hopen. by apply Hsettings.
  - done.
  - intros k Ho Hk. apply Hgoogle; [done|]. by apply Hsettings.
  - done.
  - subst init vertexReady. unfold Provider.initializeProvider. fold openai google.
    destruct openai as [ko|]; [simpl; split; [done|by intros [? _]]|].
    destruct google as [kg|]; [simpl; split; [done|by intros (_ & ? & _)]|].
    destruct (Provider.vertex settings) as [v|];
      [|simpl; split; [|done]; intros _; split_and!; [done|done|];
        by intros (? & ? & ? & ? & _)].
    destruct (Provider.truthy (Provider.projectId v)) as [project|] eqn:Hp;
      [|simpl; split; [|done]; intros _; split_and!; [done|done|];
        intros (? & ? & ? & [= <-] & ? & _); congruence].
    destruct (Provider.truthy (Provider.location v)) as [loc|] eqn:Hl;
      [|simpl; split; [|done]; intros _; split_and!; [done|done|];
        intros (? & ? & ? & [= <-] & _ & ?); congruence].
    split.
    + destruct (Provider.truthy (Provider.serviceAccountKey v)); [|done].
      by destruct (parses _).
    + intros (_ & _ & Hnot). exfalso. apply Hnot. by exists v, project, loc.
  - subst init. unfold Provider.initializeProvider. fold openai google.
    destruct openai as [ko|]; [split; [done|by intros [? _]]|].
    destruct google as [kg|]; [split; [done|by intros (_ & ? & _)]|].
    destruct (Provider.vertex settings) as [v|];
      [|split; [done|by intros (_ & _ & ? & ? & ? & _)]].
    destruct (Provider.truthy (Provider.projectId v)) as [project|] eqn:Hp;
      [|split; [done|]; intros (_ & _ & ? & ? & [= <-] & [? ?] & _); congruence].
    destruct (Provider.truthy (Provider.location v)) as [loc|] eqn:Hl;
      [|split; [done|]; intros (_ & _ & ? & ? & [= <-] & _ & [? ?] & _); congruence].
    destruct (Provider.truthy (Provider.serviceAccountKey v)) as [json|] eqn:Hk;
      [|split; [done|]; intros (_ & _ & ? & ? & [= <-] & _ & _ & ? & _); congruence].
    destruct (parses json) eqn:Hparse.
    + split; [done|].
      intros (_ & _ & ? & ? & [= <-] & _ & _ & ? & ?); congruence.
    + split; [|done]. intros _. split_and!; [done|done|].
      exists v, json. rewrite Hp, Hl. by split_and!.
  - intros k m Hready. subst init. unfold Provider.initializeProvider in Hready.
    fold openai google in Hready.
    destruct openai as [ko|] eqn:Ho.
    { destruct Hready as [[= <- _]|[=]]. by apply truthy_nonempty in Ho as [_ ?]. }
    destruct google as [kg|] eqn:Hg.
    { destruct Hready as [[=]|[= <- _]]. by apply truthy_nonempty in Hg as [_ ?]. }
    destruct (Provider.vertex settings) as [v|]; [|by destruct Hready].
    destruct (Provider.truthy (Provider.projectId v)); [|by destruct Hready].
    destruct (Provider.truthy (Provider.location v)); [|by destruct Hready].
    destruct (Provider.truthy (Provider.serviceAccountKey v)); [|by destruct Hready].
    destruct (parses _); by destruct Hready.
Qed.
End ProviderFacts.

(** ** Deep links *)

Section DeepLinkFacts.
Context (Number : string → float).

Lemma oauthReturn_inv make parsed t r e :
  (∀ t r e title content, make t r e ≠ DeepLink.ErrorBox title content) →
  (∀ t r e t' r' e', make t r e = make t' r' e' → t = t' ∧ r = r' ∧ e = e') →
  DeepLink.oauthReturn Number make parsed = make t r e →
  DeepLink.get "token" (DeepLink.searchParams parsed) = Some t ∧ t ≠ EmptyString
  ∧ DeepLink.get "refreshToken" (DeepLink.searchParams parsed) = Some r
  ∧ r ≠ EmptyString
  ∧ e = DeepLink.numberOf Number (DeepLink.get "expiresIn" (DeepLink.searchParams parsed))
  ∧ DeepLink.falsy e = false.
Proof.
  intros Hne Hinj. unfold DeepLink.oauthReturn.
  destruct (Provider.truthy (DeepLink.get "token" _)) as [t0|] eqn:Ht;
    [|intros H; symmetry in H; by apply Hne in H].
  destruct (Provider.truthy (DeepLink.get "refreshToken" _)) as [r0|] eqn:Hr;
    [|intros H; symmetry in H; by apply Hne in H].
  destruct (DeepLink.falsy _) eqn:He;
    [intros H; symmetry in H; by apply Hne in H|].
  intros (-> & -> & <-)%Hinj.
  apply truthy_nonempty in Ht as [Ht ?]. apply truthy_nonempty in Hr as [Hr ?].
  by split_and!.
Qed.

(** X20.  What a deep link can set off.  The device-link callback runs
    exactly for host [link] and path [/callback] with [status=ok] and a
    non-empty token, whatever the protocol of the URL.  The Neon and
    Supabase handlers run only for a [ternary:] URL of their host, with the
    first [token] and [refreshToken] parameters, both non-empty, and an
    [expiresIn] that is a number other than zero; the Pro handler only for a
    [ternary:] URL of host [ternary-pro-return] with a non-empty [key].  A
    URL of another protocol that is not the device-link callback gets the
    "Invalid Protocol" box and nothing else. *)
Theorem deep_link_dispatch (url : string) (parsed : DeepLink.URL) :
  let out := DeepLink.handleDeepLinkReturn Number url (Some parsed) in
  let params := DeepLink.searchParams parsed in
  (∀ t d, out = DeepLink.DeviceLink t d
          ↔ DeepLink.hostname parsed = "link"
            ∧ DeepLink.pathname parsed = "/callback"
            ∧ DeepLink.get "status" params = Some "ok"
            ∧ DeepLink.get "token" params = Some t ∧ t ≠ EmptyString
            ∧ d = Provider.truthy (DeepLink.get "device_id" params))
  ∧ (∀ t r e, out = DeepLink.NeonReturn t r e →
              DeepLink.protocol parsed = "ternary:"
              ∧ DeepLink.hostname parsed = "neon-oauth-return"
              ∧ DeepLink.get "token" params = Some t ∧ t ≠ EmptyString
              ∧ DeepLink.get "refreshToken" params = Some r ∧ r ≠ EmptyString
              ∧ e = DeepLink.numberOf Number (DeepLink.get "expiresIn" params)
              ∧ DeepLink.falsy e = false)
  ∧ (∀ t r e, out = DeepLink.SupabaseReturn t r e →
              DeepLink.protocol parsed = "ternary:"
              ∧ DeepLink.hostname parsed = "supabase-oauth-return"
              ∧ DeepLink.get "token" params = Some t ∧ t ≠ EmptyString
              ∧ DeepLink.get "refreshToken" params = Some r ∧ r ≠ EmptyString
              ∧ e = DeepLink.numberOf Number (DeepLink.get "expiresIn" params)
              ∧ DeepLink.falsy e = false)
  ∧ (∀ k, out = DeepLink.ProReturn k →
          DeepLink.protocol parsed = "ternary:"
          ∧ DeepLink.hostname parsed = "ternary-pro-return"
          ∧ DeepLink.get "key" params = Some k ∧ k ≠ EmptyString)
  ∧ (DeepLink.protocol parsed ≠ "ternary:" →
     ¬ (DeepLink.hostname parsed = "link" ∧ DeepLink.pathname parsed = "/callback") →
     out = DeepLink.ErrorBox "Invalid Protocol"
             ("Expected ternary://, got " +:+ DeepLink.protocol parsed
              +:+ ". Full URL: " +:+ url))
  ∧ out ≠ DeepLink.InvalidURL.
Proof.
  intros out params. subst out. unfold DeepLink.handleDeepLinkReturn. fold params.
  destruct (decide (DeepLink.hostname parsed = "link"
                    ∧ DeepLink.pathname parsed = "/callback")) as [[Hh Hp]|Hnot].
  - rewrite !bool_decide_eq_true_2 by done. cbn [andb].
    destruct (Provider.truthy (DeepLink.get "token" params)) as [t0|] eqn:Ht.
    + apply truthy_nonempty in Ht as [Ht Hne].
      destruct (decide (DeepLink.get "status" params = Some "ok")) as [Hs|Hs].
      * rewrite bool_decide_eq_true_2 by done. split_and!; try done.
        -- intros t d. split.
           ++ intros [= <- <-]. by split_and!.
           ++ intros (_ & _ & _ & Ht' & _ & ->). congruence.
        -- intros Hproto Hlink. exfalso. by apply Hlink.
      * rewrite bool_decide_eq_false_2 by done. split_and!; try done.
        -- intros t d. split; [done|]. by intros (_ & _ & ? & _).
        -- intros Hproto Hlink. exfalso. by apply Hlink.
    + split_and!; try done.
      * intros t d. split; [done|]. intros (_ & _ & _ & Ht' & Hne & _).
        rewrite Ht' in Ht. simpl in Ht. by rewrite bool_decide_eq_false_2 in Ht.
      * intros Hproto Hlink. exfalso. by apply Hlink.
  - assert (Hcond : bool_decide (DeepLink.hostname parsed = "link")
                    && bool_decide (DeepLink.pathname parsed = "/callback") = false).
    { apply andb_false_iff.
      destruct (decide (DeepLink.hostname parsed = "link")).
      - right. apply bool_decide_eq_false_2. tauto.
      - left. by apply bool_decide_eq_false_2. }
    rewrite Hcond. clear Hcond.
    assert (Hdev : ∀ t d (o : DeepLink.Outcome),
               (∀ t d, o ≠ DeepLink.DeviceLink t d) →
               o = DeepLink.DeviceLink t d
               ↔ DeepLink.hostname parsed = "link"
                 ∧ DeepLink.pathname parsed = "/callback"
                 ∧ DeepLink.get "status" params = Some "ok"
                 ∧ DeepLink.get "token" params = Some t ∧ t ≠ EmptyString
                 ∧ d = Provider.truthy (DeepLink.get "device_id" params)).
    { intros t d o Ho. split; [by intros ?%Ho|]. intros (? & ? & _). tauto. }
    destruct (decide (DeepLink.protocol parsed = "ternary:")) as [Hproto|Hproto].
    + rewrite (bool_decide_eq_true_2 _ Hproto). cbn [negb].
      case_bool_decide as Hneon.
      { split_and!; try done.
        - intros t d. apply Hdev. intros t' d' H.
          unfold DeepLink.oauthReturn in H. repeat case_match; done.
        - intros t r e H. split; [done|]. split; [done|].
          revert H. apply oauthReturn_inv; [done|]. by intros ?????? [= -> -> ->].
        - intros t r e H. unfold DeepLink.oauthReturn in H. repeat case_match; done.
        - intros k H. unfold DeepLink.oauthReturn in H. repeat case_match; done.
        - unfold DeepLink.oauthReturn. repeat case_match; done. }
      case_bool_decide as Hsupa.
      { split_and!; try done.
        - intros t d. apply Hdev. intros t' d' H.
          unfold DeepLink.oauthReturn in H. repeat case_match; done.
        - intros t r e H. unfold DeepLink.oauthReturn in H. repeat case_match; done.
        - intros t r e H. split; [done|]. split; [done|].
          revert H. apply oauthReturn_inv; [done|]. by intros ?????? [= -> -> ->].
        - intros k H. unfold DeepLink.oauthReturn in H. repeat case_match; done.
        - unfold DeepLink.oauthReturn. repeat case_match; done. }
      case_bool_decide as Hpro.
      { destruct (Provider.truthy (DeepLink.get "key" params)) as [k0|] eqn:Hk.
        - apply truthy_nonempty in Hk as [Hk Hne]. split_and!; try done.
          + intros t d. by apply Hdev.
          + by intros k [= <-].
        - split_and!; try done. intros t d. by apply Hdev. }
      split_and!; try done. intros t d. by apply Hdev.
    + rewrite (bool_decide_eq_false_2 _ Hproto). cbn [negb].
      split_and!; try done. intros t d. by apply Hdev.
Qed.
End DeepLinkFacts.

(** ** The account origin *)

(** X21.  The origin [fetchAndUpdateAppAuthFromToken] calls: it always
    starts with [http] and is never empty (the empty alternative of the code
    cannot happen, since the base falls back to a literal);
    [NEXT_PUBLIC_WEBSITE_BASE] comes before [VERCEL_URL], an empty variable
    counts as unset, a base without [http] in front gets [https://] in
    front, and without either variable the origin is the literal; the URL
    fetched is the origin followed by [/api/app/me]. *)
Theorem origin_is_absolute (websiteBase vercelUrl : option string) :
  let base :=
    match Provider.truthy websiteBase, Provider.truthy vercelUrl with
    | Some b, _ => b
    | None, Some b => b
    | None, None => "https://ternary-pre-domain.vercel.app"
    end in
  DeepLink.origin websiteBase vercelUrl
  = (if DeepLink.startsWith base "http" then base else "https://" +:+ base)
  ∧ DeepLink.startsWith (DeepLink.origin websiteBase vercelUrl) "http" = true
  ∧ DeepLink.origin websiteBase vercelUrl ≠ EmptyString
  ∧ DeepLink.meUrl websiteBase vercelUrl
    = DeepLink.origin websiteBase vercelUrl +:+ "/api/app/me".
Proof.
  intros base.
  assert (Hbase : Provider.orElse (Provider.orElse websiteBase vercelUrl)
                    (Some "https://ternary-pre-domain.vercel.app") = Some base
                  ∧ base ≠ EmptyString).
  { subst base. unfold Provider.orElse.
    destruct (Provider.truthy websiteBase) as [b|] eqn:Hw.
    - rewrite <- Hw, truthy_idemp, Hw. by apply truthy_nonempty in Hw as [_ ?].
    - destruct (Provider.truthy vercelUrl) as [b|] eqn:Hv; [|done].
      apply truthy_nonempty in Hv as [_ ?]. done. }
  destruct Hbase as [Hbase Hne].
  assert (Horigin : DeepLink.origin websiteBase vercelUrl
                    = if DeepLink.startsWith base "http" then base
                      else "https://" +:+ base).
  { unfold DeepLink.origin. rewrite Hbase.
    destruct (DeepLink.startsWith base "http"); [done|].
    by rewrite bool_decide_eq_false_2. }
  split_and!; [done| | |done].
  - rewrite Horigin. destruct (DeepLink.startsWith base "http") eqn:Hs; [done|].
    reflexivity.
  - rewrite Horigin. destruct (DeepLink.startsWith base "http"); [done|].
    discriminate.
Qed.

(** ** The token budget and the selection *)

Section BudgetFacts.
Context (toFixed : float → nat → string).

Lemma loop_budget_mono cap threshold budget budget' remaining st st' :
  budget ≤ budget' →
  Selector.selected st = Selector.selected st' →
  Selector.usedTokens st = Selector.usedTokens st' →
  Selector.selected (Selector.selectLoop toFixed cap budget threshold remaining st)
  `prefix_of`
  Selector.selected (Selector.selectLoop toFixed cap budget' threshold remaining st').
Proof.
  intros Hle. revert st st'.
  induction remaining as [|c rest IH]; intros st st' Hsel Hused.
  - simpl. by rewrite Hsel.
  - cbn [Selector.selectLoop].
    destruct (PrimFloat.ltb (score c) threshold) eqn:Hlt.
    { by apply IH. }
    rewrite <- Hsel, <- Hused.
    destruct (cap <=? length (Selector.selected st))%nat eqn:Hcap.
    { simpl. by rewrite Hsel. }
    destruct (budget <? Selector.usedTokens st + tokens c) eqn:Hover.
    + cbn [Selector.selected].
      destruct (budget' <? Selector.usedTokens st + tokens c).
      * simpl. by rewrite Hsel.
      * match goal with
        | |- _ `prefix_of` Selector.selected (Selector.selectLoop _ _ _ _ _ ?s) =>
            destruct (loop_extends toFixed cap budget' threshold rest s)
              as (extra & -> & _)
        end.
        cbn [Selector.selected]. rewrite <- app_assoc.
        by apply prefix_app_r.
    + assert ((budget' <? Selector.usedTokens st + tokens c) = false) as -> by lia.
      apply IH; simpl; congruence.
Qed.

Lemma selector_budget_mono candidates budget budget' mode :
  budget ≤ budget' →
  Selector.selectWithinBudget toFixed candidates budget mode
  `prefix_of` Selector.selectWithinBudget toFixed candidates budget' mode.
Proof.
  intros Hle. unfold Selector.selectWithinBudget, Selector.selectRun.
  by apply loop_budget_mono.
Qed.
End BudgetFacts.

Section BudgetResultFacts.
Context (E : Env).

(** X22.  Raising the token budget never drops a file from the selection:
    for two explicit budgets [0 < b ≤ b'] and otherwise equal options, the
    files selected under [b] are, in order, the first files selected under
    [b']; the scores and the cache do not depend on the budget. *)
Theorem larger_budget_extends_selection autos pc m (b b' : Z) store :
  0 < b → b ≤ b' →
  let run x :=
    Engine.selectFiles E
      {| smartContextAutoIncludes := autos; promptContext := pc; mode := m;
         tokenBudget := Some x |} store in
  Result.selectedFiles (run b).1 `prefix_of` Result.selectedFiles (run b').1
  ∧ Result.topScores (Result.debug (run b).1)
    `prefix_of` Result.topScores (Result.debug (run b').1)
  ∧ (Result.selectedCount (Result.debug (run b).1)
     ≤ Result.selectedCount (Result.debug (run b').1))%nat
  ∧ (run b).2 = (run b').2.
Proof.
  intros Hpos Hle run. subst run. unfold Engine.selectFiles. cbn [mode].
  pose proof (λ f c mo, selector_budget_mono f c b b' mo Hle) as Hmono.
  destruct m; [by split_and!| |].
  all: cbn [smartContextAutoIncludes].
  all: unfold Engine.budgetOf; cbn [tokenBudget].
  all: assert ((b =? 0) = false) as -> by lia.
  all: assert ((b' =? 0) = false) as -> by lia.
  all: unfold Engine.scoreCandidates, Engine.prepareCandidates;
    cbn [promptContext smartContextAutoIncludes].
  all: match goal with
       | |- context [if Engine.isAvailable E then ?x else ?y] =>
           destruct (if Engine.isAvailable E then x else y) as [scored store']
       end.
  all: cbn [fst snd Result.selectedFiles Result.debug Result.topScores
            Result.selectedCount].
  all: match goal with
       | |- context [Selector.selectWithinBudget ?f ?c _ ?mo] =>
           destruct (Hmono f c mo) as [extra Hextra]
       end.
  all: rewrite Hextra.
  all: split_and!;
    [rewrite fmap_app; by apply prefix_app_r
    |rewrite take_app, fmap_app; by apply prefix_app_r
    |rewrite length_app; lia
    |done].
Qed.

End BudgetResultFacts.

(** The statement of X22 for budgets of 40 and 400 tokens. *)
Lemma larger_budget_extends_selection_witness :
  let E := Examples.offline Examples.mixed in
  let run x :=
    Engine.selectFiles E
      {| smartContextAutoIncludes := []; 
         promptContext := promptContext (Examples.balanced "fix login bug" None);
         mode := Balanced; tokenBudget := Some x |} Sample.emptyStore in
  Result.selectedFiles (run 40).1 `prefix_of` Result.selectedFiles (run 400).1
  ∧ Result.topScores (Result.debug (run 40).1)
    `prefix_of` Result.topScores (Result.debug (run 400).1)
  ∧ (Result.selectedCount (Result.debug (run 40%Z).1)
     ≤ Result.selectedCount (Result.debug (run 400%Z).1))%nat
  ∧ (run 40).2 = (run 400).2.
Proof.
  intros E.
  apply (larger_budget_extends_selection E []
           (promptContext (Examples.balanced "fix login bug" None)) Balanced 40 400
           Sample.emptyStore); lia.
Defined.
